(* ===== verification/_CoqProject ===== *)
-Q . S2P
Prelude.v
JsString.v
Json.v
Dom.v
Table.v
Anime.v
Year.v
Layout.v
Orchestrator.v
Concurrent.v
Output.v
