(* ===== verification/Prelude.v ===== *)
(** * animethemes: a verification development of the theme scraper

    ** The program
    src/main.js is a scraper.  [ThemeParser.all] fetches the wiki page
    [year_index.json] of r/AnimeThemes, un-escapes its content with
    [getHTML], loads it with cheerio, and [parseLinks] starts one [year(n)]
    task per [h3 a] link, all at once.  [year(n)] fetches the year page
    through [biribiri], loads it, and calls [parseAnime] on every [<h3>];
    [parseAnime] reads the title and MyAnimeList id from the heading's
    anchor and calls [parseTable] on the table that follows, skipping a
    paragraph of alternative titles; [parseTable] recurses on [.next()]
    until it meets a table and turns every [<tbody>] row into a theme.  The
    tasks' [.then] callbacks append to [this.animes] and count in
    [this.finl]; the callback that completes the count resolves the
    promise of [all], whose value the command-line entry writes to
    output.json.

    ** The files
    - [Prelude] (this file): JavaScript completions ([Normal]/[Throw]) with
      the bind notation [x <- c ;; k] in [js_scope]; the loops [cmapM] and
      [cloop] (a loop whose body threads a state and may throw, as
      cheerio's [.each] with a throwing callback) with their lemmas
      (where a loop throws, what its prefix returns); the hint databases
      [scraper] and [scraper_rw]; shared string lemmas.
    - [JsString]: [replaceAll] (main.js 190-192) as a structural
      left-to-right replacement, [getHTML] (177-181), [split('/')] and the
      index [4] ([segment4], lines 86 and 105), [startsWith] (141).
    - [Json]: [JSON.stringify] (called at line 156) on strings, arrays and
      plain objects, with [QuoteJSONString]'s escapes; a strict reader of
      the same grammar ([parse_json]), used to state what the output file
      holds.
    - [Dom]: what the cheerio calls of the program do.  A document is a
      tree of [node]s; a selected node is a [loc] carrying its identity
      (its path from the root) and its following siblings.  The document
      is shared mutable state: [cheerio.load(node)] (line 130) moves the
      node out of its parent, so the state is the list [dt] of detached
      paths, which [.next()], [.children()] and descendant search skip.
    - [Table]: the [Theme] typedef, the row callback [parse_row] (130-144),
      the row loop [parse_rows] (which detaches each row), [parseTable]
      (122-148) with fuel, and the reference search [find_table].
    - [Anime]: the [Anime] typedef and [parseAnime] (102-120), returning a
      completion and the new document state; markup fixtures.
    - [Year]: the library interfaces [HttpClient] (axios) and
      [HtmlLoader] (cheerio.load) as type classes; [biribiri] (164-172),
      [year] (64-78) with its heading loop [year_step]; fixtures of a
      small wiki.
    - [Layout]: year pages in the wiki's usual layout (an introduction,
      then per series an [<h3>] heading and its table); the invariant
      [good] on the removed rows along the heading loop.
    - [Orchestrator]: [parseLinks] (80-97) as a state machine: the state
      [orch] holds [this.animes], [this.finl], the tasks still pending and
      the value of the promise; [settle] is the callback of a settling
      task, [step] the transition relation, [reachable] its closure from
      [launch]; [run] settles the tasks in a given order.  [all_start]
      and [all_settles] model [all] (36-57).
    - [Concurrent]: the parser object shared by overlapping calls of
      [all]: [this.animes] and [this.finl] with every call in flight;
      events are a new call ([call_all]), a call's index loading
      ([index_loaded]) and a task of a call settling ([task_settles], the
      orchestrator's [settle] on the call's [view] of the shared fields),
      related by [pstep] and [preach].
    - [Output]: the command-line entry (151-159): the objects as
      [JSON.stringify] sees them ([json_of_anime], [json_of_theme]:
      properties in insertion order, [undefined] ones left out), the
      [world] of files and console lines changed by [writeFileSync] and
      [console.log], and [main_final], the worlds the program can end in.

    ** The theorems
    - The orchestrator ([Orchestrator]): every reachable state is a run of
      a valid settlement order ([reachable_run], [run_invariant]); if every
      link starts a task and every task is fulfilled, the promise resolves
      once all settle, with the anime of every year in completion order
      (C1); it resolves only in that case, so one failing year, one link
      without [href], or an index without links leaves [all()] pending
      forever (C2); [all()] resolves exactly with the concatenations in
      every completion order (C3), and then with as many anime as the year
      pages gave together (C19); [this.finl] never passes the number of
      started tasks nor [years.length] (C23); every anime of the result
      carries the year segment of one of the index's links (C27);
      [all()] rejects only when the index request fails or has no
      content (C32); the specification's end-to-end scenario (C16).
    - The extractors ([Table], [Anime], [Year]): the indirection through a
      paragraph (C4) and the direct table (C5) take the table's rows in
      document order; any other next element gives no [themes] property
      (C6); [parseTable] terminates exactly when a table follows and agrees
      with the reference search [find_table] (C7); after a paragraph the
      search runs past the next heading and takes its table, which that
      heading then finds empty (C8); [parseAnime] throws exactly on a
      heading without a link or a paragraph not followed by a table (C9);
      a year yields one anime per heading, stamped with the year and typed
      (C10), in the headings' document order, each parsed in the document
      state the earlier headings left (C30); [year] rejects exactly when
      the fetch fails or the first throwing heading throws, losing the
      whole page (C29); a parsed table has no rows left (C11); rows map to
      themes in order (C12); on a page in the usual layout the heading
      loop, despite the rows it removes, gives what parsing every heading
      on a fresh page gives, each series holding exactly its own table's
      rows (C36, the counterpart of C8).
    - The strings ([JsString]): [getHTML] inverts the API's escaping of
      tags (C13), leaves no [&lt;] or [&gt;] behind and is idempotent
      (C22); [&quot;] decoding inverts quote escaping on names without
      [&] (C14); the year and id extraction from the two link shapes (C15); [replaceAll] is the
      [str.split(find).join(repl)] idiom (C26); [getHTML] never lengthens
      its input and shortens every input holding a tag entity (C33).
    - Overlapping calls ([Concurrent]): a call made when every earlier
      call has no task left refines the single-call orchestrator (C20), so
      calls in sequence are independent; two overlapping calls on the
      fixture wiki interfere: one resolves with the other's anime too, the
      other never resolves (C21); overlapping calls push [this.finl] past
      [years.length], after which no promise changes until a new call
      (C24); every reachable call is well formed
      ([call_ok]: no task before its index loads, distinct started tasks
      after) (C28); and a call made when the earlier ones are quiet, on a
      wiki whose links and years all load, is resolved in every state
      where only a new call can happen, with a permutation of all years'
      anime (C31).
    - The output ([Json], [Output]): [JSON.stringify] is lossless on every
      JSON value, checked on each of the 256 characters for the escapes
      ([parse_json_stringify]); [output.json] reads back to exactly the
      list [all()] resolved with (C17); the program ends with that file
      and a console line whose count is the list's length, or, when
      [all()] cannot resolve, with nothing written (C18); the file has
      the JSDoc type [Array<Anime>] exactly when no id, year, themes or
      link was left [undefined] (C25); end to end, a written file reads
      back to anime whose years are segments of the index's links and
      whose themes are typed (C34); an index without year links ends the
      program with
      nothing written (C35).

    ** Fuel and bounds
    [parseTable] is a recursion that JavaScript bounds only by the call
    stack.  It is modelled with fuel; [table_fuel] (two more than the
    number of siblings after the candidate) is enough: every call either
    stops or moves right, and after the last sibling the selection is empty
    ([parseTable_find]).  With no table ahead, no fuel suffices
    (C7), and [parse_table_js] throws a
    RangeError, as the stack overflow does.  A table further than the
    stack depth (about 10,000 siblings) would also overflow in JavaScript;
    the model does not bound the depth.  The JSON reader is fuelled by
    the length of its input, which covers the size [jsize] of any printed
    value ([jsize_le_length]).

    ** Not modelled
    - HTML parsing, entity decoding and JSON parsing (cheerio,
      htmlparser2, axios): documents are the parser's output, responses
      are records; HTTP is the [HttpClient] interface.
    - Strings are byte strings: JavaScript strings are UTF-16, and
      [JSON.stringify]'s escaping of lone surrogates is not modelled; the
      characters the program inspects are ASCII.
    - I/O failures of [fs.writeFileSync] (a full disk, no permission).
    - [this.$ = y] in [year] (line 69): [parseAnime] only wraps nodes with
      [this.$], which does not depend on the document it was loaded from,
      and no [await] separates an assignment of [this.$] from its uses, so
      overlapping calls never see each other's document.
    - Whether an unhandled rejection terminates the process (Node 15 and
      later) or only warns: in both cases [all()] never resolves, which is
      what the orchestrator theorems state. *)

From Stdlib Require Import String Ascii List Arith Lia Bool.
Import ListNotations.

(** ** JavaScript completions

    Every function of src/main.js that can throw is modelled as returning
    a [completion]: [Normal v] when it returns [v], [Throw e] when it raises
    [e].  The errors the source can raise are TypeErrors (reading a property
    of [undefined]), RangeErrors (call-stack exhaustion in the unbounded
    recursion of [parseTable]) and network errors raised by axios. *)

Inductive js_error : Type :=
| TypeError (what : string)
| RangeError
| NetworkError (what : string).

Inductive completion (A : Type) : Type :=
| Normal (a : A)
| Throw (e : js_error).
Arguments Normal {A} a.
Arguments Throw {A} e.

Definition cbind {A B : Type} (c : completion A) (k : A -> completion B)
  : completion B :=
  match c with
  | Normal a => k a
  | Throw e => Throw e
  end.

Definition cmap {A B : Type} (f : A -> B) (c : completion A) : completion B :=
  cbind c (fun a => Normal (f a)).

Declare Scope js_scope.
Delimit Scope js_scope with js.
Notation "x <- c ;; k" := (cbind c (fun x => k))
  (at level 61, c at next level, right associativity) : js_scope.
Notation "f <$$> c" := (cmap f c) (at level 60, right associativity) : js_scope.

Open Scope js_scope.

(** A synchronous loop whose body may throw, such as cheerio's [.each]
    with a callback that pushes onto an array: the results in order, or
    the first exception, which aborts the loop. *)
Fixpoint cmapM {A B : Type} (f : A -> completion B) (l : list A)
  : completion (list B) :=
  match l with
  | [] => Normal []
  | x :: xs => y <- f x ;; ys <- cmapM f xs ;; Normal (y :: ys)
  end.

(** The same loop when the body also threads a state (the shared
    document the callbacks mutate): the results in order and the final
    state, or the first exception. *)
Fixpoint cloop {S A B : Type} (f : S -> A -> completion (B * S)) (s : S) (l : list A)
  : completion (list B * S) :=
  match l with
  | [] => Normal ([], s)
  | x :: xs =>
      r <- f s x ;;
      rs <- cloop f (snd r) xs ;;
      Normal (fst r :: fst rs, snd rs)
  end.

(** JS string concatenation with a value that may be [undefined]:
    ['/r/AnimeThemes/wiki/' + undefined] is ["/r/AnimeThemes/wiki/undefined"]. *)
Definition js_to_string (o : option string) : string :=
  match o with
  | Some s => s
  | None => "undefined"%string
  end.

(** ** Completions: generic lemmas *)

Lemma cbind_Normal_inv {A B : Type} (c : completion A) (k : A -> completion B) b :
  cbind c k = Normal b -> exists a, c = Normal a /\ k a = Normal b.
Proof. destruct c; simpl; [eauto | discriminate]. Qed.

Lemma cbind_Throw_l {A B : Type} e (k : A -> completion B) :
  cbind (Throw e) k = Throw e.
Proof. reflexivity. Qed.

Lemma cbind_Normal_l {A B : Type} (a : A) (k : A -> completion B) :
  cbind (Normal a) k = k a.
Proof. reflexivity. Qed.

Create HintDb scraper.
Create Rewrite HintDb scraper_rw.
#[export] Hint Rewrite @cbind_Throw_l @cbind_Normal_l : scraper_rw.

(** [cmapM] succeeds exactly when every element succeeds, pointwise. *)
Lemma cmapM_Normal_iff {A B : Type} (f : A -> completion B) l ys :
  cmapM f l = Normal ys <-> Forall2 (fun x y => f x = Normal y) l ys.
Proof.
  revert ys; induction l as [|x l IH]; intros ys; simpl.
  - split; [intros H; injection H as <-; constructor |
            intros H; inversion H; reflexivity].
  - split.
    + intros H. destruct (f x) as [y|e] eqn:Hf; simpl in H; [|discriminate].
      destruct (cmapM f l) as [ys'|e] eqn:Hl; simpl in H; [|discriminate].
      injection H as <-. constructor; [exact Hf | apply IH; reflexivity].
    + intros H. inversion H as [|x' y ys' l' Hf Hrest]; subst.
      rewrite Hf. simpl. rewrite (proj2 (IH _) Hrest). reflexivity.
Qed.

Lemma cmapM_length {A B : Type} (f : A -> completion B) l ys :
  cmapM f l = Normal ys -> length ys = length l.
Proof.
  intros H. apply cmapM_Normal_iff in H.
  symmetry. exact (Forall2_length H).
Qed.

(** A loop over a list with one throwing element throws. *)
Lemma cmapM_Throw {A B : Type} (f : A -> completion B) l x e :
  In x l -> f x = Throw e -> exists e', cmapM f l = Throw e'.
Proof.
  induction l as [|y l IH]; simpl; [tauto|].
  intros [<-|Hin] Hf.
  - rewrite Hf. simpl. eauto.
  - destruct (f y); simpl; [|eauto].
    destruct (IH Hin Hf) as [e' ->]. simpl. eauto.
Qed.

(** A loop whose body never throws returns the pointwise results. *)
Lemma cmapM_map {A B : Type} (f : A -> completion B) (g : A -> B) l :
  (forall x, In x l -> f x = Normal (g x)) -> cmapM f l = Normal (map g l).
Proof.
  induction l as [|x l IH]; simpl; intros H; [reflexivity|].
  rewrite (H x (or_introl eq_refl)). simpl.
  rewrite IH by (intros; apply H; auto). reflexivity.
Qed.

(** A state-threading loop throws exactly when some element, reached
    with the state the elements before it left, throws. *)
Lemma cloop_Throw_iff {S A B : Type} (f : S -> A -> completion (B * S)) s l e :
  cloop f s l = Throw e <->
  exists l1 x l2 bs s', l = l1 ++ x :: l2 /\ cloop f s l1 = Normal (bs, s') /\ f s' x = Throw e.
Proof.
  revert s; induction l as [|y l IH]; intros s; simpl.
  - split; [discriminate|]. intros (l1 & x & l2 & _ & _ & Heq & _ & _).
    destruct l1; discriminate.
  - destruct (f s y) as [[b s1]|e'] eqn:Hf; simpl.
    + destruct (cloop f s1 l) as [[bs s2]|e''] eqn:Hl; simpl.
      * split; [discriminate|]. intros (l1 & x & l2 & bs' & s' & Heq & Hpre & Hx).
        destruct l1 as [|z l1]; simpl in Heq; injection Heq as -> Heq.
        -- simpl in Hpre. injection Hpre as <- <-. congruence.
        -- simpl in Hpre. rewrite Hf in Hpre. simpl in Hpre.
           destruct (cloop f s1 l1) as [[bs1 s3]|] eqn:Hl1; simpl in Hpre; [|discriminate].
           injection Hpre as _ <-. assert (Hc : cloop f s1 l = Throw e)
             by (apply IH; exists l1, x, l2, bs1, s3; auto).
           congruence.
      * split.
        -- intros H. injection H as <-.
           destruct (proj1 (IH s1) Hl) as (l1 & x & l2 & bs & s' & -> & Hpre & Hx).
           exists (y :: l1), x, l2, (b :: bs), s'. simpl. rewrite Hf. simpl. rewrite Hpre. auto.
        -- intros (l1 & x & l2 & bs & s' & Heq & Hpre & Hx).
           destruct l1 as [|z l1]; simpl in Heq; injection Heq as -> Heq.
           ++ simpl in Hpre. injection Hpre as <- <-. congruence.
           ++ simpl in Hpre. rewrite Hf in Hpre. simpl in Hpre.
              destruct (cloop f s1 l1) as [[bs1 s3]|] eqn:Hl1; simpl in Hpre; [|discriminate].
              injection Hpre as _ <-. assert (Hc : cloop f s1 l = Throw e)
                by (apply IH; exists l1, x, l2, bs1, s3; auto).
              congruence.
    + split.
      * intros H. injection H as <-. exists [], y, l, [], s. auto.
      * intros (l1 & x & l2 & bs & s' & Heq & Hpre & Hx).
        destruct l1 as [|z l1]; simpl in Heq; injection Heq as -> Heq.
        -- simpl in Hpre. injection Hpre as <- <-. congruence.
        -- simpl in Hpre. rewrite Hf in Hpre. discriminate.
Qed.

(** A state-threading loop returns one result per element. *)
Lemma cloop_length {S A B : Type} (f : S -> A -> completion (B * S)) s l r :
  cloop f s l = Normal r -> length (fst r) = length l.
Proof.
  revert s r; induction l as [|x l IH]; simpl; intros s r H.
  - now injection H as <-.
  - destruct (f s x) as [[b s1]|e]; simpl in H; [|discriminate].
    destruct (cloop f s1 l) as [[bs s2]|e] eqn:Hl; simpl in H; [|discriminate].
    injection H as <-. simpl. f_equal. exact (IH _ _ Hl).
Qed.

(** Every result of a state-threading loop satisfies what every step
    guarantees of its result. *)
Lemma cloop_Forall {S A B : Type} (f : S -> A -> completion (B * S)) (P : B -> Prop) s l r :
  (forall s x b s', f s x = Normal (b, s') -> P b) ->
  cloop f s l = Normal r -> Forall P (fst r).
Proof.
  intros Hf. revert s r; induction l as [|x l IH]; simpl; intros s r H.
  - injection H as <-. constructor.
  - destruct (f s x) as [[b s1]|e] eqn:E; simpl in H; [|discriminate].
    destruct (cloop f s1 l) as [[bs s2]|e] eqn:Hl; simpl in H; [|discriminate].
    injection H as <-. constructor; [exact (Hf _ _ _ _ E) | exact (IH _ _ Hl)].
Qed.

(** The loop over a prefix: the results of the first [k] elements are
    the first [k] results, and element [k] is run in the state they
    leave. *)
Lemma cloop_nth {S A B : Type} (f : S -> A -> completion (B * S)) s l r k x :
  cloop f s l = Normal r -> nth_error l k = Some x ->
  exists s' b s'', cloop f s (firstn k l) = Normal (firstn k (fst r), s') /\
                   f s' x = Normal (b, s'') /\ nth_error (fst r) k = Some b.
Proof.
  revert s r k; induction l as [|y l IH]; intros s r [|k] H Hk; simpl in Hk; try discriminate;
    simpl in H; destruct (f s y) as [[b0 s1]|e] eqn:Ef; simpl in H; try discriminate;
    destruct (cloop f s1 l) as [[bs s2]|e] eqn:Hl; simpl in H; try discriminate;
    injection H as <-.
  - injection Hk as ->. exists s, b0, s1. auto.
  - destruct (IH s1 (bs, s2) k Hl Hk) as (s' & b & s'' & Hpre & Hx & Hb).
    exists s', b, s''. simpl. rewrite Ef. simpl. rewrite Hpre. auto.
Qed.

(** ** Strings: generic lemmas

    The Standard Library's [String] has few lemmas about [append]; the
    ones the components share are here. *)

Lemma string_append_assoc (a b c : string) :
  (a ++ (b ++ c) = (a ++ b) ++ c)%string.
Proof. induction a as [|x a IH]; simpl; [reflexivity | now rewrite IH]. Qed.

Lemma string_append_nil_r (a : string) : (a ++ "" = a)%string.
Proof. induction a as [|x a IH]; simpl; [reflexivity | now rewrite IH]. Qed.

Lemma string_length_append (a b : string) :
  String.length (a ++ b) = String.length a + String.length b.
Proof. induction a as [|x a IH]; simpl; [reflexivity | now rewrite IH]. Qed.

#[export] Hint Rewrite string_append_nil_r string_length_append : scraper_rw.

(** [prefix p (p ++ t)] always holds. *)
Lemma prefix_append (p t : string) : String.prefix p (p ++ t) = true.
Proof.
  induction p as [|c p IH]; simpl; [destruct t; reflexivity|].
  destruct (ascii_dec c c) as [_|n]; [exact IH | contradiction].
Qed.

(** A string whose first character differs from the first character of
    [p] does not start with [p]. *)
Lemma prefix_head_neq (c d : ascii) (p t : string) :
  c <> d -> String.prefix (String c p) (String d t) = false.
Proof. intros H. simpl. destruct (ascii_dec c d); [contradiction | reflexivity]. Qed.

#[export] Hint Rewrite prefix_append : scraper_rw.

(** Tactic: split the [Normal]/[Throw] cases of a hypothesis built with
    [cbind], keeping the equations. *)
Ltac js_inv :=
  repeat match goal with
    | H : cbind ?c _ = Normal _ |- _ =>
        let E := fresh "E" in
        destruct c eqn:E; simpl in H; [|discriminate H]
    | H : Normal _ = Normal _ |- _ => injection H as H; subst
    | H : Throw _ = Normal _ |- _ => discriminate H
    end.
