(* ===== verification/JsString.v ===== *)
(** * String helpers of src/main.js

    [replaceAll] (main.js 190-192), [getHTML] (177-181), the
    [href.split('/')[4]] extraction used for MyAnimeList ids and years
    (lines 86 and 105), and [String.prototype.startsWith] as used for the
    theme type (line 141).  Strings are Stdlib [string]s (lists of 8-bit
    [ascii]); the characters the scraper inspects are all ASCII. *)

From Stdlib Require Import String Ascii List Arith Lia Bool.
From S2P Require Import Prelude.
Import ListNotations.
Local Open Scope string_scope.

(** The double quote character (code 34) and the one-character string
    holding it, the replacement string of main.js line 132, written by
    its code. *)
Definition dquote : ascii := "034"%char.
Definition quote_str : string := String dquote EmptyString.

(** [str.replace(new RegExp(find, 'g'), replace)].  The three patterns the
    program uses (["&quot;"], ["&lt;"], ["&gt;"]) contain no regular
    expression metacharacter and the replacements contain no [$], so the
    global regular-expression replace is the left-to-right, non-overlapping
    replacement of every literal occurrence of [find].  [skip] counts the
    characters of an occurrence already replaced; the recursion is
    structural on the string. *)
Fixpoint replace_from (find repl : string) (skip : nat) (s : string) : string :=
  match s with
  | EmptyString => EmptyString
  | String c s' =>
      match skip with
      | S k => replace_from find repl k s'
      | O =>
          if String.prefix find s
          then repl ++ replace_from find repl (String.length find - 1) s'
          else String c (replace_from find repl 0 s')
      end
  end.

Definition replaceAll (str find repl : string) : string :=
  replace_from find repl 0 str.

(** [getHTML]: un-escape the tags of the content HTML delivered in JSON. *)
Definition getHTML (str : string) : string :=
  let html := replaceAll str "&lt;" "<" in
  replaceAll html "&gt;" ">".

(** [find] occurs in [s] at some position. *)
Fixpoint occurs (find s : string) : bool :=
  String.prefix find s ||
  match s with
  | EmptyString => false
  | String _ s' => occurs find s'
  end.

(** ** The escaping that [getHTML] undoes

    The wiki API delivers [content_html] with [&], [<] and [>] escaped as
    entities.  [getHTML] turns [&lt;] and [&gt;] back into tags and leaves
    [&amp;] for the HTML parser. *)

Fixpoint api_escape (s : string) : string :=
  match s with
  | EmptyString => EmptyString
  | String c s' =>
      if ascii_dec c "&" then "&amp;" ++ api_escape s'
      else if ascii_dec c "<" then "&lt;" ++ api_escape s'
      else if ascii_dec c ">" then "&gt;" ++ api_escape s'
      else String c (api_escape s')
  end.

(** Only [&] escaped: what the HTML parser receives after [getHTML]. *)
Fixpoint amp_escape (s : string) : string :=
  match s with
  | EmptyString => EmptyString
  | String c s' =>
      if ascii_dec c "&" then "&amp;" ++ amp_escape s'
      else String c (amp_escape s')
  end.

(** The intermediate string, after the [&lt;] pass. *)
Fixpoint gt_escape (s : string) : string :=
  match s with
  | EmptyString => EmptyString
  | String c s' =>
      if ascii_dec c "&" then "&amp;" ++ gt_escape s'
      else if ascii_dec c ">" then "&gt;" ++ gt_escape s'
      else String c (gt_escape s')
  end.

(** [quot_escape]: the [&quot;] entity for double quotes, which the row
    parser decodes in theme names. *)
Fixpoint quot_escape (s : string) : string :=
  match s with
  | EmptyString => EmptyString
  | String c s' =>
      if ascii_dec c dquote then "&quot;" ++ quot_escape s'
      else String c (quot_escape s')
  end.

(** [c] is not the character ["&"]. *)
Fixpoint no_amp (s : string) : bool :=
  match s with
  | EmptyString => true
  | String c s' => if ascii_dec c "&" then false else no_amp s'
  end.

(** ** Splitting on a separator: [str.split('/')]

    JavaScript's [split] with a one-character separator: the pieces between
    separators, empty pieces included, and at least one piece ([""] gives
    [[""]]). *)
Fixpoint split (sep : ascii) (s : string) : list string :=
  match s with
  | EmptyString => [EmptyString]
  | String c s' =>
      let parts := split sep s' in
      if ascii_dec c sep then EmptyString :: parts
      else match parts with
           | [] => [String c EmptyString]
           | p :: ps => String c p :: ps
           end
  end.

(** [href.split('/')[4]]: [None] is JavaScript's [undefined]. *)
Definition segment4 (href : string) : option string :=
  nth_error (split "/" href) 4.

(** [Array.prototype.join] with a one-character separator, the inverse of
    [split]. *)
Fixpoint join (sep : ascii) (l : list string) : string :=
  match l with
  | [] => EmptyString
  | [p] => p
  | p :: ps => p ++ String sep (join sep ps)
  end.

(** [s] does not contain the character [c]. *)
Fixpoint no_char (c : ascii) (s : string) : bool :=
  match s with
  | EmptyString => true
  | String d s' => if ascii_dec d c then false else no_char c s'
  end.

(** ** The reference: [str.split(sep).join(repl)]

    [String.prototype.split] with a non-empty string separator cuts at the
    occurrences found from left to right without overlap; [join] puts the
    replacement between the pieces.  This idiom is the usual definition of
    replacing every occurrence, and [replaceAll] is proved equal to it. *)

Definition cons_head (c : ascii) (ps : list string) : list string :=
  match ps with
  | [] => [String c EmptyString]
  | p :: ps' => String c p :: ps'
  end.

Fixpoint split_from (sep : string) (skip : nat) (s : string) : list string :=
  match s with
  | EmptyString => [EmptyString]
  | String c s' =>
      match skip with
      | S k => split_from sep k s'
      | O =>
          if String.prefix sep s
          then EmptyString :: split_from sep (String.length sep - 1) s'
          else cons_head c (split_from sep 0 s')
      end
  end.

Definition split_str (s sep : string) : list string := split_from sep 0 s.

Fixpoint join_str (sep : string) (l : list string) : string :=
  match l with
  | [] => EmptyString
  | [p] => p
  | p :: ps => p ++ sep ++ join_str sep ps
  end.

(** No character of [r] occurs in [p]. *)
Fixpoint foreign (r p : string) : bool :=
  match r with
  | EmptyString => true
  | String c r' => no_char c p && foreign r' p
  end.

(** [String.prototype.startsWith]. *)
Definition startsWith (s p : string) : bool := String.prefix p s.

(** ** Lemmas on [replaceAll] *)

Section ReplaceAll.

Variables find repl : string.

Lemma replace_from_skip (u t : string) :
replace_from find repl (String.length u) (u ++ t) = replace_from find repl 0 t.
Proof. induction u as [|c u IH]; [reflexivity | exact IH]. Qed.

(** An occurrence at the front is replaced, and the scan resumes after it. *)
Lemma replaceAll_match (t : string) :
find <> "" -> replaceAll (find ++ t) find repl = repl ++ replaceAll t find repl.
Proof.
intros Hne. unfold replaceAll.
pose proof (prefix_append find t) as Hp.
destruct find as [|c f] eqn:Ef; [congruence|].
cbn [String.append] in *. cbn [replace_from]. rewrite Hp.
cbn [String.length]. rewrite Nat.sub_succ, Nat.sub_0_r, <- Ef.
f_equal. exact (replace_from_skip f t).
Qed.

(** A character that does not start an occurrence is copied. *)
Lemma replaceAll_nomatch (c : ascii) (t : string) :
String.prefix find (String c t) = false ->
replaceAll (String c t) find repl = String c (replaceAll t find repl).
Proof. intros H. unfold replaceAll. cbn [replace_from]. now rewrite H. Qed.

(** A string in which [find] does not occur is left unchanged. *)
Lemma replaceAll_absent (s : string) :
occurs find s = false -> replaceAll s find repl = s.
Proof.
induction s as [|c s IH]; [reflexivity|].
cbn [occurs]. intros H. apply orb_false_iff in H as [Hp Ho].
rewrite replaceAll_nomatch by exact Hp. now rewrite IH.
Qed.

(** A prefix [u] none of whose suffixes (followed by anything) starts an
  occurrence is copied unchanged. *)
Lemma replaceAll_copy (u t : string) :
(forall v w, u = v ++ w -> w <> "" -> String.prefix find (w ++ t) = false) ->
replaceAll (u ++ t) find repl = u ++ replaceAll t find repl.
Proof.
induction u as [|c u IH]; intros H; [reflexivity|].
cbn [String.append]. rewrite replaceAll_nomatch.
- f_equal. apply IH. intros v w -> Hw. apply (H (String c v) w); auto.
- apply (H "" (String c u)); [reflexivity | discriminate].
Qed.

End ReplaceAll.

#[export] Hint Rewrite replaceAll_match using discriminate : scraper_rw.

(** ** [replaceAll] and the split/join idiom *)

Lemma split_from_not_nil (sep : string) (k : nat) (s : string) : split_from sep k s <> [].
Proof.
  revert k; induction s as [|c s IH]; intros [|k]; cbn [split_from]; try discriminate;
    [|apply IH].
  destruct (String.prefix sep (String c s)); [discriminate|].
  destruct (split_from sep 0 s); discriminate.
Qed.

Lemma length_app_gt (t u : string) :
  t <> "" -> String.length (t ++ u) > String.length u.
Proof. intros Ht. rewrite string_length_append. destruct t; [congruence|]. cbn. lia. Qed.

Lemma split_from_skip (sep u t : string) :
  split_from sep (String.length u) (u ++ t) = split_from sep 0 t.
Proof. induction u as [|c u IH]; [reflexivity | exact IH]. Qed.

Lemma join_cons_head (r : string) (c : ascii) (ps : list string) :
  ps <> [] -> join_str r (cons_head c ps) = String c (join_str r ps).
Proof. destruct ps as [|p [|q ps]]; [congruence | reflexivity | reflexivity]. Qed.

(** An occurrence at the front ends an empty first piece. *)
Lemma split_str_match (sep t : string) :
  sep <> "" -> split_str (sep ++ t) sep = EmptyString :: split_str t sep.
Proof.
  intros Hne. unfold split_str. pose proof (prefix_append sep t) as Hp.
  destruct sep as [|c f] eqn:Ef; [congruence|]. cbn [String.append] in *. cbn [split_from].
  rewrite Hp. cbn [String.length]. rewrite Nat.sub_succ, Nat.sub_0_r, <- Ef.
  f_equal. exact (split_from_skip sep f t).
Qed.

(** ** What [replaceAll] leaves behind *)

Lemma prefix_inv (p s : string) : String.prefix p s = true -> exists t, s = p ++ t.
Proof.
  revert s; induction p as [|c p IH]; intros s H; [now exists s|].
  destruct s as [|d s]; [discriminate|]. cbn in H.
  destruct (ascii_dec c d) as [<-|]; [|discriminate].
  destruct (IH s H) as [t ->]. now exists t.
Qed.

Lemma occurs_app_r (p u t : string) : occurs p t = true -> occurs p (u ++ t) = true.
Proof. induction u as [|c u IH]; intros H; [exact H|]. cbn. now rewrite IH, orb_true_r. Qed.

Lemma no_char_head (c a : ascii) (p : string) : no_char c (String a p) = true -> a <> c.
Proof. cbn. destruct (ascii_dec a c); [discriminate | auto]. Qed.

(** A text made of characters foreign to [p] hides no occurrence of [p]. *)
Lemma occurs_foreign_app (p r x : string) :
  p <> "" -> foreign r p = true -> occurs p (r ++ x) = occurs p x.
Proof.
  intros Hp. induction r as [|c r IH]; intros Hr; [reflexivity|].
  cbn [foreign] in Hr. apply andb_true_iff in Hr as [Hc Hr].
  destruct p as [|a p]; [congruence|]. cbn [String.append occurs].
  rewrite prefix_head_neq by exact (no_char_head _ _ _ Hc). exact (IH Hr).
Qed.

Section ReplaceFree.
Variable find : string.
Variables (rc : ascii) (rr : string).
Hypothesis find_ne : find <> "".

(** A prefix without the first character of the replacement, seen after
    replacing, was already there. *)
Lemma prefix_replaceAll (p t : string) :
  no_char rc p = true ->
  String.prefix p (replaceAll t find (String rc rr)) = true -> String.prefix p t = true.
Proof.
  revert t; induction p as [|a p IH]; intros t Hp H; [destruct t; reflexivity|].
  destruct t as [|d t]; [discriminate|].
  destruct (String.prefix find (String d t)) eqn:Ef.
  - apply prefix_inv in Ef as [u Eu]. rewrite Eu, replaceAll_match in H by exact find_ne.
    cbn [String.append] in H. rewrite prefix_head_neq in H by exact (no_char_head _ _ _ Hp).
    discriminate.
  - rewrite replaceAll_nomatch in H by exact Ef. cbn in H |- *.
    destruct (ascii_dec a d) as [<-|]; [|discriminate].
    apply IH; [cbn in Hp; destruct (ascii_dec a rc); [discriminate | exact Hp] | exact H].
Qed.

Lemma prefix_replaceAll_cons (p t : string) (d : ascii) :
  no_char rc p = true ->
  String.prefix p (String d (replaceAll t find (String rc rr))) = true ->
  String.prefix p (String d t) = true.
Proof.
  destruct p as [|a p]; [reflexivity|]. intros Hp H. cbn in H |- *.
  destruct (ascii_dec a d); [|discriminate]. apply (prefix_replaceAll p t); [|exact H].
  cbn in Hp. destruct (ascii_dec a rc); [discriminate | exact Hp].
Qed.

(** Replacing by a text foreign to [p] creates no occurrence of [p]. *)
Lemma occurs_replaceAll_inv (p s : string) :
  p <> "" -> foreign (String rc rr) p = true ->
  occurs p (replaceAll s find (String rc rr)) = true -> occurs p s = true.
Proof.
  intros Hp Hr. remember (String.length s) as n eqn:En. revert s En.
  induction n as [n IH] using lt_wf_ind. intros s -> H.
  assert (Hrc : no_char rc p = true) by (cbn in Hr; now apply andb_true_iff in Hr as [? _]).
  destruct s as [|d t]; [exact H|].
  destruct (String.prefix find (String d t)) eqn:Ef.
  - apply prefix_inv in Ef as [u Eu]. rewrite Eu in H |- *.
    rewrite replaceAll_match, occurs_foreign_app in H by assumption.
    apply occurs_app_r. apply (IH (String.length u)); [|reflexivity|exact H].
    rewrite Eu. apply (length_app_gt find u find_ne).
  - rewrite replaceAll_nomatch in H by exact Ef. cbn [occurs] in H |- *.
    apply orb_true_iff in H as [H|H].
    + now rewrite (prefix_replaceAll_cons p t d Hrc H).
    + rewrite (IH (String.length t)); [apply orb_true_r | cbn; lia | reflexivity | exact H].
Qed.

(** Replacing every [find] by a text foreign to it leaves no [find]. *)
Lemma occurs_replaceAll_find (s : string) :
  foreign (String rc rr) find = true -> occurs find (replaceAll s find (String rc rr)) = false.
Proof.
  intros Hr. remember (String.length s) as n eqn:En. revert s En.
  induction n as [n IH] using lt_wf_ind. intros s ->.
  assert (Hrc : no_char rc find = true) by (cbn in Hr; now apply andb_true_iff in Hr as [? _]).
  destruct s as [|d t]; [destruct find; [congruence | reflexivity]|].
  destruct (String.prefix find (String d t)) eqn:Ef.
  - apply prefix_inv in Ef as [u Eu]. rewrite Eu, replaceAll_match, occurs_foreign_app
      by assumption.
    apply (IH (String.length u)); [|reflexivity]. rewrite Eu.
    apply (length_app_gt find u find_ne).
  - rewrite replaceAll_nomatch by exact Ef. cbn [occurs].
    rewrite (IH (String.length t)) by (cbn; lia || reflexivity). rewrite orb_false_r.
    destruct (String.prefix find (String d (replaceAll t find (String rc rr)))) eqn:E;
      [|reflexivity].
    now rewrite (prefix_replaceAll_cons find t d Hrc E) in Ef.
Qed.
End ReplaceFree.

(** ** Lengths *)

Lemma string_length_pos (s : string) : s <> "" -> 0 < String.length s.
Proof. destruct s; [congruence | cbn; lia]. Qed.

Lemma prefix_length (p s : string) :
  String.prefix p s = true -> String.length p <= String.length s.
Proof.
  intros Hp. apply prefix_inv in Hp as [t ->]. rewrite string_length_append. lia.
Qed.

Section ReplaceLength.
Variables find repl : string.
Hypothesis find_ne : find <> "".
Hypothesis repl_le : String.length repl <= String.length find.

(** Replacing by a string no longer than the pattern never lengthens the
    text: the skipped characters of an occurrence are dropped, the
    others copied. *)
Lemma replace_from_length (k : nat) (s : string) :
  String.length (replace_from find repl k s) <= String.length s - k.
Proof.
  pose proof (string_length_pos _ find_ne) as Hf.
  revert k; induction s as [|c s IH]; intros [|k]; cbn [replace_from String.length]; try lia.
  - destruct (String.prefix find (String c s)) eqn:Hp.
    + pose proof (prefix_length _ _ Hp) as Hl. cbn [String.length] in Hl.
      rewrite string_length_append. specialize (IH (String.length find - 1)). lia.
    + cbn [String.length]. specialize (IH 0). lia.
  - specialize (IH k). lia.
Qed.

(** With a strictly shorter replacement, a text holding an occurrence
    gets strictly shorter. *)
Lemma replace_from_length_lt (s : string) :
  String.length repl < String.length find -> occurs find s = true ->
  String.length (replace_from find repl 0 s) < String.length s.
Proof.
  pose proof (string_length_pos _ find_ne) as Hf.
  induction s as [|c s IH]; intros Hlt Ho.
  - cbn [occurs] in Ho. rewrite orb_false_r in Ho.
    pose proof (prefix_length _ _ Ho). cbn [String.length] in *. lia.
  - cbn [replace_from String.length]. cbn [occurs] in Ho.
    destruct (String.prefix find (String c s)) eqn:Hp.
    + pose proof (prefix_length _ _ Hp) as Hl. cbn [String.length] in Hl.
      rewrite string_length_append.
      pose proof (replace_from_length (String.length find - 1) s). lia.
    + cbn [orb] in Ho. cbn [String.length]. specialize (IH Hlt Ho). lia.
Qed.
End ReplaceLength.

(** Copying an escape sequence that is not the pattern: the shared step of
    the round-trip proofs.  Each suffix of the literal is tried against the
    pattern by computation. *)
Ltac copy_literal :=
  rewrite replaceAll_copy;
  [ f_equal
  | let v := fresh "v" in let w := fresh "w" in let E := fresh "E" in
    let Hw := fresh "Hw" in
    intros v w E Hw;
    repeat (destruct v as [|? v]; cbn [String.append] in E;
            [subst w; first [reflexivity | congruence] | injection E as <- E]);
    destruct v; cbn [String.append] in E; [subst w; congruence | discriminate E] ].

(** A character other than [&] never starts an entity. *)
Lemma prefix_entity_other (c : ascii) (p t : string) :
  c <> "&"%char -> String.prefix (String "&" p) (String c t) = false.
Proof. intros H. apply prefix_head_neq. congruence. Qed.

Lemma replaceAll_lt_api_escape (s : string) :
  replaceAll (api_escape s) "&lt;" "<" = gt_escape s.
Proof.
  induction s as [|c s IH]; [reflexivity|]. cbn [api_escape gt_escape].
  destruct (ascii_dec c "&") as [->|Ha]; [copy_literal; exact IH|].
  destruct (ascii_dec c "<") as [->|Hl].
  - rewrite replaceAll_match by discriminate. cbn. f_equal. exact IH.
  - destruct (ascii_dec c ">") as [->|Hg]; [copy_literal; exact IH|].
    rewrite replaceAll_nomatch by now apply prefix_entity_other. f_equal. exact IH.
Qed.

Lemma replaceAll_gt_gt_escape (s : string) :
  replaceAll (gt_escape s) "&gt;" ">" = amp_escape s.
Proof.
  induction s as [|c s IH]; [reflexivity|]. cbn [gt_escape amp_escape].
  destruct (ascii_dec c "&") as [->|Ha]; [copy_literal; exact IH|].
  destruct (ascii_dec c ">") as [->|Hg].
  - rewrite replaceAll_match by discriminate. cbn. f_equal. exact IH.
  - rewrite replaceAll_nomatch by now apply prefix_entity_other. f_equal. exact IH.
Qed.

Lemma split_not_nil (sep : ascii) (s : string) : split sep s <> [].
Proof.
  induction s as [|c s IH]; simpl; [discriminate|].
  destruct (ascii_dec c sep); [discriminate|].
  destruct (split sep s); discriminate.
Qed.

(** Splitting a string with a separator in it splits both sides. *)
Lemma split_app_sep (sep : ascii) (a b : string) :
  split sep (a ++ String sep b) = (split sep a ++ split sep b)%list.
Proof.
  induction a as [|c a IH]; simpl.
  - destruct (ascii_dec sep sep); [reflexivity | contradiction].
  - rewrite IH. destruct (ascii_dec c sep); [reflexivity|].
    destruct (split sep a) eqn:E; [now apply split_not_nil in E | reflexivity].
Qed.

(** A string without the separator is one piece. *)
Lemma split_no_char (sep : ascii) (a : string) :
  no_char sep a = true -> split sep a = [a].
Proof.
  induction a as [|c a IH]; simpl; [reflexivity|].
  destruct (ascii_dec c sep); [discriminate|]. intros H. now rewrite IH.
Qed.

#[export] Hint Rewrite split_app_sep : scraper_rw.

Lemma join_cons_char (sep c : ascii) (p : string) (ps : list string) :
  join sep (String c p :: ps) = String c (join sep (p :: ps)).
Proof. destruct ps; reflexivity. Qed.

(** ** Properties of the string helpers *)

(** C13: [getHTML] undoes the wiki API's escaping of markup: for every
    string [s], normalising the API's escaped form of [s] gives [s] with
    only its [&] characters escaped, i.e. every tag of [s] is restored and
    the [&amp;] entities are left to the HTML parser. *)
Theorem getHTML_api_escape (s : string) :
  getHTML (api_escape s) = amp_escape s.
Proof.
  unfold getHTML. now rewrite replaceAll_lt_api_escape, replaceAll_gt_gt_escape.
Qed.

(** C22: [getHTML] leaves no [&lt;] and no [&gt;] in its result, whatever
    the input (replacing creates no new entity), so normalising twice is
    normalising once. *)
Theorem getHTML_idempotent (s : string) :
  occurs "&lt;" (getHTML s) = false /\ occurs "&gt;" (getHTML s) = false /\
  getHTML (getHTML s) = getHTML s.
Proof.
  unfold getHTML.
  assert (HA : occurs "&lt;" (replaceAll s "&lt;" "<") = false)
    by (apply occurs_replaceAll_find; [discriminate | reflexivity]).
  assert (HBg : occurs "&gt;" (replaceAll (replaceAll s "&lt;" "<") "&gt;" ">") = false)
    by (apply occurs_replaceAll_find; [discriminate | reflexivity]).
  assert (HBl : occurs "&lt;" (replaceAll (replaceAll s "&lt;" "<") "&gt;" ">") = false).
  { destruct (occurs "&lt;" (replaceAll (replaceAll s "&lt;" "<") "&gt;" ">")) eqn:E;
      [|reflexivity].
    apply occurs_replaceAll_inv in E; [congruence | discriminate | discriminate | reflexivity]. }
  split; [exact HBl|]. split; [exact HBg|].
  now rewrite (replaceAll_absent _ _ _ HBl), (replaceAll_absent _ _ _ HBg).
Qed.

(** C33: [getHTML] never lengthens the content it normalises, and a
    content holding an [&lt;] or an [&gt;] entity gets strictly shorter
    (each entity of four characters becomes one). *)
Theorem getHTML_length (s : string) :
  String.length (getHTML s) <= String.length s /\
  (occurs "&lt;" s = true \/ occurs "&gt;" s = true ->
   String.length (getHTML s) < String.length s).
Proof.
  unfold getHTML, replaceAll.
  assert (Hne1 : "&lt;" <> "") by discriminate. assert (Hne2 : "&gt;" <> "") by discriminate.
  assert (H1 : forall t, String.length (replace_from "&lt;" "<" 0 t) <= String.length t)
    by (intros t; pose proof (replace_from_length "&lt;" "<" Hne1 ltac:(cbn; lia) 0 t); lia).
  assert (H2 : forall t, String.length (replace_from "&gt;" ">" 0 t) <= String.length t)
    by (intros t; pose proof (replace_from_length "&gt;" ">" Hne2 ltac:(cbn; lia) 0 t); lia).
  split; [specialize (H1 s); specialize (H2 (replace_from "&lt;" "<" 0 s)); lia|].
  intros [Hl|Hg].
  - pose proof (replace_from_length_lt "&lt;" "<" Hne1 ltac:(cbn; lia) s ltac:(cbn; lia) Hl).
    specialize (H2 (replace_from "&lt;" "<" 0 s)). lia.
  - destruct (occurs "&lt;" s) eqn:Hl.
    + pose proof (replace_from_length_lt "&lt;" "<" Hne1 ltac:(cbn; lia) s ltac:(cbn; lia) Hl).
      specialize (H2 (replace_from "&lt;" "<" 0 s)). lia.
    + pose proof (replaceAll_absent "&lt;" "<" s Hl) as Ha. unfold replaceAll in Ha. rewrite Ha.
      exact (replace_from_length_lt "&gt;" ">" Hne2 ltac:(cbn; lia) s ltac:(cbn; lia) Hg).
Qed.

Lemma getHTML_length_witness :
  (occurs "&lt;" "&lt;b&gt;x" = true \/ occurs "&gt;" "&lt;b&gt;x" = true) /\
  String.length (getHTML "&lt;b&gt;x") < String.length "&lt;b&gt;x".
Proof.
  assert (H : occurs "&lt;" "&lt;b&gt;x" = true \/ occurs "&gt;" "&lt;b&gt;x" = true)
    by (left; reflexivity).
  split; [exact H | exact (proj2 (getHTML_length "&lt;b&gt;x") H)].
Defined.

(** C26: [replaceAll] (main.js 190-192), the global regular-expression
    replace of a pattern without metacharacters, is the split/join idiom:
    for every non-empty [find], replacing every occurrence in [s] gives
    [s.split(find).join(repl)]. *)
Theorem replaceAll_split_join (s find repl : string) :
  find <> "" -> replaceAll s find repl = join_str repl (split_str s find).
Proof.
  intros Hne. remember (String.length s) as n eqn:En. revert s En.
  induction n as [n IH] using lt_wf_ind. intros s ->.
  destruct s as [|c t]; [reflexivity|].
  destruct (String.prefix find (String c t)) eqn:Ef.
  - apply prefix_inv in Ef as [u Eu]. rewrite Eu, replaceAll_match, split_str_match by exact Hne.
    rewrite (IH (String.length u)); [|rewrite Eu; apply (length_app_gt find u Hne)|reflexivity].
    destruct (split_str u find) as [|p ps] eqn:Es;
      [exfalso; exact (split_from_not_nil _ _ _ Es)|reflexivity].
  - rewrite replaceAll_nomatch by exact Ef. unfold split_str. cbn [split_from]. rewrite Ef.
    rewrite join_cons_head by apply split_from_not_nil.
    f_equal. apply (IH (String.length t)); [cbn; lia | reflexivity].
Qed.

Lemma replaceAll_split_join_witness :
  "&quot;" <> "" /\
  replaceAll ("OP1 &quot;x&quot;") "&quot;" quote_str =
    join_str quote_str (split_str ("OP1 &quot;x&quot;") "&quot;").
Proof. split; [discriminate | apply replaceAll_split_join; discriminate]. Defined.

(** C14: decoding [&quot;] in a theme name inverts the escaping of double
    quotes, for every name without an [&]. *)
Theorem quot_decode_roundtrip (s : string) :
  no_amp s = true -> replaceAll (quot_escape s) "&quot;" quote_str = s.
Proof.
  induction s as [|c s IH]; [reflexivity|]. cbn [quot_escape no_amp].
  destruct (ascii_dec c dquote) as [->|Hq].
  - simpl no_amp. intros H. rewrite replaceAll_match by discriminate.
    cbn. f_equal. exact (IH H).
  - destruct (ascii_dec c "&") as [->|Ha]; [discriminate|]. intros H.
    rewrite replaceAll_nomatch by now apply prefix_entity_other.
    f_equal. exact (IH H).
Qed.

Lemma quot_decode_roundtrip_witness :
  no_amp ("OP1 " ++ quote_str ++ "sister's noise" ++ quote_str) = true /\
  replaceAll (quot_escape ("OP1 " ++ quote_str ++ "sister's noise" ++ quote_str)) "&quot;" quote_str =
    ("OP1 " ++ quote_str ++ "sister's noise" ++ quote_str).
Proof. split; [reflexivity | apply quot_decode_roundtrip; reflexivity]. Defined.

(** [split] after [join], on pieces without the separator. *)
Lemma split_join_pieces (sep : ascii) (ps : list string) :
  ps <> [] -> Forall (fun p => no_char sep p = true) ps ->
  split sep (join sep ps) = ps.
Proof.
  induction ps as [|p ps IH]; intros Hne Hall; [congruence|].
  inversion Hall as [|? ? Hp Hps]; subst.
  destruct ps as [|q qs]; [now apply split_no_char|].
  change (join sep (p :: q :: qs)) with (p ++ String sep (join sep (q :: qs)))%string.
  rewrite split_app_sep, split_no_char by exact Hp.
  now rewrite IH by (discriminate || exact Hps).
Qed.

(** C15: the year extracted from a wiki link (main.js 86) is the last path
    segment of a relative link [/r/AnimeThemes/wiki/<year>], and the id
    extracted from a MyAnimeList link (main.js 105) is the segment after
    [/anime/] of [https://myanimelist.net/anime/<id>/<rest>]. *)
Theorem segment4_links (y id rest : string) :
  no_char "/" y = true -> no_char "/" id = true ->
  segment4 ("/r/AnimeThemes/wiki/" ++ y) = Some y /\
  segment4 ("https://myanimelist.net/anime/" ++ id ++ "/" ++ rest) = Some id.
Proof.
  intros Hy Hid. unfold segment4. split.
  - change ("/r/AnimeThemes/wiki/" ++ y)%string
      with (join "/" [""; "r"; "AnimeThemes"; "wiki"; y]).
    rewrite split_join_pieces; [reflexivity | discriminate | repeat constructor; exact Hy].
  - change ("https://myanimelist.net/anime/" ++ id ++ "/" ++ rest)%string with
      ("https:" ++ String "/" ("" ++ String "/" ("myanimelist.net" ++ String "/"
        ("anime" ++ String "/" (id ++ String "/" rest)))))%string.
    rewrite !split_app_sep, (split_no_char "/" id Hid). reflexivity.
Qed.

Lemma segment4_links_witness :
  no_char "/" "2019" = true /\ no_char "/" "12345" = true /\
  segment4 ("/r/AnimeThemes/wiki/" ++ "2019") = Some "2019" /\
  segment4 ("https://myanimelist.net/anime/" ++ "12345" ++ "/" ++ "Title") = Some "12345".
Proof.
  split; [reflexivity|]. split; [reflexivity|].
  apply segment4_links; reflexivity.
Defined.

(** An absolute wiki link puts the subreddit name, not the year, at index 4. *)
Example segment4_absolute_link :
  segment4 "https://www.reddit.com/r/AnimeThemes/wiki/2019" = Some "AnimeThemes".
Proof. reflexivity. Qed.
