(* ===== verification/Json.v ===== *)
(** * [JSON.stringify] on the values the program serialises (main.js 156)

    The output writer calls [JSON.stringify(a)] on the array of anime.  The
    values reaching it are arrays, plain objects and strings (every field of
    [Anime] and [Theme] is a string, an array or [undefined]), so the JSON
    values here are those three shapes.  [stringify] follows the ECMAScript
    algorithm: [SerializeJSONArray] joins the elements with [","] inside
    brackets, [SerializeJSONObject] writes [key:value] pairs in property
    order inside braces, and [QuoteJSONString] escapes quote, backslash and
    the control characters.  The omission of [undefined] properties is done
    by the caller's conversion ([Output.obj]).

    [parse_value] is a strict reader of exactly this grammar (no
    whitespace), written as a fuelled recursive descent with a structural
    string lexer; the round trip [parse_json_stringify] shows that [stringify]
    loses nothing. *)

From Stdlib Require Import String Ascii List Arith Lia Bool.
From S2P Require Import Prelude JsString.
Import ListNotations.
Local Open Scope string_scope.

#[warnings="-register-all"]
Inductive json : Type :=
| JStr (s : string)
| JArr (l : list json)
| JObj (kvs : list (string * json)).

(** ** Printing *)

Definition bslash : ascii := "092"%char.

(** A lowercase hexadecimal digit, as [UnicodeEscape] writes it. *)
Definition hex_digit (n : nat) : ascii :=
  if Nat.ltb n 10 then ascii_of_nat (48 + n) else ascii_of_nat (87 + n).

(** One code unit of [QuoteJSONString]: the short escapes of its table,
    [\u00XX] for the other control characters, the character itself
    otherwise. *)
Definition escape_char (c : ascii) : string :=
  match nat_of_ascii c with
  | 8 => String bslash "b"
  | 9 => String bslash "t"
  | 10 => String bslash "n"
  | 12 => String bslash "f"
  | 13 => String bslash "r"
  | 34 => String bslash quote_str
  | 92 => String bslash (String bslash EmptyString)
  | n =>
      if Nat.ltb n 32
      then String bslash (String "u" (String "0" (String "0"
             (String (hex_digit (n / 16)) (String (hex_digit (n mod 16)) EmptyString)))))
      else String c EmptyString
  end.

Fixpoint quote_body (s : string) : string :=
  match s with
  | EmptyString => EmptyString
  | String c s' => escape_char c ++ quote_body s'
  end.

(** [QuoteJSONString] *)
Definition quote (s : string) : string := String dquote (quote_body s ++ quote_str).

(** [JSON.stringify] with no indentation. *)
Fixpoint stringify (v : json) : string :=
  match v with
  | JStr s => quote s
  | JArr [] => "[]"
  | JArr (x :: l) =>
      "[" ++ stringify x ++
      (fix elems (l : list json) : string :=
         match l with
         | [] => "]"
         | y :: l' => "," ++ stringify y ++ elems l'
         end) l
  | JObj [] => "{}"
  | JObj ((k, x) :: l) =>
      "{" ++ quote k ++ ":" ++ stringify x ++
      (fix members (l : list (string * json)) : string :=
         match l with
         | [] => "}"
         | (k', y) :: l' => "," ++ quote k' ++ ":" ++ stringify y ++ members l'
         end) l
  end.

Definition stringify_elems (l : list json) : string :=
  (fix elems (l : list json) : string :=
     match l with
     | [] => "]"
     | y :: l' => "," ++ stringify y ++ elems l'
     end) l.

Definition stringify_members (l : list (string * json)) : string :=
  (fix members (l : list (string * json)) : string :=
     match l with
     | [] => "}"
     | (k', y) :: l' => "," ++ quote k' ++ ":" ++ stringify y ++ members l'
     end) l.

(** ** Reading back *)

(** The lexer of a string literal: a state machine over the characters
    after the opening quote. *)
Inductive lexst : Type :=
| LNormal
| LEscape
| LHex (k acc : nat).

Definition hex_val (c : ascii) : option nat :=
  let n := nat_of_ascii c in
  if Nat.leb 48 n && Nat.leb n 57 then Some (n - 48)
  else if Nat.leb 97 n && Nat.leb n 102 then Some (n - 87)
  else None.

Definition lex_cons (c : ascii) (r : option (string * string)) : option (string * string) :=
  option_map (fun p => (String c (fst p), snd p)) r.

Fixpoint lex_str (st : lexst) (s : string) : option (string * string) :=
  match s with
  | EmptyString => None
  | String c s' =>
      match st with
      | LNormal =>
          if ascii_dec c dquote then Some (EmptyString, s')
          else if ascii_dec c bslash then lex_str LEscape s'
          else if Nat.ltb (nat_of_ascii c) 32 then None
          else lex_cons c (lex_str LNormal s')
      | LEscape =>
          match nat_of_ascii c with
          | 98 => lex_cons (ascii_of_nat 8) (lex_str LNormal s')
          | 116 => lex_cons (ascii_of_nat 9) (lex_str LNormal s')
          | 110 => lex_cons (ascii_of_nat 10) (lex_str LNormal s')
          | 102 => lex_cons (ascii_of_nat 12) (lex_str LNormal s')
          | 114 => lex_cons (ascii_of_nat 13) (lex_str LNormal s')
          | 34 => lex_cons dquote (lex_str LNormal s')
          | 92 => lex_cons bslash (lex_str LNormal s')
          | 47 => lex_cons "/"%char (lex_str LNormal s')
          | 117 => lex_str (LHex 4 0) s'
          | _ => None
          end
      | LHex O _ => None
      | LHex (S k) acc =>
          match hex_val c with
          | None => None
          | Some d =>
              let acc' := acc * 16 + d in
              match k with
              | O => if Nat.ltb acc' 256 then lex_cons (ascii_of_nat acc') (lex_str LNormal s') else None
              | _ => lex_str (LHex k acc') s'
              end
          end
      end
  end.

Definition is_char (c : ascii) (n : nat) : bool := Nat.eqb (nat_of_ascii c) n.

Fixpoint parse_value (fuel : nat) (s : string) {struct fuel} : option (json * string) :=
  match fuel with
  | O => None
  | S f =>
      match s with
      | EmptyString => None
      | String c s' =>
          if is_char c 34 then option_map (fun p => (JStr (fst p), snd p)) (lex_str LNormal s')
          else if is_char c 91 then
            match s' with
            | String d r => if is_char d 93 then Some (JArr [], r)
                            else option_map (fun p => (JArr (fst p), snd p)) (parse_elems f s')
            | EmptyString => None
            end
          else if is_char c 123 then
            match s' with
            | String d r => if is_char d 125 then Some (JObj [], r)
                            else option_map (fun p => (JObj (fst p), snd p)) (parse_members f s')
            | EmptyString => None
            end
          else None
      end
  end
with parse_elems (fuel : nat) (s : string) {struct fuel} : option (list json * string) :=
  match fuel with
  | O => None
  | S f =>
      match parse_value f s with
      | Some (v, String c r) =>
          if is_char c 44 then option_map (fun p => (v :: fst p, snd p)) (parse_elems f r)
          else if is_char c 93 then Some ([v], r)
          else None
      | _ => None
      end
  end
with parse_members (fuel : nat) (s : string) {struct fuel}
  : option (list (string * json) * string) :=
  match fuel with
  | O => None
  | S f =>
      match s with
      | String q s1 =>
          if is_char q 34 then
            match lex_str LNormal s1 with
            | Some (k, String colon s2) =>
                if is_char colon 58 then
                  match parse_value f s2 with
                  | Some (v, String c r) =>
                      if is_char c 44
                      then option_map (fun p => ((k, v) :: fst p, snd p)) (parse_members f r)
                      else if is_char c 125 then Some ([(k, v)], r)
                      else None
                  | _ => None
                  end
                else None
            | _ => None
            end
          else None
      | EmptyString => None
      end
  end.

(** The reader of a whole text: one value and nothing after it. *)
Definition parse_json (s : string) : option json :=
  match parse_value (String.length s) s with
  | Some (v, EmptyString) => Some v
  | _ => None
  end.

(** The fuel a value needs: one call per node and per list cell. *)
Fixpoint jsize (v : json) : nat :=
  match v with
  | JStr _ => 1
  | JArr l => S (list_sum (map (fun x => S (jsize x)) l))
  | JObj kvs => S (list_sum (map (fun '(_, x) => S (jsize x)) kvs))
  end.

(** Reading the printed [v] back, with anything after it, gives [v] and
    what follows once the fuel covers its size. *)
Definition reads_back (v : json) : Prop :=
  forall f t, jsize v <= f -> parse_value f (stringify v ++ t) = Some (v, t).

(** Induction on JSON values with the hypothesis on every element. *)
Section JsonInd.
Variable P : json -> Prop.
Hypothesis P_str : forall s, P (JStr s).
Hypothesis P_arr : forall l, Forall P l -> P (JArr l).
Hypothesis P_obj : forall kvs, Forall (fun p => P (snd p)) kvs -> P (JObj kvs).

Fixpoint json_ind' (v : json) : P v :=
  match v with
  | JStr s => P_str s
  | JArr l =>
      P_arr l ((fix go (l : list json) : Forall P l :=
                  match l with
                  | [] => Forall_nil P
                  | x :: l' => Forall_cons x (json_ind' x) (go l')
                  end) l)
  | JObj kvs =>
      P_obj kvs ((fix go (l : list (string * json)) : Forall (fun p => P (snd p)) l :=
                    match l with
                    | [] => Forall_nil _
                    | (k, x) :: l' => Forall_cons (k, x) (json_ind' x) (go l')
                    end) kvs)
  end.
End JsonInd.

(** ** The string lexer inverts the escaping *)

(** Every one of the 256 characters: its escape lexes back to it.  Checked
    by evaluation on each character. *)
Lemma escape_lex (c : ascii) (t : string) :
  lex_str LNormal (escape_char c ++ t) = lex_cons c (lex_str LNormal t).
Proof. destruct c as [[] [] [] [] [] [] [] []]; reflexivity. Qed.

Lemma quote_lex (s t : string) : lex_str LNormal (quote_body s ++ quote_str ++ t) = Some (s, t).
Proof.
  induction s as [|c s IH]; [reflexivity|]. cbn [quote_body].
  rewrite <- string_append_assoc, escape_lex, IH. reflexivity.
Qed.

Lemma quote_app (s t : string) : quote s ++ t = String dquote (quote_body s ++ quote_str ++ t).
Proof. unfold quote. cbn [append]. now rewrite string_append_assoc. Qed.

(** A printed value starts with a quote, a bracket or a brace. *)
Lemma stringify_head (v : json) (t : string) :
  exists c r, stringify v ++ t = String c r /\
              (nat_of_ascii c = 34 \/ nat_of_ascii c = 91 \/ nat_of_ascii c = 123).
Proof.
  destruct v as [s|[|x l]|[|[k x] l]];
    [change (stringify (JStr s)) with (quote s); rewrite quote_app| | | |]; do 2 eexists; (split; [reflexivity|]); cbv; auto.
Qed.

Lemma elems_cons_app (y : json) (l : list json) (t : string) :
  stringify_elems (y :: l) ++ t = String "," (stringify y ++ stringify_elems l ++ t).
Proof. cbn [stringify_elems append]. now rewrite string_append_assoc. Qed.

Lemma members_cons_app (k : string) (y : json) (l : list (string * json)) (t : string) :
  stringify_members ((k, y) :: l) ++ t =
  String "," (String dquote (quote_body k ++ quote_str ++ ":" ++
                             stringify y ++ stringify_members l ++ t)).
Proof.
  cbn [stringify_members append]. rewrite <- !string_append_assoc, quote_app.
  cbn [append]. rewrite <- ?string_append_assoc. reflexivity.
Qed.

Ltac ascii_code_false :=
  match goal with
  | Hc : nat_of_ascii ?c = _ \/ _ |- _ =>
      unfold is_char; destruct Hc as [-> | [-> | ->]]; reflexivity
  end.

(** ** The round trip *)


Lemma parse_elems_ok (l : list json) :
  Forall reads_back l -> forall x f t, reads_back x ->
  jsize x + list_sum (map (fun y => S (jsize y)) l) < f ->
  parse_elems f (stringify x ++ stringify_elems l ++ t) = Some (x :: l, t).
Proof.
  induction 1 as [|y l Hy Hl IH]; intros x f t Hx Hf; (destruct f as [|f]; [lia|]);
    cbn [parse_elems]; unfold list_sum in *; cbn [map fold_right] in Hf.
  - rewrite Hx by lia. reflexivity.
  - rewrite Hx by lia. rewrite elems_cons_app. cbn iota beta.
    change (is_char "," 44) with true. cbn iota.
    rewrite (IH y) by (assumption || lia). reflexivity.
Qed.

Lemma parse_members_ok (l : list (string * json)) :
  Forall (fun p => reads_back (snd p)) l -> forall k x f t, reads_back x ->
  jsize x + list_sum (map (fun '(_, y) => S (jsize y)) l) < f ->
  parse_members f (String dquote (quote_body k ++ quote_str ++ ":" ++
                                  stringify x ++ stringify_members l ++ t)) =
    Some ((k, x) :: l, t).
Proof.
  induction 1 as [|[k' y] l Hy Hl IH]; intros k x f t Hx Hf; (destruct f as [|f]; [lia|]);
    cbn [parse_members]; unfold list_sum in *; cbn [map fold_right] in Hf; try cbn [snd] in Hy;
    change (is_char dquote 34) with true; cbn iota; rewrite quote_lex;
    change (":" ++ ?u) with (String ":" u); cbn iota; change (is_char ":" 58) with true; cbn iota.
  - rewrite Hx by lia. reflexivity.
  - rewrite Hx by lia. rewrite members_cons_app. cbn iota beta.
    change (is_char "," 44) with true. cbn iota.
    rewrite (IH k' y) by (assumption || lia). reflexivity.
Qed.

(** Reading a printed value, with anything after it, gives the value and
    what follows, once the fuel covers its size. *)
Lemma parse_stringify_fuel (v : json) : reads_back v.
Proof.
  unfold reads_back.
  induction v as [s|l Hl|kvs Hkvs] using json_ind'; intros f t Hf;
    (destruct f as [|f]; [simpl in Hf; lia|]).
  - change (stringify (JStr s)) with (quote s). rewrite quote_app. cbn [parse_value].
    change (is_char dquote 34) with true.
    cbn iota. now rewrite quote_lex.
  - destruct Hl as [|x l Hx Hl]; [reflexivity|]. cbn [jsize map] in Hf.
    change (list_sum (?a :: ?m)) with (a + list_sum m) in Hf.
    change (stringify (JArr (x :: l)) ++ t) with (String "[" ((stringify x ++ stringify_elems l) ++ t)).
    rewrite <- string_append_assoc. cbn [parse_value]. change (is_char "[" 34) with false.
    change (is_char "[" 91) with true. cbn iota.
    destruct (stringify_head x (stringify_elems l ++ t)) as (c & r & E & Hc).
    rewrite E. cbn iota. replace (is_char c 93) with false by ascii_code_false.
    rewrite <- E, parse_elems_ok by (assumption || lia). reflexivity.
  - destruct Hkvs as [|[k x] l Hx Hl]; [reflexivity|]. cbn [jsize map snd] in Hf, Hx.
    change (list_sum (?a :: ?m)) with (a + list_sum m) in Hf.
    change (stringify (JObj ((k, x) :: l)) ++ t)
      with (String "{" ((quote k ++ ":" ++ stringify x ++ stringify_members l) ++ t)).
    rewrite <- !string_append_assoc, quote_app. cbn [parse_value].
    change (is_char "{" 34) with false. change (is_char "{" 91) with false.
    change (is_char "{" 123) with true. change (is_char dquote 125) with false. cbn iota.
    rewrite parse_members_ok by (assumption || lia). reflexivity.
Qed.

(** ** A printed value is at least as long as its size *)

Lemma elems_length (l : list json) :
  Forall (fun v => jsize v <= String.length (stringify v)) l ->
  S (list_sum (map (fun y => S (jsize y)) l)) <= String.length (stringify_elems l).
Proof.
  induction 1 as [|y l Hy Hl IH]; [reflexivity|].
  change (stringify_elems (y :: l)) with ("," ++ stringify y ++ stringify_elems l).
  cbn [map]. change (list_sum (?a :: ?m)) with (a + list_sum m).
  autorewrite with scraper_rw. cbn [String.length]. lia.
Qed.

Lemma members_length (l : list (string * json)) :
  Forall (fun p => jsize (snd p) <= String.length (stringify (snd p))) l ->
  S (list_sum (map (fun '(_, y) => S (jsize y)) l)) <= String.length (stringify_members l).
Proof.
  induction 1 as [|[k y] l Hy Hl IH]; [reflexivity|]. cbn [snd] in Hy.
  change (stringify_members ((k, y) :: l))
    with ("," ++ quote k ++ ":" ++ stringify y ++ stringify_members l).
  cbn [map]. change (list_sum (?a :: ?m)) with (a + list_sum m).
  autorewrite with scraper_rw. cbn [String.length]. lia.
Qed.

Lemma jsize_le_length (v : json) : jsize v <= String.length (stringify v).
Proof.
  induction v as [s|l Hl|kvs Hkvs] using json_ind'.
  - cbn. lia.
  - destruct Hl as [|x l Hx Hl]; [cbn; lia|]. apply elems_length in Hl.
    change (stringify (JArr (x :: l))) with ("[" ++ stringify x ++ stringify_elems l).
    cbn [jsize map]. change (list_sum (?a :: ?m)) with (a + list_sum m).
    autorewrite with scraper_rw. cbn [String.length]. lia.
  - destruct Hkvs as [|[k x] l Hx Hl]; [cbn; lia|]. apply members_length in Hl. cbn [snd] in Hx.
    change (stringify (JObj ((k, x) :: l)))
      with ("{" ++ quote k ++ ":" ++ stringify x ++ stringify_members l).
    cbn [jsize map]. change (list_sum (?a :: ?m)) with (a + list_sum m).
    autorewrite with scraper_rw. cbn [String.length]. lia.
Qed.

(** [JSON.stringify] is lossless on these values: the reader gives back
    the value from the printed text alone. *)
Lemma parse_json_stringify (v : json) : parse_json (stringify v) = Some v.
Proof.
  unfold parse_json.
  pose proof (parse_stringify_fuel v (String.length (stringify v)) "" (jsize_le_length v)) as H.
  rewrite string_append_nil_r in H. now rewrite H.
Qed.

