(* ===== verification/Dom.v ===== *)
(** * The parsed markup and the cheerio selections the scraper uses

    cheerio is a library that src/main.js only calls; this file gives the
    meaning of the calls it makes, so that the scraper's own functions can
    be modelled from their source.  A document is the list of top-level
    nodes; a selected node is a [loc]: the node, its identity (the path of
    child positions from the root, [path_of]) and the siblings that follow
    it, which is what [.next()] needs.  A cheerio object is a list of
    [loc]s in document order.

    The document is shared mutable state: [cheerio.load(node)] moves
    [node] into a fresh root and so removes it from its parent's children
    (cheerio's [update]).  The parsed tree is kept as it was loaded, and
    the state is the list [dt] of the paths of the nodes removed since;
    navigation ([.next()], [.children()], descendant search) skips them.
    HTML parsing itself (including entity decoding in text) is not
    modelled: the documents are the parser's output. *)

From Stdlib Require Import String Ascii List Arith Lia Bool.
From S2P Require Import Prelude JsString.
Import ListNotations.

(** ** Markup *)

#[warnings="-register-all"]
Inductive node : Type :=
| Element (tag : string) (attribs : list (string * string)) (children : list node)
| Text (data : string)
| Comment (data : string).

(** Node identities: child positions from the root of the loaded document. *)
Definition path : Type := list nat.

(** A selected node: its parent's path, its position among the parent's
    children, the node, and the siblings after it. *)
Record loc : Type := mkLoc { parent : path; pos : nat; here : node; rights : list node }.

Definition selection : Type := list loc.

(** The path of the [i]-th child of the node at path [p]. *)
Definition child (p : path) (i : nat) : path := (p ++ [i])%list.

Definition path_of (l : loc) : path := child (parent l) (pos l).

Definition path_eqb (p q : path) : bool :=
  if list_eq_dec Nat.eq_dec p q then true else false.

(** The node with path [p] has been moved out of the document. *)
Definition detached (dt : list path) (p : path) : bool := existsb (path_eqb p) dt.
Arguments detached : simpl never.

Definition is_tag (n : node) : bool :=
  match n with
  | Element _ _ _ => true
  | _ => false
  end.

Definition kids (n : node) : list node :=
  match n with
  | Element _ _ ks => ks
  | _ => []
  end.

Definition has_tag (t : string) (l : loc) : bool :=
  match here l with
  | Element t' _ _ => String.eqb t' t
  | _ => false
  end.

Definition option_list {A : Type} (o : option A) : list A :=
  match o with
  | Some a => [a]
  | None => []
  end.

(** ** Traversal *)

(** The next element sibling still in the document, from position [i] of
    parent [p] on, skipping text, comments and removed nodes. *)
Fixpoint next_elem (dt : list path) (p : path) (i : nat) (rs : list node) : option loc :=
  match rs with
  | [] => None
  | n :: rs' =>
      if is_tag n && negb (detached dt (child p i)) then Some (mkLoc p i n rs')
      else next_elem dt p (S i) rs'
  end.

(** Every node of a list, from position [i] of parent [p] on. *)
Fixpoint locs_of (p : path) (i : nat) (ns : list node) : list loc :=
  match ns with
  | [] => []
  | n :: r => mkLoc p i n r :: locs_of p (S i) r
  end.

(** The descendants of the node at path [p] in document order (preorder),
    each with the tags of its ancestors, innermost first ([anc] are those
    of the node itself); removed nodes and their subtrees are skipped. *)
Fixpoint desc_in (dt : list path) (anc : list string) (p : path) (n : node) {struct n}
  : list (list string * loc) :=
  match n with
  | Element t _ ks =>
      (fix go (i : nat) (ks : list node) : list (list string * loc) :=
         match ks with
         | [] => []
         | k :: ks' =>
             (if detached dt (child p i) then []
              else (t :: anc, mkLoc p i k ks') :: desc_in dt (t :: anc) (child p i) k)
             ++ go (S i) ks'
         end) 0 ks
  | _ => []
  end.

(** A loaded root's children from position [i] on, and their descendants. *)
Fixpoint desc (dt : list path) (i : nat) (ns : list node) : list (list string * loc) :=
  match ns with
  | [] => []
  | n :: r => ([], mkLoc [] i n r) :: desc_in dt [] [i] n ++ desc dt (S i) r
  end.

(** Text content: the concatenated text nodes of a subtree, comments
    excluded. *)
Fixpoint text_of (n : node) : string :=
  match n with
  | Element _ _ ks =>
      (fix go (ks : list node) : string :=
         match ks with
         | [] => ""%string
         | k :: ks' => (text_of k ++ go ks')%string
         end) ks
  | Text d => d
  | Comment _ => ""%string
  end.

Fixpoint assoc (k : string) (l : list (string * string)) : option string :=
  match l with
  | [] => None
  | (k', v) :: r => if String.eqb k k' then Some v else assoc k r
  end.

Definition ascii_upper (c : ascii) : ascii :=
  let n := nat_of_ascii c in
  if ((97 <=? n) && (n <=? 122))%nat then ascii_of_nat (n - 32)%nat else c.

(** [String.prototype.toUpperCase] on ASCII. *)
Fixpoint upper (s : string) : string :=
  match s with
  | EmptyString => EmptyString
  | String c s' => String (ascii_upper c) (upper s')
  end.

(** ** The cheerio calls of src/main.js *)

(** [$(sel).next()] *)
Definition sel_next (dt : list path) (s : selection) : selection :=
  flat_map (fun l => option_list (next_elem dt (parent l) (S (pos l)) (rights l))) s.

(** [$(sel).prop('tagName')]: the upper-case tag name of the first selected
    element, [undefined] when the selection is empty. *)
Definition prop_tagName (s : selection) : option string :=
  match s with
  | [] => None
  | l :: _ =>
      match here l with
      | Element t _ _ => Some (upper t)
      | _ => None
      end
  end.

(** [$(sel).children()] *)
Definition sel_children (dt : list path) (s : selection) : selection :=
  flat_map (fun l => filter (fun c => is_tag (here c) && negb (detached dt (path_of c)))
                            (locs_of (path_of l) 0 (kids (here l)))) s.

(** [$(sel).children(t)] *)
Definition sel_children_tag (dt : list path) (t : string) (s : selection) : selection :=
  filter (has_tag t) (sel_children dt s).

(** [$(sel).text()] *)
Definition sel_text (s : selection) : string :=
  fold_right (fun l acc => (text_of (here l) ++ acc)%string) ""%string s.

(** [$(sel).attr(name)]: the attribute of the first selected element. *)
Definition sel_attr (name : string) (s : selection) : option string :=
  match s with
  | [] => None
  | l :: _ =>
      match here l with
      | Element _ a _ => assoc name a
      | _ => None
      end
  end.

(** [$(sel).first()] and [$(sel).eq(i)] *)
Definition sel_first (s : selection) : selection := firstn 1 s.
Definition sel_eq (i : nat) (s : selection) : selection := option_list (nth_error s i).

(** [cheerio.load(html)] followed by [$('t')]: every element with tag [t]
    of a freshly loaded document. *)
Definition select (t : string) (doc : list node) : selection :=
  map snd (filter (fun p => has_tag t (snd p)) (desc [] 0 doc)).

(** [$('a d')] on a freshly loaded document: every element with tag [d]
    that has an ancestor with tag [a]. *)
Definition select_desc (a d : string) (doc : list node) : selection :=
  map snd (filter (fun p => has_tag d (snd p) && existsb (String.eqb a) (fst p))
                  (desc [] 0 doc)).

(** [cheerio.load(el)] followed by [$('t')]: the elements with tag [t] among
    [el] and its descendants ([el] is the only child of the new root). *)
Definition select_in (dt : list path) (t : string) (l : loc) : selection :=
  filter (has_tag t) (l :: map snd (desc_in dt [] (path_of l) (here l))).

(** ** Lemmas *)

(** [.next()] moves strictly right. *)
Lemma next_elem_shorter dt p i (rs : list node) (l : loc) :
  next_elem dt p i rs = Some l -> length (rights l) < length rs.
Proof.
  revert i; induction rs as [|n rs IH]; intros i; simpl; [discriminate|].
  destruct (is_tag n && negb (detached dt (child p i))); [intros H; injection H as <-; simpl; lia|].
  intros H. specialize (IH _ H). lia.
Qed.

Lemma next_elem_parent dt p i (rs : list node) (l : loc) :
  next_elem dt p i rs = Some l -> parent l = p.
Proof.
  revert i; induction rs as [|n rs IH]; intros i; simpl; [discriminate|].
  destruct (is_tag n && negb (detached dt (child p i))); [intros H; now injection H as <- | apply IH].
Qed.

Lemma sel_next_single dt (l : loc) :
  sel_next dt [l] = option_list (next_elem dt (parent l) (S (pos l)) (rights l)).
Proof. unfold sel_next. simpl. now rewrite app_nil_r. Qed.

Lemma prop_tagName_single (l : loc) :
  prop_tagName [l] = match here l with Element t _ _ => Some (upper t) | _ => None end.
Proof. reflexivity. Qed.

#[export] Hint Rewrite sel_next_single prop_tagName_single : scraper_rw.
#[export] Hint Resolve next_elem_shorter : scraper.

(** ** Induction on markup *)

Section NodeInd.
Variable P : node -> Prop.
Hypothesis P_elem : forall t a ks, Forall P ks -> P (Element t a ks).
Hypothesis P_text : forall d, P (Text d).
Hypothesis P_comment : forall d, P (Comment d).

Fixpoint node_ind' (n : node) : P n :=
  match n with
  | Element t a ks =>
      P_elem t a ks
        ((fix go (ks : list node) : Forall P ks :=
            match ks with
            | [] => Forall_nil P
            | k :: ks' => Forall_cons k (node_ind' k) (go ks')
            end) ks)
  | Text d => P_text d
  | Comment d => P_comment d
  end.
End NodeInd.

(** ** Detaching a node that is not below the searched one *)

Lemma length_child (p : path) (i : nat) : length (child p i) = S (length p).
Proof. unfold child. rewrite length_app. simpl. lia. Qed.

(** A path of another length is not a removed path it is compared with. *)
Lemma detached_cons_len (dt : list path) (q x : path) :
  length q <> length x -> detached (q :: dt) x = detached dt x.
Proof.
  intros H. unfold detached, path_eqb. simpl.
  destruct (list_eq_dec Nat.eq_dec x q) as [->|]; [lia | reflexivity].
Qed.

(** Removing a node no deeper than [p] changes nothing below [p]. *)
Lemma desc_in_detach_short (dt : list path) (q : path) (n : node) :
  forall anc p, length q <= length p ->
  desc_in (q :: dt) anc p n = desc_in dt anc p n.
Proof.
  induction n as [t a ks Hks| |] using node_ind'; intros anc p Hq; [|reflexivity..].
  simpl. generalize 0 as i.
  induction Hks as [|k ks Hk Hks IH]; intros i; [reflexivity|].
  rewrite detached_cons_len by (rewrite length_child; lia).
  rewrite IH, Hk by (rewrite length_child; lia). reflexivity.
Qed.

(** Every descendant lies strictly below the node. *)
Lemma desc_in_deeper (dt : list path) (n : node) :
  forall anc p x, In x (desc_in dt anc p n) -> length p < length (path_of (snd x)).
Proof.
  induction n as [t a ks Hks| |] using node_ind'; intros anc p x; simpl; [|tauto..].
  generalize 0 as i.
  induction Hks as [|k ks Hk Hks IH]; intros i; simpl; [tauto|].
  rewrite in_app_iff. intros [Hx|Hx]; [|exact (IH _ Hx)].
  destruct (detached dt (child p i)); [destruct Hx|].
  destruct Hx as [<-|Hx]; [unfold path_of; simpl; rewrite length_child; lia|].
  apply Hk in Hx. rewrite length_child in Hx. lia.
Qed.

Lemma locs_of_parent (p : path) (i : nat) (ns : list node) (c : loc) :
  In c (locs_of p i ns) -> parent c = p.
Proof.
  revert i; induction ns as [|n ns IH]; intros i; simpl; [tauto|].
  intros [<-|H]; [reflexivity | exact (IH _ H)].
Qed.

(** The children of selected nodes are one level below them. *)
Lemma sel_children_depth (dt : list path) (s : selection) (d : nat) :
  Forall (fun l => length (path_of l) = d) s ->
  Forall (fun c => length (path_of c) = S d) (sel_children dt s).
Proof.
  induction 1 as [|l s Hl Hs IH]; [constructor|]. unfold sel_children. simpl.
  apply Forall_app. split; [|exact IH].
  apply Forall_forall. intros c Hc. apply filter_In in Hc as [Hc _].
  apply locs_of_parent in Hc. unfold path_of at 1. now rewrite Hc, length_child, Hl.
Qed.

(** What [.children()] finds is a child of a selected node that is still
    in the document. *)
Lemma sel_children_In (dt : list path) (s : selection) (c : loc) :
  In c (sel_children dt s) <->
  exists l, In l s /\ In c (locs_of (path_of l) 0 (kids (here l))) /\
            is_tag (here c) = true /\ detached dt (path_of c) = false.
Proof.
  unfold sel_children. rewrite in_flat_map. split.
  - intros [l [Hl Hc]]. apply filter_In in Hc as [Hc Ht].
    apply andb_prop in Ht as [Ht Hd]. apply negb_true_iff in Hd. eauto 6.
  - intros [l [Hl [Hc [Ht Hd]]]]. exists l. split; [exact Hl|].
    apply filter_In. split; [exact Hc|]. now rewrite Ht, Hd.
Qed.

(** [.children()] ignores the removal of a node at another depth than the
    children. *)
Lemma sel_children_detach_len (dt : list path) (q : path) (s : selection) :
  Forall (fun l => length q <> S (length (path_of l))) s ->
  sel_children (q :: dt) s = sel_children dt s.
Proof.
  induction 1 as [|l s Hl Hs IH]; [reflexivity|]. unfold sel_children. simpl.
  fold (sel_children (q :: dt) s) (sel_children dt s). rewrite IH. f_equal.
  apply filter_ext_in. intros c Hc. apply locs_of_parent in Hc.
  rewrite detached_cons_len; [reflexivity|].
  unfold path_of. rewrite Hc, length_child. exact Hl.
Qed.

Lemma detached_app_In (qs dt : list path) (x : path) :
  In x qs -> detached (qs ++ dt) x = true.
Proof.
  intros H. unfold detached. apply existsb_exists. exists x.
  split; [apply in_or_app; now left|]. unfold path_eqb.
  now destruct (list_eq_dec Nat.eq_dec x x).
Qed.

(** Searching inside a node ignores the removal of a node no deeper. *)
Lemma select_in_detach_short (dt : list path) (q : path) (t : string) (l : loc) :
  length q <= length (path_of l) -> select_in (q :: dt) t l = select_in dt t l.
Proof. intros H. unfold select_in. now rewrite desc_in_detach_short. Qed.

(** What a search inside [l] finds is [l] or below it. *)
Lemma select_in_depth (dt : list path) (t : string) (l x : loc) :
  In x (select_in dt t l) -> length (path_of l) <= length (path_of x).
Proof.
  unfold select_in. rewrite filter_In. intros [[<-|Hx] _]; [lia|].
  apply in_map_iff in Hx as [y [<- Hy]]. apply desc_in_deeper in Hy. lia.
Qed.

(** [.next()] ignores the removal of a node at another depth than the
    siblings. *)
Lemma next_elem_detach_len (dt : list path) (q p : path) (i : nat) (rs : list node) :
  length q <> S (length p) -> next_elem (q :: dt) p i rs = next_elem dt p i rs.
Proof.
  intros Hq. revert i; induction rs as [|n rs IH]; intros i; simpl; [reflexivity|].
  rewrite detached_cons_len by (rewrite length_child; exact Hq).
  destruct (is_tag n && negb (detached dt (child p i))); [reflexivity | apply IH].
Qed.

Lemma sel_next_detach_many (qs dt : list path) (s : selection) :
  Forall (fun q => Forall (fun l => length q <> S (length (parent l))) s) qs ->
  sel_next (qs ++ dt) s = sel_next dt s.
Proof.
  induction 1 as [|q qs Hq Hqs IH]; [reflexivity|]. cbn [app]. rewrite <- IH.
  unfold sel_next. clear IH Hqs.
  induction Hq as [|l s Hl Hs IHs]; [reflexivity|]. simpl.
  rewrite next_elem_detach_len by exact Hl. f_equal. exact IHs.
Qed.

Lemma sel_children_detach_many (qs dt : list path) (s : selection) :
  Forall (fun q => Forall (fun l => length q <> S (length (path_of l))) s) qs ->
  sel_children (qs ++ dt) s = sel_children dt s.
Proof.
  induction 1 as [|q qs Hq Hqs IH]; [reflexivity|]. cbn [app].
  rewrite sel_children_detach_len by exact Hq. exact IH.
Qed.

Lemma length_path_of (l : loc) : length (path_of l) = S (length (parent l)).
Proof. apply length_child. Qed.
