(* ===== verification/Table.v ===== *)
(** * The table extractor: [parseTable] (src/main.js 122-148)

    A theme is one row of the table that follows a series heading.
    [parseTable] recurses on [.next()] until it meets a [<table>]; the
    recursion is modelled with fuel ([parseTable]) and compared with a
    reference search ([find_table]): with [table_fuel] steps the two agree,
    and when there is no table the recursion never stops, which in
    JavaScript exhausts the call stack ([parse_table_js] throws a
    RangeError).  The row loop calls [cheerio.load(this)] on each row, which
    detaches the row from the document: [parse_rows] threads the list of
    detached paths. *)

From Stdlib Require Import String Ascii List Arith Lia Bool.
From S2P Require Import Prelude JsString Dom.
Import ListNotations.

(** ** Data (the [Theme] typedef, main.js 5-15) *)

Inductive theme_type : Type :=
| opening
| ending.

Record Theme : Type := mkTheme {
  name : string;
  link : option string;
  type : theme_type;
  episodes : string;
  notes : string
}.

(** ** Operations *)

(** [sel.prop('tagName') == t] *)
Definition tag_is (s : selection) (t : string) : bool :=
  match prop_tagName s with
  | Some x => String.eqb x t
  | None => false
  end.

(** The [.each] callback of [parseTable] on one row [tr] (main.js 130-144),
    after [cheerio.load(this)] has moved the row into its own document. *)
Definition parse_row (dt : list path) (tr : loc) : Theme :=
  let td := select_in dt "td" tr in
  let name := replaceAll (sel_text (sel_first td)) "&quot;" quote_str in
  let link := sel_attr "href" (sel_first (sel_children dt (sel_eq 1 td))) in
  let episodes := sel_text (sel_eq 2 td) in
  let notes := sel_text (sel_eq 3 td) in
  {| name := name;
     link := link;
     type := if startsWith name "OP" then opening else ending;
     episodes := episodes;
     notes := notes |}.

(** The row loop (main.js 129-145): each row is detached, then parsed. *)
Fixpoint parse_rows (dt : list path) (rows : selection) : list Theme * list path :=
  match rows with
  | [] => ([], dt)
  | tr :: rs =>
      let dt' := path_of tr :: dt in
      let r := parse_rows dt' rs in
      (parse_row dt' tr :: fst r, snd r)
  end.

(** [table.children('tbody').children('tr')] *)
Definition table_rows (dt : list path) (table : selection) : selection :=
  sel_children_tag dt "tr" (sel_children_tag dt "tbody" table).

(** [parseTable(table)] with [fuel] nested calls available; [None] when
    the calls run out. *)
Fixpoint parseTable (fuel : nat) (dt : list path) (table : selection)
  : option (list Theme * list path) :=
  match fuel with
  | O => None
  | S f =>
      if negb (tag_is table "TABLE") then parseTable f dt (sel_next dt table)
      else Some (parse_rows dt (table_rows dt table))
  end.

(** Enough nested calls for a selection of at most one node: one per
    following sibling, one for the empty selection, one to stop. *)
Definition table_fuel (s : selection) : nat :=
  match s with
  | [] => 1
  | l :: _ => S (S (length (rights l)))
  end.

(** What the JavaScript call does: return the themes, or throw a
    RangeError when the recursion does not stop. *)
Definition parse_table_js (dt : list path) (table : selection)
  : completion (list Theme * list path) :=
  match parseTable (table_fuel table) dt table with
  | Some r => Normal r
  | None => Throw RangeError
  end.

(** ** The reference search: the first table at or after the candidate *)

Definition is_table (l : loc) : bool := tag_is [l] "TABLE".

Fixpoint first_table (dt : list path) (p : path) (i : nat) (rs : list node) : option loc :=
  match rs with
  | [] => None
  | n :: rs' =>
      if is_tag n && negb (detached dt (child p i)) && is_table (mkLoc p i n rs')
      then Some (mkLoc p i n rs')
      else first_table dt p (S i) rs'
  end.

Definition find_table (dt : list path) (s : selection) : option loc :=
  match s with
  | [] => None
  | l :: _ => if is_table l then Some l else first_table dt (parent l) (S (pos l)) (rights l)
  end.

(** The themes of a found table. *)
Definition table_themes (dt : list path) (t : loc) : list Theme * list path :=
  parse_rows dt (table_rows dt [t]).

(** A paragraph followed by a one-row table. *)
Definition fx_small_table : node :=
  Element "table" [] [Element "tbody" [] [Element "tr" [] [Element "td" [] [Text "OP1"]]]].
Definition fx_candidate : loc := mkLoc [] 0 (Element "p" [] []) [Text " "; fx_small_table].

(** The spec's typing rule: a theme is an opening exactly when its name
    starts with [OP]. *)
Definition theme_typed (t : Theme) : Prop :=
  type t = if startsWith (name t) "OP" then opening else ending.

(** ** Lemmas on the search *)

Lemma parseTable_nil (fuel : nat) dt : parseTable fuel dt [] = None.
Proof. induction fuel as [|f IH]; [reflexivity | exact IH]. Qed.

(** Searching from a position is: take the next attached element, stop if
    it is a table, else search after it. *)
Lemma first_table_next dt p i rs :
  first_table dt p i rs =
  match next_elem dt p i rs with
  | None => None
  | Some l => if is_table l then Some l else first_table dt (parent l) (S (pos l)) (rights l)
  end.
Proof.
  revert i; induction rs as [|n rs IH]; intros i; simpl; [reflexivity|].
  destruct (is_tag n && negb (detached dt (child p i))); simpl; [|apply IH].
  destruct (is_table (mkLoc p i n rs)); reflexivity.
Qed.

Lemma find_table_step dt (l : loc) :
  is_table l = false -> find_table dt [l] = find_table dt (sel_next dt [l]).
Proof.
  intros Ht. rewrite sel_next_single. simpl. rewrite Ht, first_table_next.
  now destruct (next_elem dt (parent l) (S (pos l)) (rights l)).
Qed.

Lemma table_fuel_next dt (l : loc) :
  table_fuel (sel_next dt [l]) <= S (length (rights l)).
Proof.
  rewrite sel_next_single.
  destruct (next_elem dt (parent l) (S (pos l)) (rights l)) as [l'|] eqn:E; simpl; [|lia].
  apply next_elem_shorter in E. lia.
Qed.

Lemma length_sel_next_single dt (l : loc) : length (sel_next dt [l]) <= 1.
Proof. rewrite sel_next_single. destruct (next_elem _ _ _ _); simpl; lia. Qed.

(** With [table_fuel] nested calls, [parseTable] is the reference search
    followed by the row loop. *)
Lemma parseTable_find (fuel : nat) dt (s : selection) :
  length s <= 1 -> table_fuel s <= fuel ->
  parseTable fuel dt s = option_map (table_themes dt) (find_table dt s).
Proof.
  revert s; induction fuel as [|f IH]; intros s Hs Hf.
  - destruct s; simpl in Hf; lia.
  - destruct s as [|l [|l' s]]; simpl in Hs; [apply parseTable_nil | | lia].
    cbn [parseTable]. change (tag_is [l] "TABLE") with (is_table l).
    destruct (is_table l) eqn:Ht; simpl negb; cbn iota.
    + simpl. now rewrite Ht.
    + rewrite find_table_step by exact Ht. apply IH; [apply length_sel_next_single|].
      pose proof (table_fuel_next dt l). simpl in Hf. lia.
Qed.

(** More nested calls never change a result. *)
Lemma parseTable_mono (f f' : nat) dt s r :
  parseTable f dt s = Some r -> f <= f' -> parseTable f' dt s = Some r.
Proof.
  revert f' s; induction f as [|f IH]; intros f' s H Hle; [discriminate|].
  destruct f' as [|f']; [lia|]. simpl in *.
  destruct (negb (tag_is s "TABLE")); [apply IH; [exact H | lia] | exact H].
Qed.

(** C7: [parseTable] on a candidate node (or on the empty selection)
    terminates exactly when a table is found by the reference search: with
    [table_fuel] nested calls or more it returns the rows of the first
    table at or after the candidate, and when there is no such table no
    number of nested calls returns. *)
Theorem parseTable_terminates_iff_table dt (s : selection) :
  length s <= 1 ->
  (forall fuel, table_fuel s <= fuel ->
     parseTable fuel dt s = option_map (table_themes dt) (find_table dt s)) /\
  (find_table dt s = None -> forall fuel, parseTable fuel dt s = None).
Proof.
  intros Hs. split; [intros; now apply parseTable_find|].
  intros Hnone fuel. destruct (parseTable fuel dt s) as [r|] eqn:E; [|reflexivity].
  apply (parseTable_mono _ (Nat.max fuel (table_fuel s))) in E; [|lia].
  rewrite parseTable_find, Hnone in E by (assumption || lia). discriminate.
Qed.

Lemma parseTable_terminates_iff_table_witness :
  length [fx_candidate] <= 1 /\
  (forall fuel, table_fuel [fx_candidate] <= fuel ->
     parseTable fuel [] [fx_candidate] =
       option_map (table_themes []) (find_table [] [fx_candidate])) /\
  (find_table [] [fx_candidate] = None -> forall fuel, parseTable fuel [] [fx_candidate] = None).
Proof. split; [simpl; lia | apply parseTable_terminates_iff_table; simpl; lia]. Defined.

(** The JavaScript call returns the first table's rows or throws. *)
Lemma parse_table_js_find dt (s : selection) :
  length s <= 1 ->
  parse_table_js dt s =
    match find_table dt s with
    | Some t => Normal (table_themes dt t)
    | None => Throw RangeError
    end.
Proof.
  intros Hs. unfold parse_table_js. rewrite parseTable_find by (assumption || lia).
  now destruct (find_table dt s).
Qed.

(** ** Lemmas on the row loop *)

(** Removing a node no deeper than the row does not change the row. *)
Lemma parse_row_detach_short (dt : list path) (q : path) (tr : loc) :
  length q <= length (path_of tr) -> parse_row (q :: dt) tr = parse_row dt tr.
Proof.
  intros H. unfold parse_row. rewrite select_in_detach_short by exact H.
  rewrite sel_children_detach_len; [reflexivity|].
  apply Forall_forall. intros x Hx. unfold sel_eq in Hx.
  destruct (nth_error _ 1) eqn:E; simpl in Hx; [|tauto]. destruct Hx as [<-|[]].
  apply nth_error_In, select_in_depth in E. lia.
Qed.

Lemma parse_row_detach_many (qs dt : list path) (tr : loc) :
  Forall (fun q => length q <= length (path_of tr)) qs ->
  parse_row (qs ++ dt) tr = parse_row dt tr.
Proof.
  induction 1 as [|q qs Hq Hqs IH]; [reflexivity|].
  cbn [app]. rewrite parse_row_detach_short by exact Hq. exact IH.
Qed.

(** Rows of one depth: each is parsed as if none had been detached. *)
Lemma parse_rows_depth (dt acc : list path) (rows : selection) (d : nat) :
  Forall (fun q => length q = d) acc ->
  Forall (fun r => length (path_of r) = d) rows ->
  parse_rows (acc ++ dt) rows = (map (parse_row dt) rows, rev (map path_of rows) ++ acc ++ dt).
Proof.
  intros Hacc Hrows. revert acc Hacc.
  induction Hrows as [|r rows Hr Hrows IH]; intros acc Hacc; [reflexivity|].
  cbn [parse_rows]. rewrite app_comm_cons, (IH (path_of r :: acc)) by (constructor; assumption).
  cbn [fst snd map rev]. f_equal.
  - f_equal. apply parse_row_detach_many.
    constructor; [lia|]. eapply Forall_impl; [|exact Hacc]. simpl. lia.
  - now rewrite <- !app_assoc.
Qed.

Lemma Forall_filter_weaken {A : Type} (P : A -> Prop) (f : A -> bool) (l : list A) :
  Forall P l -> Forall P (filter f l).
Proof.
  rewrite !Forall_forall. intros H x Hx. apply filter_In in Hx as [Hx _]. auto.
Qed.

(** The rows of a table are two levels below it. *)
Lemma table_rows_depth dt (t : loc) :
  Forall (fun r => length (path_of r) = S (S (length (path_of t)))) (table_rows dt [t]).
Proof.
  unfold table_rows, sel_children_tag.
  apply Forall_filter_weaken, sel_children_depth, Forall_filter_weaken, sel_children_depth.
  now constructor.
Qed.

Lemma detached_app_false (qs dt : list path) (x : path) :
  detached (qs ++ dt) x = false -> detached dt x = false /\ ~ In x qs.
Proof.
  intros H. split.
  - unfold detached in *. rewrite existsb_app in H. now apply orb_false_iff in H.
  - intros Hx. rewrite detached_app_In in H by exact Hx. discriminate.
Qed.

(** A node [.children()] finds with more nodes removed it also finds with
    fewer, and it is not one of the removed. *)
Lemma sel_children_app (qs dt : list path) (s : selection) (c : loc) :
  In c (sel_children (qs ++ dt) s) -> In c (sel_children dt s) /\ ~ In (path_of c) qs.
Proof.
  rewrite !sel_children_In. intros [l [Hl [Hc [Ht Hd]]]].
  apply detached_app_false in Hd as [Hd Hq]. eauto 7.
Qed.

(** The row loop on a table: each row parsed as if none had been
    detached, all rows detached afterwards. *)
Lemma table_themes_map dt (t : loc) :
  table_themes dt t =
    (map (parse_row dt) (table_rows dt [t]), rev (map path_of (table_rows dt [t])) ++ dt).
Proof.
  unfold table_themes.
  apply (parse_rows_depth dt [] _ (S (S (length (path_of t))))); [constructor | apply table_rows_depth].
Qed.

(** A parsed table has no rows left. *)
Lemma table_rows_gone dt (t : loc) : table_rows (snd (table_themes dt t)) [t] = [].
Proof.
  rewrite table_themes_map. cbn [snd].
  destruct (table_rows _ [t]) as [|c cs] eqn:E; [reflexivity|]. exfalso.
  assert (Hc : In c (table_rows (rev (map path_of (table_rows dt [t])) ++ dt) [t]))
    by (rewrite E; now left).
  unfold table_rows, sel_children_tag in Hc.
  apply filter_In in Hc as [Hc Htr]. apply sel_children_app in Hc as [Hc Hq].
  apply Hq, (proj1 (in_rev _ _)), (in_map path_of). unfold table_rows, sel_children_tag.
  apply filter_In. split; [|exact Htr]. rewrite !sel_children_In in Hc |- *.
  destruct Hc as [b [Hb Hrest]]. exists b. split; [|exact Hrest].
  apply filter_In in Hb as [Hb Htb]. apply filter_In. split; [|exact Htb].
  apply sel_children_app in Hb. exact (proj1 Hb).
Qed.

(** C12: the themes of a table are its [<tbody>] rows parsed in document
    order, one theme per row, and each row is removed from the document
    (the [cheerio.load(this)] of the loop). *)
Theorem table_themes_rows dt (t : loc) :
  table_themes dt t =
    (map (parse_row dt) (table_rows dt [t]), rev (map path_of (table_rows dt [t])) ++ dt).
Proof. exact (table_themes_map dt t). Qed.

(** C11: after a table has been parsed its rows are gone from the shared
    document, so a second [parseTable] on the same table finds no row and
    yields no theme. *)
Theorem table_rows_after_parse dt (t : loc) :
  table_rows (snd (table_themes dt t)) [t] = [] /\
  fst (table_themes (snd (table_themes dt t)) t) = [].
Proof.
  split; [apply table_rows_gone|]. rewrite table_themes_map, table_rows_gone. reflexivity.
Qed.

(** Every theme the row loop produces follows the typing rule. *)
Lemma parse_rows_typed dt (rows : selection) : Forall theme_typed (fst (parse_rows dt rows)).
Proof.
  revert dt; induction rows as [|tr rows IH]; intros dt; simpl; constructor; [reflexivity | apply IH].
Qed.

Lemma parse_table_js_typed dt (s : selection) r :
  parse_table_js dt s = Normal r -> Forall theme_typed (fst r).
Proof.
  unfold parse_table_js. generalize (table_fuel s). intros fuel.
  revert s; induction fuel as [|f IH]; intros s; simpl; [discriminate|].
  destruct (negb (tag_is s "TABLE")); [apply IH|].
  intros H. injection H as <-. apply parse_rows_typed.
Qed.

(** The link is the [href] of the second cell's first child element,
    whatever its tag: when the anchor is not the first child, the theme has
    no link. *)
Example parse_row_link_first_child :
  link (parse_row [] (mkLoc [] 0
          (Element "tr" [] [Element "td" [] [Text "OP1"];
                            Element "td" [] [Element "em" [] [Text "NSFW"];
                                             Element "a" [("href", "https://animethemes.moe/video/X-OP1.webm")%string] []]])
          [])) = None.
Proof. vm_compute. reflexivity. Qed.
