(* ===== verification/Anime.v ===== *)
(** * The anime block extractor: [parseAnime] (src/main.js 102-120)

    A series is an [<h3>] heading whose anchor gives the title and the
    MyAnimeList link; the themes come from the table after it, possibly
    after a paragraph of alternative titles.  [parseAnime] threads the
    document state of [Dom] (the rows removed by [parseTable]) and returns
    a [completion]: it throws a TypeError when the heading has no link and
    a RangeError when a paragraph is followed by no table at all. *)

From Stdlib Require Import String Ascii List Arith Lia Bool.
From S2P Require Import Prelude JsString Dom Table.
Import ListNotations.
Local Open Scope string_scope.

(** ** Data (the [Anime] typedef, main.js 17-23)

    [id] and [year] are [None] when the source stores [undefined];
    [themes] is [None] when the source never sets the property. *)

Record Anime : Type := mkAnime {
  id : option string;
  title : string;
  themes : option (list Theme);
  year : option string
}.

(** ** Operation *)

Definition undefined_split : js_error :=
  TypeError "Cannot read properties of undefined (reading 'split')".

(** [parseAnime(dat)] on the heading [dat], in document state [dt]. *)
Definition parseAnime (dt : list path) (dat : loc) : completion (Anime * list path) :=
  let el := sel_children_tag dt "a" [dat] in
  let title := sel_text el in
  href <- match sel_attr "href" el with
          | Some h => Normal h
          | None => Throw undefined_split
          end ;;
  let malId := segment4 href in
  let next := sel_next dt [dat] in
  if tag_is next "P" then
    r <- parse_table_js dt (sel_next dt next) ;;
    Normal ({| id := malId; title := title; themes := Some (fst r); year := None |}, snd r)
  else if tag_is next "TABLE" then
    r <- parse_table_js dt next ;;
    Normal ({| id := malId; title := title; themes := Some (fst r); year := None |}, snd r)
  else
    Normal ({| id := malId; title := title; themes := None; year := None |}, dt).

(** ** Fixtures: markup as the wiki renders it (text already entity-decoded
    once by the HTML parser) *)

Definition fx_heading (ttl mal : string) : node :=
  Element "h3" [] [Element "a" [("href", "https://myanimelist.net/anime/" ++ mal ++ "/")%string]
                              [Text ttl]].

Definition fx_row (nm lnk ep nt : string) : node :=
  Element "tr" [] [Element "td" [] [Text nm];
                   Element "td" [] [Element "a" [("href", lnk)] [Text "Webm"]];
                   Element "td" [] [Text ep];
                   Element "td" [] [Text nt]].

Definition fx_table (rows : list node) : node :=
  Element "table" [] [Element "thead" [] [Element "tr" [] [Element "th" [] [Text "Theme"]]];
                      Element "tbody" [] rows].

Definition fx_rows : list node :=
  [fx_row "OP1 &quot;staple stable&quot;" "https://animethemes.moe/video/Bake-OP1.webm" "1-12" "";
   fx_row "ED1 &quot;kimi no shiranai monogatari&quot;" "https://animethemes.moe/video/Bake-ED1.webm" "" "Spoiler"].

(** Heading, paragraph of alternative titles, table. *)
Definition fx_doc_p : list node :=
  [fx_heading "Bakemonogatari" "5081"; Element "p" [] [Text "Monstory"]; fx_table fx_rows].

(** The located nodes of [fx_doc_p]. *)
Definition fx_h3 : loc := mkLoc [] 0 (nth 0 fx_doc_p (Text "")) (skipn 1 fx_doc_p).
Definition fx_p : loc := mkLoc [] 1 (nth 1 fx_doc_p (Text "")) (skipn 2 fx_doc_p).
Definition fx_tbl : loc := mkLoc [] 2 (nth 2 fx_doc_p (Text "")) (skipn 3 fx_doc_p).

(** Heading directly followed by its table (a comment in between). *)
Definition fx_doc_t : list node :=
  [fx_heading "Nisemonogatari" "11597"; Comment " themes "; fx_table fx_rows].
Definition fx_h3_t : loc := mkLoc [] 0 (nth 0 fx_doc_t (Text "")) (skipn 1 fx_doc_t).
Definition fx_tbl_t : loc := mkLoc [] 2 (nth 2 fx_doc_t (Text "")) (skipn 3 fx_doc_t).

(** Two headings in a row, then a table. *)
Definition fx_doc_hh : list node :=
  [fx_heading "Owarimonogatari" "31181"; fx_heading "Kizumonogatari" "9260"; fx_table fx_rows].
Definition fx_h3_hh : loc := mkLoc [] 0 (nth 0 fx_doc_hh (Text "")) (skipn 1 fx_doc_hh).

(** The themes of an anime, when it has them, follow the typing rule. *)
Definition themes_typed (a : Anime) : Prop :=
  match themes a with
  | Some ts => Forall theme_typed ts
  | None => True
  end.

(** ** Lemmas *)

Lemma tag_is_other (s : selection) (a b : string) :
  tag_is s a = true -> a <> b -> tag_is s b = false.
Proof.
  unfold tag_is. destruct (prop_tagName s) as [x|]; [|discriminate].
  intros Ha Hab. apply String.eqb_eq in Ha as ->. now apply String.eqb_neq.
Qed.

Lemma parse_table_js_table dt (tl : loc) :
  is_table tl = true -> parse_table_js dt [tl] = Normal (table_themes dt tl).
Proof. intros H. rewrite parse_table_js_find by (simpl; lia). simpl. now rewrite H. Qed.

(** A selection whose first element is a table, of at most one element. *)
Lemma tag_is_table_single (s : selection) :
  length s <= 1 -> tag_is s "TABLE" = true -> exists tl, s = [tl] /\ is_table tl = true.
Proof.
  destruct s as [|l [|l' s]]; simpl; intros Hs Ht; [discriminate | | lia]. eauto.
Qed.

Lemma length_sel_next dt (s : selection) : length s <= 1 -> length (sel_next dt s) <= 1.
Proof.
  destruct s as [|l [|l' s]]; simpl; intros Hs; [lia| |lia].
  rewrite app_nil_r. destruct (next_elem _ _ _ _); simpl; lia.
Qed.

(** ** Properties of [parseAnime] *)

(** C4: a heading followed by a paragraph (alternative titles) and then a
    table takes its themes from that table: the table's rows in order, and
    the rows are removed from the document. *)
Theorem parseAnime_paragraph_then_table dt (dat pl tl : loc) (h : string) :
  sel_attr "href" (sel_children_tag dt "a" [dat]) = Some h ->
  sel_next dt [dat] = [pl] -> tag_is [pl] "P" = true ->
  sel_next dt [pl] = [tl] -> is_table tl = true ->
  parseAnime dt dat =
    Normal ({| id := segment4 h; title := sel_text (sel_children_tag dt "a" [dat]);
               themes := Some (map (parse_row dt) (table_rows dt [tl])); year := None |},
            (rev (map path_of (table_rows dt [tl])) ++ dt)%list).
Proof.
  intros Hh Hn Hp Hn' Ht. unfold parseAnime. rewrite Hh. cbn [cbind].
  rewrite Hn, Hp, Hn', parse_table_js_table by exact Ht. cbn [cbind].
  now rewrite table_themes_map.
Qed.

Lemma parseAnime_paragraph_then_table_witness :
  sel_attr "href" (sel_children_tag [] "a" [fx_h3]) =
    Some "https://myanimelist.net/anime/5081/" /\
  sel_next [] [fx_h3] = [fx_p] /\ tag_is [fx_p] "P" = true /\
  sel_next [] [fx_p] = [fx_tbl] /\ is_table fx_tbl = true /\
  parseAnime [] fx_h3 =
    Normal ({| id := segment4 "https://myanimelist.net/anime/5081/";
               title := sel_text (sel_children_tag [] "a" [fx_h3]);
               themes := Some (map (parse_row []) (table_rows [] [fx_tbl])); year := None |},
            (rev (map path_of (table_rows [] [fx_tbl])) ++ [])%list).
Proof.
  do 5 (split; [reflexivity|]).
  apply parseAnime_paragraph_then_table with (pl := fx_p); reflexivity.
Defined.

(** C5: a heading followed directly by a table takes its themes from it. *)
Theorem parseAnime_direct_table dt (dat tl : loc) (h : string) :
  sel_attr "href" (sel_children_tag dt "a" [dat]) = Some h ->
  sel_next dt [dat] = [tl] -> is_table tl = true ->
  parseAnime dt dat =
    Normal ({| id := segment4 h; title := sel_text (sel_children_tag dt "a" [dat]);
               themes := Some (map (parse_row dt) (table_rows dt [tl])); year := None |},
            (rev (map path_of (table_rows dt [tl])) ++ dt)%list).
Proof.
  intros Hh Hn Ht. unfold parseAnime. rewrite Hh. cbn [cbind]. rewrite Hn.
  rewrite (tag_is_other [tl] "TABLE" "P") by (exact Ht || discriminate).
  unfold is_table in Ht. rewrite Ht, parse_table_js_table by exact Ht. cbn [cbind].
  now rewrite table_themes_map.
Qed.

Lemma parseAnime_direct_table_witness :
  sel_attr "href" (sel_children_tag [] "a" [fx_h3_t]) =
    Some "https://myanimelist.net/anime/11597/" /\
  sel_next [] [fx_h3_t] = [fx_tbl_t] /\ is_table fx_tbl_t = true /\
  parseAnime [] fx_h3_t =
    Normal ({| id := segment4 "https://myanimelist.net/anime/11597/";
               title := sel_text (sel_children_tag [] "a" [fx_h3_t]);
               themes := Some (map (parse_row []) (table_rows [] [fx_tbl_t])); year := None |},
            (rev (map path_of (table_rows [] [fx_tbl_t])) ++ [])%list).
Proof.
  do 3 (split; [reflexivity|]).
  apply parseAnime_direct_table; reflexivity.
Defined.

(** C6: when the element after the heading is neither a paragraph nor a
    table (another heading, a list, or nothing), the anime gets no [themes]
    property at all and no table is searched for, even if one follows
    further on. *)
Theorem parseAnime_other_sibling dt (dat : loc) (h : string) :
  sel_attr "href" (sel_children_tag dt "a" [dat]) = Some h ->
  tag_is (sel_next dt [dat]) "P" = false -> tag_is (sel_next dt [dat]) "TABLE" = false ->
  parseAnime dt dat =
    Normal ({| id := segment4 h; title := sel_text (sel_children_tag dt "a" [dat]);
               themes := None; year := None |}, dt).
Proof. intros Hh Hp Ht. unfold parseAnime. rewrite Hh. cbn [cbind]. now rewrite Hp, Ht. Qed.

Lemma parseAnime_other_sibling_witness :
  sel_attr "href" (sel_children_tag [] "a" [fx_h3_hh]) =
    Some "https://myanimelist.net/anime/31181/" /\
  tag_is (sel_next [] [fx_h3_hh]) "P" = false /\
  tag_is (sel_next [] [fx_h3_hh]) "TABLE" = false /\
  parseAnime [] fx_h3_hh =
    Normal ({| id := segment4 "https://myanimelist.net/anime/31181/";
               title := sel_text (sel_children_tag [] "a" [fx_h3_hh]);
               themes := None; year := None |}, []).
Proof.
  do 3 (split; [reflexivity|]). apply parseAnime_other_sibling; reflexivity.
Defined.

(** C9: [parseAnime] throws exactly in two cases: the heading has no
    anchor with an [href] (a TypeError from [undefined.split]), or the
    heading is followed by a paragraph and no table comes at or after the
    element that follows the paragraph (a RangeError from the unbounded
    recursion of [parseTable]).  A heading followed directly by a table
    never throws. *)
Theorem parseAnime_throws dt (dat : loc) (e : js_error) :
  parseAnime dt dat = Throw e <->
  (sel_attr "href" (sel_children_tag dt "a" [dat]) = None /\ e = undefined_split) \/
  (exists h, sel_attr "href" (sel_children_tag dt "a" [dat]) = Some h /\
             tag_is (sel_next dt [dat]) "P" = true /\
             find_table dt (sel_next dt (sel_next dt [dat])) = None /\ e = RangeError).
Proof.
  unfold parseAnime. destruct (sel_attr "href" _) as [h|] eqn:Hh; cbn [cbind].
  - destruct (tag_is (sel_next dt [dat]) "P") eqn:Hp.
    + rewrite parse_table_js_find by (apply length_sel_next, length_sel_next; simpl; lia).
      destruct (find_table _ _) eqn:Hf; cbn [cbind]; split.
      * discriminate.
      * intros [[? _]|[h' [_ [_ [? _]]]]]; discriminate.
      * intros H. injection H as <-. right. eauto.
      * intros [[? _]|[h' [_ [_ [_ ->]]]]]; [discriminate | reflexivity].
    + destruct (tag_is _ "TABLE") eqn:Ht.
      * destruct (tag_is_table_single _ (length_sel_next dt [dat] ltac:(simpl; lia)) Ht)
          as [tl [Htl Htt]].
        rewrite Htl, parse_table_js_table by exact Htt. cbn [cbind].
        split; [discriminate|]. intros [[? _]|[h' [_ [Hp' _]]]]; [discriminate | congruence].
      * split; [discriminate|]. intros [[? _]|[h' [_ [Hp' _]]]]; [discriminate | congruence].
  - split.
    + intros H. injection H as <-. left. auto.
    + intros [[_ ->]|[h' [? _]]]; [reflexivity | discriminate].
Qed.

(** A heading with a paragraph and nothing after it, and a heading with
    no link. *)
Example parseAnime_paragraph_no_table :
  parseAnime [] (mkLoc [] 0 (fx_heading "Zoku Owarimonogatari" "36999")
                             [Element "p" [] [Text "alt"]]) = Throw RangeError.
Proof. reflexivity. Qed.

Example parseAnime_no_link :
  parseAnime [] (mkLoc [] 0 (Element "h3" [] [Text "Hanamonogatari"]) [fx_table fx_rows])
  = Throw undefined_split.
Proof. reflexivity. Qed.

(** Every anime [parseAnime] returns follows the typing rule. *)
Lemma parseAnime_typed dt (dat : loc) a dt' :
  parseAnime dt dat = Normal (a, dt') -> themes_typed a.
Proof.
  unfold parseAnime. destruct (sel_attr _ _) as [h|]; cbn [cbind]; [|discriminate].
  destruct (tag_is _ "P"); [|destruct (tag_is _ "TABLE")];
    [ destruct (parse_table_js dt _) as [r|] eqn:E; cbn [cbind]; [|discriminate]..
    | intros H; injection H as <- _; exact I ];
    intros H; injection H as <- _; exact (parse_table_js_typed _ _ _ E).
Qed.
