(* ===== verification/Year.v ===== *)
(** * The year page fetcher: [biribiri] and [year] (src/main.js 64-78, 164-172)

    The HTTP client (axios) and the HTML loader (cheerio.load) are
    libraries; they are the interfaces [HttpClient] and [HtmlLoader], and
    every theorem here holds for every instance.  [year n] fetches
    [/r/AnimeThemes/wiki/<n>.json], normalises the content with [getHTML],
    loads it, and runs [parseAnime] on every [<h3>] in document order,
    stamping each result with [n].  The loop threads the document state,
    so the rows one heading's table loses are gone for the next heading.
    The assignment [this.$ = y] (line 69) is not modelled: [parseAnime]
    only wraps nodes of [y] with it, which does not depend on the
    document the wrapper was created from.  The theorems give the result
    of a page heading by heading, and when and with what [year] rejects. *)

From Stdlib Require Import String Ascii List Arith Lia Bool.
From S2P Require Import Prelude JsString Dom Table Anime.
Import ListNotations.
Local Open Scope string_scope.

(** ** Interfaces of the libraries *)

Record request : Type := mkRequest { url : string; headers : list (string * string) }.

(** The JSON body: [resp.data.data.content_html], [None] when absent. *)
Record response : Type := mkResponse { content_html : option string }.

(** [axios.get(url, {headers})]: a response, or a thrown network error. *)
Class HttpClient : Type := http_get : request -> completion response.

(** [cheerio.load(html)]: the top-level nodes of the parsed document. *)
Class HtmlLoader : Type := load : string -> list node.

(** ** Operations *)

Definition user_agent : list (string * string) :=
  [("User-Agent", "animethemes-scraper 1.0")].

Definition undefined_replace : js_error :=
  TypeError "Cannot read properties of undefined (reading 'replace')".

(** [parsed.year = n] *)
Definition set_year (n : option string) (a : Anime) : Anime :=
  {| id := id a; title := title a; themes := themes a; year := n |}.

(** The [.each] callback of [year] (main.js 71-75). *)
Definition year_step (n : option string) (dt : list path) (el : loc)
  : completion (Anime * list path) :=
  r <- parseAnime dt el ;;
  Normal (set_year n (fst r), snd r).

Section Fetch.
Context `{HttpClient} `{HtmlLoader}.

(** [biribiri(href)] *)
Definition biribiri (href : string) : completion (list node) :=
  resp <- http_get {| url := "https://reddit.com" ++ href ++ ".json"; headers := user_agent |} ;;
  match content_html resp with
  | Some html => Normal (load (getHTML html))
  | None => Throw undefined_replace
  end.

(** [year(n)]; [n] is [undefined] when the year link has fewer than five
    path segments. *)
Definition year (n : option string) : completion (list Anime) :=
  y <- biribiri ("/r/AnimeThemes/wiki/" ++ js_to_string n) ;;
  r <- cloop (year_step n) [] (select "h3" y) ;;
  Normal (fst r).
End Fetch.

(** ** Fixtures: a wiki with a year index listing 1990 and 1991, each year
    page holding one series with an opening and an ending *)

Definition fx_year_doc (ttl mal : string) : list node :=
  [fx_heading ttl mal;
   fx_table [fx_row "OP1 &quot;x&quot;" "https://animethemes.moe/video/x.webm" "1-26" "";
             fx_row "ED1 &quot;y&quot;" "https://animethemes.moe/video/y.webm" "" "NSFW"]].

Definition fx_year_link (y : string) : node :=
  Element "h3" [] [Element "a" [("href", "/r/AnimeThemes/wiki/" ++ y)] [Text y]].

Definition fx_index_doc : list node :=
  [Element "p" [] [Text "Years"]; fx_year_link "1990"; fx_year_link "1991"].

(** A year page (not listed in the index) whose second heading has no
    link. *)
Definition fx_year_doc_unlinked : list node :=
  fx_year_doc "Series C" "300" ++ [Element "h3" [] [Text "Series D"]].

(** The API serves each page's markup with its tags escaped. *)
Definition fx_http : HttpClient := fun req =>
  if String.eqb (url req) "https://reddit.com/r/AnimeThemes/wiki/year_index.json"
  then Normal {| content_html := Some "&lt;div&gt;index&lt;/div&gt;" |}
  else if String.eqb (url req) "https://reddit.com/r/AnimeThemes/wiki/1990.json"
  then Normal {| content_html := Some "&lt;div&gt;1990&lt;/div&gt;" |}
  else if String.eqb (url req) "https://reddit.com/r/AnimeThemes/wiki/1991.json"
  then Normal {| content_html := Some "&lt;div&gt;1991&lt;/div&gt;" |}
  else if String.eqb (url req) "https://reddit.com/r/AnimeThemes/wiki/1992.json"
  then Normal {| content_html := Some "&lt;div&gt;1992&lt;/div&gt;" |}
  else Throw (NetworkError "Request failed with status code 404").

(** The parser knows the unescaped markup only. *)
Definition fx_loader : HtmlLoader := fun html =>
  if String.eqb html "<div>index</div>" then fx_index_doc
  else if String.eqb html "<div>1990</div>" then fx_year_doc "Series A" "100"
  else if String.eqb html "<div>1991</div>" then fx_year_doc "Series B" "200"
  else if String.eqb html "<div>1992</div>" then fx_year_doc_unlinked
  else [].

Definition fx_animes_1990 : list Anime :=
  match @year fx_http fx_loader (Some "1990") with
  | Normal a => a
  | Throw _ => []
  end.

(** A heading with alternative titles, a second heading, then one table. *)
Definition fx_doc_steal : list node :=
  [fx_heading "Series P" "300"; Element "p" [] [Text "Alternative title"];
   fx_heading "Series Q" "400"; fx_table fx_rows].
Definition fx_steal_loc (i : nat) : loc :=
  mkLoc [] i (nth i fx_doc_steal (Text "")) (skipn (S i) fx_doc_steal).

(** ** Properties *)

Section YearProps.
Context `{HttpClient} `{HtmlLoader}.

(** Every anime the heading loop produces is stamped with the year and
    typed. *)
Lemma year_step_stamped (n : option string) (dt : list path) (hs : selection) r :
  cloop (year_step n) dt hs = Normal r -> Forall (fun a => Anime.year a = n /\ themes_typed a) (fst r).
Proof.
  apply cloop_Forall. intros dt' el b dt'' Hs. unfold year_step in Hs.
  apply cbind_Normal_inv in Hs as [[a d] [Ha Hb]]. injection Hb as <- _.
  split; [reflexivity|]. exact (parseAnime_typed _ _ _ _ Ha).
Qed.

(** What [year] returns is stamped with its year. *)
Lemma year_stamped (n : option string) (animes : list Anime) :
  year n = Normal animes -> Forall (fun a => Anime.year a = n /\ themes_typed a) animes.
Proof.
  unfold year. intros Hy. apply cbind_Normal_inv in Hy as [doc [_ Hr]].
  apply cbind_Normal_inv in Hr as [r [Hl Hr]]. injection Hr as <-.
  exact (year_step_stamped n _ _ _ Hl).
Qed.

(** C10: a year page that loads yields one anime per [<h3>] heading of
    the page, each stamped with the requested year, and every theme of
    every anime is an opening exactly when its name starts with [OP]. *)
Theorem year_result (n : option string) (animes : list Anime) :
  year n = Normal animes ->
  exists doc, biribiri ("/r/AnimeThemes/wiki/" ++ js_to_string n) = Normal doc /\
    length animes = length (select "h3" doc) /\
    Forall (fun a => Anime.year a = n /\ themes_typed a) animes.
Proof.
  unfold year. intros Hy.
  apply cbind_Normal_inv in Hy as [doc [Hdoc Hr]]. exists doc. split; [exact Hdoc|].
  apply cbind_Normal_inv in Hr as [r [Hl Hr]]. injection Hr as <-.
  split; [exact (cloop_length _ _ _ _ Hl)|]. exact (year_step_stamped n _ _ _ Hl).
Qed.

(** A page that throws while a heading is parsed makes [year] throw. *)
Lemma year_throws_heading (n : option string) (doc : list node) (e : js_error) :
  biribiri ("/r/AnimeThemes/wiki/" ++ js_to_string n) = Normal doc ->
  year n = Throw e <-> cloop (year_step n) [] (select "h3" doc) = Throw e.
Proof.
  intros Hd. unfold year. rewrite Hd. cbn [cbind].
  destruct (cloop _ _ _); simpl; split; congruence.
Qed.
(** C29: [year n] rejects with [e] exactly when fetching the page fails
    with [e], or the page loads and some [<h3>], reached in document
    order after every earlier heading was parsed, makes [parseAnime]
    throw [e]: the anime of the earlier headings are then lost with the
    whole page. *)
Theorem year_throws_iff (n : option string) (e : js_error) :
  year n = Throw e <->
  biribiri ("/r/AnimeThemes/wiki/" ++ js_to_string n) = Throw e \/
  exists doc hs1 h hs2 prev dt,
    biribiri ("/r/AnimeThemes/wiki/" ++ js_to_string n) = Normal doc /\
    select "h3" doc = (hs1 ++ h :: hs2)%list /\
    cloop (year_step n) [] hs1 = Normal (prev, dt) /\ parseAnime dt h = Throw e.
Proof.
  destruct (biribiri _) as [doc|e'] eqn:Hd.
  - rewrite (year_throws_heading n doc e Hd), cloop_Throw_iff.
    split.
    + intros (hs1 & h & hs2 & prev & dt & Hs & Hpre & Hx). right.
      exists doc, hs1, h, hs2, prev, dt. repeat split; auto.
      unfold year_step in Hx. destruct (parseAnime dt h); [discriminate | exact Hx].
    + intros [Hc|(doc' & hs1 & h & hs2 & prev & dt & Hd' & Hs & Hpre & Hx)]; [discriminate|].
      injection Hd' as <-. exists hs1, h, hs2, prev, dt. repeat split; auto.
      unfold year_step. now rewrite Hx.
  - unfold year. rewrite Hd, cbind_Throw_l. split.
    + intros H'. injection H' as ->. now left.
    + intros [H'|(doc & _ & _ & _ & _ & _ & H' & _)]; [now injection H' as -> | discriminate].
Qed.

(** C30: [year] keeps the headings' order: the [k]-th anime of the result
    is what [parseAnime] gives on the [k]-th [<h3>] of the page, run in
    the document state the first [k] headings left, stamped with [n]; and
    the first [k] anime are the loop's result on the first [k] headings. *)
Theorem year_heading_order (n : option string) (animes : list Anime) :
  year n = Normal animes ->
  exists doc, biribiri ("/r/AnimeThemes/wiki/" ++ js_to_string n) = Normal doc /\
    forall k h, nth_error (select "h3" doc) k = Some h ->
      exists dt a dt',
        cloop (year_step n) [] (firstn k (select "h3" doc)) = Normal (firstn k animes, dt) /\
        parseAnime dt h = Normal (a, dt') /\ nth_error animes k = Some (set_year n a).
Proof.
  unfold year. intros Hy.
  apply cbind_Normal_inv in Hy as [doc [Hdoc Hr]]. exists doc. split; [exact Hdoc|].
  apply cbind_Normal_inv in Hr as [r [Hl Hr]]. injection Hr as <-.
  intros k h Hk. destruct (cloop_nth _ _ _ _ _ _ Hl Hk) as (dt & b & dt'' & Hpre & Hx & Hb).
  unfold year_step in Hx. apply cbind_Normal_inv in Hx as [[a dt'] [Ha Hb']].
  injection Hb' as <- _. exists dt, a, dt'. auto.
Qed.

End YearProps.

Lemma year_result_witness :
  @year fx_http fx_loader (Some "1990") = Normal fx_animes_1990 /\
  exists doc,
    @biribiri fx_http fx_loader ("/r/AnimeThemes/wiki/" ++ js_to_string (Some "1990")) = Normal doc /\
    length fx_animes_1990 = length (select "h3" doc) /\
    Forall (fun a => Anime.year a = Some "1990" /\ themes_typed a) fx_animes_1990.
Proof.
  split; [vm_compute; reflexivity|].
  apply year_result. vm_compute. reflexivity.
Defined.

Lemma year_throws_iff_witness :
  @year fx_http fx_loader (Some "1992") = Throw undefined_split /\
  (@biribiri fx_http fx_loader ("/r/AnimeThemes/wiki/" ++ js_to_string (Some "1992"))
     = Throw undefined_split \/
   exists doc hs1 h hs2 prev dt,
     @biribiri fx_http fx_loader ("/r/AnimeThemes/wiki/" ++ js_to_string (Some "1992")) = Normal doc /\
     select "h3" doc = (hs1 ++ h :: hs2)%list /\
     cloop (year_step (Some "1992")) [] hs1 = Normal (prev, dt) /\
     parseAnime dt h = Throw undefined_split).
Proof.
  assert (Hy : @year fx_http fx_loader (Some "1992") = Throw undefined_split)
    by (vm_compute; reflexivity).
  split; [exact Hy | exact (proj1 (year_throws_iff (Some "1992") undefined_split) Hy)].
Defined.

Lemma year_heading_order_witness :
  @year fx_http fx_loader (Some "1990") = Normal fx_animes_1990 /\
  exists doc, @biribiri fx_http fx_loader ("/r/AnimeThemes/wiki/" ++ js_to_string (Some "1990"))
                = Normal doc /\
    forall k h, nth_error (select "h3" doc) k = Some h ->
      exists dt a dt',
        cloop (year_step (Some "1990")) [] (firstn k (select "h3" doc))
          = Normal (firstn k fx_animes_1990, dt) /\
        parseAnime dt h = Normal (a, dt') /\ nth_error fx_animes_1990 k = Some (set_year (Some "1990") a).
Proof.
  split; [vm_compute; reflexivity|].
  apply year_heading_order. vm_compute. reflexivity.
Defined.

(** The rows of a table that is a sibling of [B] are two levels below [B]'s
    siblings. *)
Lemma rows_depth_sibling dt (B tl : loc) :
  sel_next dt [B] = [tl] ->
  Forall (fun q => length q = S (S (length (path_of B)))) (rev (map path_of (table_rows dt [tl]))).
Proof.
  intros Hn. rewrite sel_next_single in Hn.
  destruct (next_elem dt (parent B) (S (pos B)) (rights B)) as [l|] eqn:E; [|discriminate].
  injection Hn as ->. apply next_elem_parent in E.
  apply Forall_rev, Forall_map. eapply Forall_impl; [|apply table_rows_depth].
  intros r Hr. cbv beta in Hr. rewrite Hr, !length_path_of, E. reflexivity.
Qed.

(** C8: a heading followed by a paragraph and then by a second heading
    takes the themes of the table that follows the second heading (the
    search of [parseTable] runs past the heading), and the second heading,
    whose next element is that table, then gets an empty list of themes:
    the first parse removed the table's rows from the document. *)
Theorem paragraph_takes_next_table (n : option string) dt (A pl B tl : loc) (hA hB : string) :
  sel_attr "href" (sel_children_tag dt "a" [A]) = Some hA ->
  sel_attr "href" (sel_children_tag dt "a" [B]) = Some hB ->
  sel_next dt [A] = [pl] -> tag_is [pl] "P" = true ->
  sel_next dt [pl] = [B] -> is_table B = false ->
  sel_next dt [B] = [tl] -> is_table tl = true ->
  exists dt',
    cloop (year_step n) dt [A; B] =
    Normal ([{| id := segment4 hA; title := sel_text (sel_children_tag dt "a" [A]);
                themes := Some (map (parse_row dt) (table_rows dt [tl])); Anime.year := n |};
             {| id := segment4 hB; title := sel_text (sel_children_tag dt "a" [B]);
                themes := Some []; Anime.year := n |}], dt').
Proof.
  intros HA HB HnA Hp HnP HBt HnB Ht.
  pose proof (rows_depth_sibling dt B tl HnB) as Hdepth.
  assert (HT : table_themes (rev (map path_of (table_rows dt [tl])) ++ dt)%list tl =
               ([], (rev (map path_of (table_rows dt [tl])) ++ dt)%list)).
  { assert (Hdt1 : (rev (map path_of (table_rows dt [tl])) ++ dt)%list = snd (table_themes dt tl))
      by now rewrite table_themes_map.
    rewrite table_themes_map, Hdt1, (table_rows_gone dt tl). reflexivity. }
  exists (rev (map path_of (table_rows dt [tl])) ++ dt)%list.
  cbn [cloop]. unfold year_step at 1, parseAnime at 1.
  rewrite HA. cbn [cbind]. rewrite HnA, Hp, HnP, parse_table_js_find by (simpl; lia).
  rewrite find_table_step, HnB by exact HBt. cbn [find_table]. rewrite Ht. cbn [cbind].
  rewrite table_themes_map. cbn [fst snd].
  unfold year_step, parseAnime, sel_children_tag.
  rewrite sel_children_detach_many.
  2: { eapply Forall_impl; [|exact Hdepth]. intros q Hq. constructor; [|constructor].
       cbv beta in Hq. lia. }
  fold (sel_children_tag dt "a" [B]). rewrite HB. cbn [cbind].
  rewrite sel_next_detach_many.
  2: { eapply Forall_impl; [|exact Hdepth]. intros q Hq. constructor; [|constructor].
       cbv beta in Hq. rewrite length_path_of in Hq. lia. }
  rewrite HnB, (tag_is_other [tl] "TABLE" "P") by (exact Ht || discriminate).
  unfold is_table in Ht. rewrite Ht, parse_table_js_table by exact Ht. cbn [cbind].
  rewrite HT. reflexivity.
Qed.

Lemma paragraph_takes_next_table_witness :
  sel_attr "href" (sel_children_tag [] "a" [fx_steal_loc 0]) =
    Some "https://myanimelist.net/anime/300/" /\
  sel_attr "href" (sel_children_tag [] "a" [fx_steal_loc 2]) =
    Some "https://myanimelist.net/anime/400/" /\
  sel_next [] [fx_steal_loc 0] = [fx_steal_loc 1] /\ tag_is [fx_steal_loc 1] "P" = true /\
  sel_next [] [fx_steal_loc 1] = [fx_steal_loc 2] /\ is_table (fx_steal_loc 2) = false /\
  sel_next [] [fx_steal_loc 2] = [fx_steal_loc 3] /\ is_table (fx_steal_loc 3) = true /\
  table_rows [] [fx_steal_loc 3] <> [] /\
  exists dt',
    cloop (year_step (Some "2009")) [] [fx_steal_loc 0; fx_steal_loc 2] =
    Normal ([{| id := segment4 "https://myanimelist.net/anime/300/";
                title := sel_text (sel_children_tag [] "a" [fx_steal_loc 0]);
                themes := Some (map (parse_row []) (table_rows [] [fx_steal_loc 3]));
                Anime.year := Some "2009" |};
             {| id := segment4 "https://myanimelist.net/anime/400/";
                title := sel_text (sel_children_tag [] "a" [fx_steal_loc 2]);
                themes := Some []; Anime.year := Some "2009" |}], dt').
Proof.
  do 8 (split; [reflexivity|]). split; [discriminate|].
  apply paragraph_takes_next_table with (pl := fx_steal_loc 1); reflexivity.
Defined.
