(* ===== verification/Layout.v ===== *)
(** * Year pages in the wiki's usual layout (src/main.js 64-78, 102-148)

    A year page of the wiki is, in its usual layout, an introduction
    followed by one block per series: the [<h3>] heading with the series'
    link, then directly (text and comments apart) the table of its
    themes.  [page] builds such a document from an introduction without
    headings and a list of [block]s; [block_ok] checks the shape.

    The heading loop of [year] threads the shared document: every table
    parsed loses its rows ([cheerio.load(this)], line 130).  After a
    paragraph this makes a heading take, and empty, the next heading's
    table ([Year.paragraph_takes_next_table]).  In the usual layout the
    rows a heading removes all lie in its own table, before the next
    heading, so no heading sees another's removals: the loop gives what
    parsing every heading on a freshly loaded page gives.  The invariant
    [good] says so: the removed paths are rows (three levels deep) of
    tables before the current heading. *)

From Stdlib Require Import String Ascii List Arith Lia Bool.
From S2P Require Import Prelude JsString Dom Table Anime Year.
Import ListNotations.
Local Open Scope string_scope.
Local Open Scope list_scope.

(** ** The layout *)












(** ** Fixture: two series in the usual layout, with line breaks *)




(** The page of [Year.fx_doc_steal]: a heading with a paragraph of
    alternative titles, then a heading with its table. *)
Definition fx_steal_http : HttpClient := fun _ => Normal {| content_html := Some "page" |}.
Definition fx_steal_loader : HtmlLoader := fun _ => fx_doc_steal.

(** ** Lemmas on the removed paths *)










(** ** A heading of the layout *)









(** ** The headings of a page in the layout *)










Section YearLayout.
Context `{HttpClient} `{HtmlLoader}.


End YearLayout.


(** Outside the layout the equation fails: on the page of C8 the loop
    leaves the second series without themes, a fresh parse does not. *)
Example year_paragraph_page_differs :
  @year fx_steal_http fx_steal_loader (Some "2009") <>
    (rs <- cmapM (parseAnime []) (select "h3" fx_doc_steal) ;;
     Normal (map (fun r => set_year (Some "2009") (fst r)) rs)).
Proof. vm_compute. intros E. discriminate E. Qed.
