(* ===== verification/Orchestrator.v ===== *)
(** * The index orchestrator: [all] and [parseLinks] (src/main.js 36-57, 80-97)

    [all] fetches the year index and loads it; [parseLinks] then starts one
    [year] task per [h3 a] link, all at once, and returns a promise that is
    resolved from the tasks' [.then] callbacks: each fulfilled task appends
    its anime to [this.animes] and increments [this.finl], and the callback
    that brings [this.finl] to the number of links resolves the promise.
    A link without [href] throws inside its [async] callback before any
    task starts, and a task whose promise is rejected has no rejection
    handler: neither is ever counted.

    The tasks settle in an order chosen by the network.  The state of the
    orchestration is the record [orch] (the fields [this.animes],
    [this.finl], the settled value of the promise, and the tasks still
    pending); [settle] is the callback run when task [i] settles with its
    [outcome]; [step] is the transition relation and [reachable] its
    reflexive-transitive closure from the state [launch] leaves.  [run]
    executes a given settlement order. *)

From Stdlib Require Import String Ascii List Arith Lia Bool Permutation.
From S2P Require Import Prelude JsString Dom Table Anime Year.
Import ListNotations.

(** ** State *)

Record orch : Type := mkOrch {
  total : nat;                      (** [years.length] *)
  pending : list nat;               (** started tasks not yet settled *)
  animes : list Anime;              (** [this.animes] *)
  finl : nat;                       (** [this.finl] *)
  resolved : option (list Anime)    (** the value the promise was resolved with *)
}.

(** [resolve(v)]: a promise keeps the first value it is resolved with. *)
Definition resolve_once (r : option (list Anime)) (v : list Anime) : option (list Anime) :=
  match r with
  | Some v0 => Some v0
  | None => Some v
  end.

(** The [.then] callback of a fulfilled task (main.js 87-94). *)
Definition on_fulfilled (st : orch) (a : list Anime) : orch :=
  let acc := (animes st ++ a)%list in
  let n := S (finl st) in
  {| total := total st; pending := pending st; animes := acc; finl := n;
     resolved := if Nat.eqb n (total st) then resolve_once (resolved st) acc else resolved st |}.

Definition remove_pending (st : orch) (i : nat) : orch :=
  {| total := total st; pending := remove Nat.eq_dec i (pending st); animes := animes st;
     finl := finl st; resolved := resolved st |}.

Section ParseLinks.
(** The value each task settles with. *)
Variable outcome : nat -> completion (list Anime).

(** Task [i] settles: a fulfilled task runs its callback, a rejected one
    runs nothing. *)
Definition settle (st : orch) (i : nat) : orch :=
  if existsb (Nat.eqb i) (pending st) then
    match outcome i with
    | Normal a => on_fulfilled (remove_pending st i) a
    | Throw _ => remove_pending st i
    end
  else st.

(** Settle the tasks in the order [ord]. *)
Definition run (st : orch) (ord : list nat) : orch := fold_left settle ord st.

(** What a task contributes to [this.animes], and whether it counts. *)
Definition res (i : nat) : list Anime :=
  match outcome i with
  | Normal a => a
  | Throw _ => []
  end.

Definition is_ok (i : nat) : bool :=
  match outcome i with
  | Normal _ => true
  | Throw _ => false
  end.

Definition count_ok (ord : list nat) : nat := length (filter is_ok ord).

Inductive step : orch -> orch -> Prop :=
| step_settle st i : In i (pending st) -> step st (settle st i).

Inductive reachable (init : orch) : orch -> Prop :=
| reach_init : reachable init init
| reach_step st st' : reachable init st -> step st st' -> reachable init st'.
End ParseLinks.

(** ** Launch (main.js 82-86) *)

(** [this.$('h3 a')] *)
Definition year_links (doc : list node) : selection := select_desc "h3" "a" doc.

(** [this.$(yearElement).attr('href').split('/')[4]]; [None] when the
    link has no [href] and the callback throws. *)
Definition link_year (l : loc) : option (option string) :=
  match sel_attr "href" [l] with
  | Some h => Some (segment4 h)
  | None => None
  end.

(** The indices of the links whose task is started. *)
Fixpoint started_from (i : nat) (ls : selection) : list nat :=
  match ls with
  | [] => []
  | l :: ls' =>
      match link_year l with
      | Some _ => i :: started_from (S i) ls'
      | None => started_from (S i) ls'
      end
  end.

Definition launch (doc : list node) : orch :=
  {| total := length (year_links doc); pending := started_from 0 (year_links doc);
     animes := []; finl := 0; resolved := None |}.

Section All.
Context `{HttpClient} `{HtmlLoader}.

(** The value task [i] settles with: [this.year(n)] for the year of link
    [i]. *)
Definition year_outcome (doc : list node) (i : nat) : completion (list Anime) :=
  match nth_error (year_links doc) i with
  | Some l =>
      match link_year l with
      | Some n => year n
      | None => Throw undefined_split
      end
  | None => Throw undefined_split
  end.

(** [all()] up to the call of [parseLinks] (main.js 39-48). *)
Definition all_start : completion (list node) :=
  resp <- http_get {| url := "https://reddit.com/r/AnimeThemes/wiki/year_index.json";
                      headers := user_agent |} ;;
  match content_html resp with
  | Some html => Normal (load (getHTML html))
  | None => Throw undefined_replace
  end.

(** How the promise of [all()] can settle. *)
Inductive all_settles : completion (list Anime) -> Prop :=
| all_rejects e : all_start = Throw e -> all_settles (Throw e)
| all_resolves doc st v :
    all_start = Normal doc ->
    reachable (year_outcome doc) (launch doc) st -> resolved st = Some v ->
    all_settles (Normal v).
End All.

(** ** Fixtures: the wiki of [Year] (years 1990 and 1991) *)

Definition fx_outcome : nat -> completion (list Anime) :=
  @year_outcome fx_http fx_loader fx_index_doc.

Definition fx_init : orch := launch fx_index_doc.

(** ** Lemmas on runs *)

Lemma nodup_bound (l : list nat) (n : nat) :
  NoDup l -> Forall (fun i => i < n) l -> length l <= n.
Proof.
  intros Hnd Hb. rewrite <- (length_seq n 0). apply NoDup_incl_length; [exact Hnd|].
  intros i Hi. apply in_seq. rewrite Forall_forall in Hb. specialize (Hb i Hi). lia.
Qed.

Lemma count_ok_le (outcome : nat -> completion (list Anime)) (l : list nat) :
  count_ok outcome l <= length l.
Proof. unfold count_ok. induction l as [|x l IH]; simpl; [lia|]. destruct (is_ok _ x); simpl; lia. Qed.

(** All elements count when the count is the length. *)
Lemma count_ok_full (outcome : nat -> completion (list Anime)) (l : list nat) :
  count_ok outcome l = length l -> forall i, In i l -> is_ok outcome i = true.
Proof.
  unfold count_ok. induction l as [|x l IH]; simpl; [tauto|].
  pose proof (count_ok_le outcome l) as Hle. unfold count_ok in Hle.
  destruct (is_ok outcome x) eqn:E; simpl.
  - intros H i [<-|Hi]; [exact E | apply IH; [lia | exact Hi]].
  - intros H. lia.
Qed.

Lemma existsb_eqb_In (i : nat) (l : list nat) : existsb (Nat.eqb i) l = true <-> In i l.
Proof.
  rewrite existsb_exists. split.
  - intros [x [Hx E]]. apply Nat.eqb_eq in E. now subst.
  - intros H. exists i. split; [exact H | apply Nat.eqb_refl].
Qed.

Lemma In_remove_iff (i j : nat) (l : list nat) :
  In i (remove Nat.eq_dec j l) <-> In i l /\ i <> j.
Proof.
  split; [apply in_remove|]. intros [H Hne]. now apply in_in_remove.
Qed.

(** A settlement of a pending task removes it from [pending] and keeps
    [years.length], whether the task was fulfilled or rejected. *)
Lemma settle_pending (outcome : nat -> completion (list Anime)) (st : orch) (i : nat) :
  In i (pending st) ->
  pending (settle outcome st i) = remove Nat.eq_dec i (pending st) /\
  total (settle outcome st i) = total st.
Proof.
  intros Hi. unfold settle. rewrite (proj2 (existsb_eqb_In _ _) Hi).
  destruct (outcome i); split; reflexivity.
Qed.

Lemma count_ok_all (outcome : nat -> completion (list Anime)) (l : list nat) :
  (forall i, In i l -> is_ok outcome i = true) -> count_ok outcome l = length l.
Proof.
  unfold count_ok. induction l as [|x l IH]; simpl; intros H; [reflexivity|].
  rewrite (H x (or_introl eq_refl)). simpl. f_equal. apply IH. auto.
Qed.

Lemma Permutation_concat_map {A B : Type} (f : A -> list B) (l l' : list A) :
  Permutation l l' -> Permutation (concat (map f l)) (concat (map f l')).
Proof. intros H. rewrite <- !flat_map_concat_map. now apply Permutation_flat_map. Qed.

Section Runs.
Variable outcome : nat -> completion (list Anime).
Variable init : orch.
Hypothesis init_animes : animes init = [].
Hypothesis init_finl : finl init = 0.
Hypothesis init_resolved : resolved init = None.
Hypothesis init_nodup : NoDup (pending init).
Hypothesis init_bound : Forall (fun i => i < total init) (pending init).

(** Settling the distinct started tasks [ord] in order leaves the other
    tasks pending, [this.animes] holding their results in settlement
    order, [this.finl] counting the fulfilled ones, and the promise
    resolved exactly when every one of the [total] links fulfilled. *)
Lemma run_invariant (ord : list nat) :
  NoDup ord -> incl ord (pending init) ->
  total (run outcome init ord) = total init /\
  (forall i, In i (pending (run outcome init ord)) <-> In i (pending init) /\ ~ In i ord) /\
  animes (run outcome init ord) = concat (map (res outcome) ord) /\
  finl (run outcome init ord) = count_ok outcome ord /\
  resolved (run outcome init ord) =
    (if (count_ok outcome ord =? total init) && (0 <? total init)
     then Some (concat (map (res outcome) ord)) else None).
Proof.
  induction ord as [|i ord IH] using rev_ind; intros Hnd Hincl.
  - cbn. rewrite init_animes, init_finl, init_resolved.
    split; [reflexivity|]. split; [tauto|]. do 2 (split; [reflexivity|]).
    now destruct (total init).
  - apply NoDup_app_remove_r in Hnd as Hnd'.
    assert (Hi : ~ In i ord) by (apply NoDup_remove_2 in Hnd; rewrite app_nil_r in Hnd; exact Hnd).
    assert (Hinit : In i (pending init)) by (apply Hincl, in_or_app; right; now left).
    destruct (IH Hnd' (fun x H => Hincl x (in_or_app _ _ _ (or_introl H))))
      as (Ht & Hp & Ha & Hf & Hr).
    assert (Hlen : length (ord ++ [i]) <= total init).
    { apply nodup_bound; [exact Hnd|]. rewrite Forall_forall in init_bound |- *.
      intros x Hx. apply init_bound, Hincl, Hx. }
    rewrite length_app in Hlen. simpl in Hlen. pose proof (count_ok_le outcome ord).
    assert (Hc : (count_ok outcome ord =? total init) = false) by (apply Nat.eqb_neq; lia).
    rewrite Hc in Hr. simpl in Hr.
    unfold run. rewrite fold_left_app. fold (run outcome init ord). cbn [fold_left].
    unfold settle. rewrite (proj2 (existsb_eqb_In _ _)) by (apply Hp; auto).
    assert (Hcount : count_ok outcome (ord ++ [i]) =
                     count_ok outcome ord + (if is_ok outcome i then 1 else 0)).
    { unfold count_ok. rewrite filter_app, length_app. simpl. now destruct (is_ok outcome i). }
    assert (Hmem : forall x, In x (remove Nat.eq_dec i (pending (run outcome init ord))) <->
                             In x (pending init) /\ ~ In x (ord ++ [i])).
    { intros x. rewrite In_remove_iff, Hp, in_app_iff. simpl. intuition. }
    rewrite Hcount, map_app, concat_app. cbn [map concat]. rewrite app_nil_r.
    change (res outcome i) with (match outcome i with Normal a => a | Throw _ => [] end).
    change (is_ok outcome i) with (match outcome i with Normal _ => true | Throw _ => false end).
    destruct (outcome i) as [a|e].
    + cbn [on_fulfilled remove_pending total pending animes finl resolved].
      rewrite Ht, Ha, Hf, Hr, Nat.add_1_r.
      split; [reflexivity|]. split; [exact Hmem|]. do 2 (split; [reflexivity|]).
      destruct (Nat.eqb_spec (S (count_ok outcome ord)) (total init)); cbn [andb resolve_once];
        [|reflexivity].
      rewrite (proj2 (Nat.ltb_lt 0 (total init))) by lia. reflexivity.
    + cbn [remove_pending total pending animes finl resolved].
      rewrite Ht, Ha, Hf, Hr, Nat.add_0_r, Hc, app_nil_r.
      split; [reflexivity|]. split; [exact Hmem|]. do 2 (split; [reflexivity|]). reflexivity.
Qed.

(** The reachable states are the runs of the valid settlement orders. *)
Lemma reachable_run (st : orch) :
  reachable outcome init st <->
  exists ord, NoDup ord /\ incl ord (pending init) /\ st = run outcome init ord.
Proof.
  split.
  - induction 1 as [|st st' Hr IH Hs].
    + exists []. repeat split; [constructor | intros x []].
    + destruct IH as (ord & Hnd & Hincl & ->). inversion Hs as [st0 i Hi]; subst.
      destruct (run_invariant ord Hnd Hincl) as (_ & Hp & _).
      apply Hp in Hi as [Hinit Hnot]. exists (ord ++ [i]). split; [|split].
      * apply NoDup_app; [exact Hnd | repeat constructor; auto |].
        intros x Hx [<-|[]]. contradiction.
      * intros x Hx. apply in_app_iff in Hx as [Hx|[<-|[]]]; [apply Hincl, Hx | exact Hinit].
      * unfold run. now rewrite fold_left_app.
  - intros (ord & Hnd & Hincl & ->). induction ord as [|i ord IH] using rev_ind; [constructor|].
    apply NoDup_app_remove_r in Hnd as Hnd'.
    assert (Hi : ~ In i ord) by (apply NoDup_remove_2 in Hnd; rewrite app_nil_r in Hnd; exact Hnd).
    assert (Hincl' : incl ord (pending init))
      by (intros x H; apply Hincl, in_or_app; now left).
    unfold run. rewrite fold_left_app. cbn [fold_left]. fold (run outcome init ord).
    econstructor; [exact (IH Hnd' Hincl')|]. constructor.
    destruct (run_invariant ord Hnd' Hincl') as (_ & Hp & _). apply Hp.
    split; [apply Hincl, in_or_app; right; now left | exact Hi].
Qed.

(** [years.length] is fixed for the whole run. *)
Lemma reachable_total (st : orch) : reachable outcome init st -> total st = total init.
Proof.
  intros Hr. apply reachable_run in Hr as (ord & Hnd & Hincl & ->).
  exact (proj1 (run_invariant ord Hnd Hincl)).
Qed.

(** Every index below [total] is started when the started list is as
    long as [total]. *)
Lemma all_started_of_length :
  total init <= length (pending init) -> forall i, i < total init -> In i (pending init).
Proof.
  intros Hl. assert (Hall : incl (seq 0 (total init)) (pending init)).
  { apply NoDup_length_incl; [exact init_nodup | rewrite length_seq; exact Hl|].
    intros x Hx. apply in_seq. rewrite Forall_forall in init_bound.
    specialize (init_bound x Hx). lia. }
  intros i Hi. apply Hall, in_seq. lia.
Qed.

(** A run in which every task has settled, all of them fulfilled,
    resolves with [this.animes], a permutation of all the years' anime. *)
Lemma settled_run_resolves (st : orch) :
  (forall i, i < total init -> In i (pending init)) ->
  (forall i, In i (pending init) -> is_ok outcome i = true) ->
  0 < total init ->
  reachable outcome init st -> pending st = [] ->
  resolved st = Some (animes st) /\
  Permutation (animes st) (concat (map (res outcome) (pending init))).
Proof.
  intros Hall Hok Hpos Hr Hdone.
  apply reachable_run in Hr as (ord & Hnd & Hincl & ->).
  destruct (run_invariant ord Hnd Hincl) as (_ & Hp & Ha & _ & Hres).
  assert (Hperm : Permutation ord (pending init)).
  { apply NoDup_Permutation; [exact Hnd | exact init_nodup |]. intros x; split; [apply Hincl|].
    intros Hx. destruct (in_dec Nat.eq_dec x ord) as [|Hn]; [assumption|]. exfalso.
    assert (Hin : In x (pending (run outcome init ord))) by (apply Hp; auto).
    rewrite Hdone in Hin. exact Hin. }
  assert (Hlen : length (pending init) = total init).
  { apply Nat.le_antisymm; [apply nodup_bound; assumption|].
    rewrite <- (length_seq (total init) 0). apply NoDup_incl_length; [apply seq_NoDup|].
    intros x Hx. apply in_seq in Hx. apply Hall. lia. }
  assert (Hcnt : count_ok outcome ord = total init).
  { rewrite count_ok_all by (intros i Hi; apply Hok, Hincl, Hi).
    now rewrite (Permutation_length Hperm). }
  rewrite Hres, Ha, Hcnt, Nat.eqb_refl, (proj2 (Nat.ltb_lt 0 (total init)) Hpos).
  split; [reflexivity|]. now apply Permutation_concat_map.
Qed.

(** C1: when there is at least one year link, every link starts its task
    and every task is fulfilled, then in every reachable state where all
    tasks have settled, in whatever order, the promise is resolved with
    [this.animes], which holds exactly the anime of all years: a
    permutation of their concatenation in link order. *)
Theorem parseLinks_complete (st : orch) :
  (forall i, i < total init -> In i (pending init)) ->
  (forall i, In i (pending init) -> is_ok outcome i = true) ->
  0 < total init ->
  reachable outcome init st -> pending st = [] ->
  resolved st = Some (animes st) /\
  Permutation (animes st) (concat (map (res outcome) (pending init))).
Proof. exact (settled_run_resolves st). Qed.

(** C2: the promise is resolved in a reachable state only if there is
    at least one year link, every link started its task, every task was
    fulfilled and all have settled; the value is then [this.animes].
    So one link without [href], one rejected year, or an index without
    year links leaves [all()] pending forever. *)
Theorem parseLinks_resolves_only_if (st : orch) (v : list Anime) :
  reachable outcome init st -> resolved st = Some v ->
  0 < total init /\ (forall i, i < total init -> In i (pending init)) /\
  (forall i, In i (pending init) -> is_ok outcome i = true) /\
  pending st = [] /\ v = animes st.
Proof.
  intros Hr Hv. apply reachable_run in Hr as (ord & Hnd & Hincl & ->).
  destruct (run_invariant ord Hnd Hincl) as (_ & Hp & Ha & _ & Hres).
  rewrite Hres in Hv.
  destruct (Nat.eqb_spec (count_ok outcome ord) (total init)) as [Hc|]; [|discriminate].
  destruct (Nat.ltb_spec 0 (total init)) as [Hpos|]; [|discriminate].
  cbn [andb] in Hv. injection Hv as <-.
  pose proof (count_ok_le outcome ord).
  assert (Hb : length (pending init) <= total init) by (apply nodup_bound; assumption).
  assert (Hle : length ord <= length (pending init)) by (apply NoDup_incl_length; assumption).
  assert (Hincl' : incl (pending init) ord)
    by (apply NoDup_length_incl; [exact Hnd | lia | exact Hincl]).
  split; [exact Hpos|]. split; [apply all_started_of_length; lia|].
  split; [intros i Hi; apply (count_ok_full outcome ord); [lia | apply Hincl', Hi]|].
  split; [|now rewrite Ha].
  destruct (pending (run outcome init ord)) as [|x xs] eqn:E; [reflexivity|].
  exfalso. assert (Hx : In x (x :: xs)) by now left.
  apply Hp in Hx as [Hx1 Hx2]. apply Hx2, Hincl', Hx1.
Qed.
(** C23: [this.finl] never exceeds the number of started tasks, which
    never exceeds [years.length]: the counter cannot jump past the value
    the completion check [this.finl == years.length] compares with. *)
Theorem finl_bounded (st : orch) :
  reachable outcome init st ->
  finl st <= length (pending init) /\ length (pending init) <= total init.
Proof.
  intros Hr. apply reachable_run in Hr as (ord & Hnd & Hincl & ->).
  destruct (run_invariant ord Hnd Hincl) as (_ & _ & _ & -> & _).
  pose proof (count_ok_le outcome ord). pose proof (NoDup_incl_length Hnd Hincl).
  pose proof (nodup_bound _ _ init_nodup init_bound). lia.
Qed.
End Runs.

(** ** The state [launch] leaves *)

Lemma started_from_In (k i : nat) (ls : selection) :
  In i (started_from k ls) <->
  k <= i /\ exists l, nth_error ls (i - k) = Some l /\ link_year l <> None.
Proof.
  revert k; induction ls as [|l ls IH]; intros k; simpl.
  - split; [tauto|]. intros [_ [l [E _]]]. now destruct (i - k).
  - destruct (link_year l) as [n|] eqn:El; [simpl; rewrite IH|rewrite IH]; split.
    + intros [<-|[Hk [l' [E Hl']]]].
      * split; [lia|]. exists l. rewrite Nat.sub_diag. split; [reflexivity | congruence].
      * split; [lia|]. exists l'. replace (i - k) with (S (i - S k)) by lia. auto.
    + intros [Hk [l' [E Hl']]]. destruct (Nat.eq_dec i k) as [->|Hne]; [now left|right].
      split; [lia|]. exists l'. replace (i - k) with (S (i - S k)) in E by lia. auto.
    + intros [Hk [l' [E Hl']]]. split; [lia|]. exists l'.
      replace (i - k) with (S (i - S k)) by lia. auto.
    + intros [Hk [l' [E Hl']]]. destruct (Nat.eq_dec i k) as [->|Hne].
      * rewrite Nat.sub_diag in E. injection E as ->. contradiction.
      * split; [lia|]. exists l'. replace (i - k) with (S (i - S k)) in E by lia. auto.
Qed.

Lemma started_from_nodup (k : nat) (ls : selection) : NoDup (started_from k ls).
Proof.
  revert k; induction ls as [|l ls IH]; intros k; simpl; [constructor|].
  destruct (link_year l); [|apply IH]. constructor; [|apply IH].
  rewrite started_from_In. lia.
Qed.

Lemma started_from_bound (ls : selection) :
  Forall (fun i => i < length ls) (started_from 0 ls).
Proof.
  apply Forall_forall. intros i Hi. apply started_from_In in Hi as [_ [l [E _]]].
  rewrite Nat.sub_0_r in E. apply nth_error_Some. congruence.
Qed.

(** The hypotheses of the run lemmas that [launch] satisfies. *)
Ltac launch_side :=
  solve [reflexivity | apply started_from_nodup | apply started_from_bound | eassumption].

(** Under [launch], the run invariant's hypotheses hold. *)
Lemma launch_run_invariant (outcome : nat -> completion (list Anime)) (doc : list node)
  (ord : list nat) :
  NoDup ord -> incl ord (pending (launch doc)) ->
  animes (run outcome (launch doc) ord) = concat (map (res outcome) ord) /\
  resolved (run outcome (launch doc) ord) =
    (if Nat.eqb (count_ok outcome ord) (length (year_links doc)) && Nat.ltb 0 (length (year_links doc))
     then Some (concat (map (res outcome) ord)) else None).
Proof.
  intros Hnd Hincl.
  destruct (run_invariant outcome (launch doc) ltac:(launch_side) ltac:(launch_side)
              ltac:(launch_side) ltac:(launch_side) ord Hnd Hincl) as (_ & _ & Ha & _ & Hr).
  split; [exact Ha | exact Hr].
Qed.

Section AllProps.
Context `{HttpClient} `{HtmlLoader}.

(** What a resolution of [all()] tells: the index, the started tasks and
    their fulfilment, and the settlement order. *)
Lemma all_resolves_inv (v : list Anime) :
  all_settles (Normal v) ->
  exists doc,
    all_start = Normal doc /\ year_links doc <> [] /\
    (forall i, i < length (year_links doc) ->
       In i (pending (launch doc)) /\ is_ok (year_outcome doc) i = true) /\
    exists ord, Permutation ord (pending (launch doc)) /\
                v = concat (map (res (year_outcome doc)) ord).
Proof.
  inversion 1 as [|doc st v' Hdoc Hr Hv]; subst.
  exists doc. split; [exact Hdoc|].
  apply reachable_run in Hr as (ord & Hnd & Hincl & ->); try launch_side.
  destruct (launch_run_invariant (year_outcome doc) doc ord Hnd Hincl) as [Ha Hres].
  rewrite Hres in Hv.
  destruct (Nat.eqb_spec (count_ok (year_outcome doc) ord) (length (year_links doc))) as [Hc|];
    [|discriminate].
  destruct (Nat.ltb_spec 0 (length (year_links doc))) as [Hpos|]; [|discriminate].
  cbn [andb] in Hv. injection Hv as <-.
  pose proof (count_ok_le (year_outcome doc) ord).
  pose proof (nodup_bound _ _ (started_from_nodup 0 (year_links doc)) (started_from_bound _)).
  assert (Hle : length ord <= length (pending (launch doc)))
    by (apply NoDup_incl_length; assumption).
  assert (Hincl' : incl (pending (launch doc)) ord)
    by (apply NoDup_length_incl; [exact Hnd | cbn [pending launch] in *; lia | exact Hincl]).
  split; [destruct (year_links doc); simpl in Hpos; [lia | discriminate]|]. split.
  + intros i Hi. assert (Hst : In i (pending (launch doc))).
    { apply (all_started_of_length (launch doc)); try launch_side.
      cbn [pending launch total] in *. lia. }
    split; [exact Hst|].
    apply (count_ok_full _ ord); [cbn [pending launch] in *; lia | apply Hincl', Hst].
  + exists ord. split; [|reflexivity].
    apply NoDup_Permutation; [exact Hnd | apply started_from_nodup|].
    intros x; split; [apply Hincl | apply Hincl'].
Qed.

(** Every settlement order of an index whose links all start and fulfil
    leads to a resolution. *)
Lemma all_resolves_intro (v : list Anime) (doc : list node) :
  all_start = Normal doc -> year_links doc <> [] ->
  (forall i, i < length (year_links doc) ->
     In i (pending (launch doc)) /\ is_ok (year_outcome doc) i = true) ->
  forall ord, Permutation ord (pending (launch doc)) ->
  v = concat (map (res (year_outcome doc)) ord) ->
  all_settles (Normal v).
Proof.
  intros Hdoc Hne Hall ord Hperm ->.
  assert (Hnd : NoDup ord)
    by (apply (Permutation_NoDup (Permutation_sym Hperm)), started_from_nodup).
  assert (Hincl : incl ord (pending (launch doc)))
    by (intros x Hx; now apply (Permutation_in _ Hperm)).
  destruct (launch_run_invariant (year_outcome doc) doc ord Hnd Hincl) as [_ Hres].
  apply (all_resolves doc (run (year_outcome doc) (launch doc) ord)); [exact Hdoc| |].
  + apply reachable_run; try launch_side. eauto.
  + rewrite Hres.
    assert (Hlen : length ord = length (year_links doc)).
    { rewrite (Permutation_length Hperm). apply Nat.le_antisymm.
      - exact (nodup_bound _ _ (started_from_nodup 0 _) (started_from_bound _)).
      - rewrite <- (length_seq (length (year_links doc)) 0).
        apply NoDup_incl_length; [apply seq_NoDup|]. intros x Hx.
        apply in_seq in Hx. apply Hall. lia. }
    rewrite count_ok_all, Hlen, Nat.eqb_refl.
    * destruct (year_links doc); [contradiction | reflexivity].
    * intros i Hi. apply Hall. rewrite <- Hlen.
      apply (Permutation_in _ Hperm) in Hi.
      pose proof (started_from_bound (year_links doc)) as Hb.
      rewrite Forall_forall in Hb. rewrite Hlen. exact (Hb i Hi).
Qed.

(** C3: [all()] resolves with [v] exactly when the index loads, has at
    least one year link, every link has an [href], and every year page
    loads; [v] is then the anime of every year, concatenated in the order
    in which the years' requests completed, and every order is possible. *)
Theorem all_resolves_iff (v : list Anime) :
  all_settles (Normal v) <->
  exists doc,
    all_start = Normal doc /\ year_links doc <> [] /\
    (forall i, i < length (year_links doc) ->
       In i (pending (launch doc)) /\ is_ok (year_outcome doc) i = true) /\
    exists ord, Permutation ord (pending (launch doc)) /\
                v = concat (map (res (year_outcome doc)) ord).
Proof.
  split; [apply all_resolves_inv|].
  intros (doc & Hdoc & Hne & Hall & ord & Hperm & Hv).
  exact (all_resolves_intro v doc Hdoc Hne Hall ord Hperm Hv).
Qed.

(** C19: aggregation completeness: when [all()] resolves, the number of
    anime it resolves with is the sum, over all year links of the index, of
    the number of anime each year page gave. *)
Theorem all_resolves_length (v : list Anime) :
  all_settles (Normal v) ->
  exists doc, all_start = Normal doc /\
    length v = list_sum (map (fun i => length (res (year_outcome doc) i))
                             (seq 0 (length (year_links doc)))).
Proof.
  intros Hs. destruct (all_resolves_inv v Hs) as (doc & Hdoc & _ & Hall & ord & Hperm & ->).
  exists doc. split; [exact Hdoc|].
  assert (Hseq : Permutation (pending (launch doc)) (seq 0 (length (year_links doc)))).
  { apply NoDup_Permutation; [apply started_from_nodup | apply seq_NoDup |].
    intros x. rewrite in_seq. split.
    - intros Hx. pose proof (started_from_bound (year_links doc)) as Hb.
      rewrite Forall_forall in Hb. specialize (Hb x Hx). lia.
    - intros Hx. apply Hall. lia. }
  rewrite (Permutation_length (Permutation_concat_map _ _ _ (perm_trans Hperm Hseq))).
  now rewrite length_concat, map_map.
Qed.
(** Every anime [all()] resolves with comes from one of the index's
    links: it carries the fifth segment of the link's [href] as its year,
    and its themes are typed. *)
Lemma all_resolves_stamped (v : list Anime) :
  all_settles (Normal v) ->
  exists doc, all_start = Normal doc /\
    Forall (fun a => (exists l, In l (year_links doc) /\ link_year l = Some (Anime.year a)) /\
                     themes_typed a) v.
Proof.
  intros Hs. destruct (all_resolves_inv v Hs) as (doc & Hdoc & _ & Hall & ord & Hperm & ->).
  exists doc. split; [exact Hdoc|]. apply Forall_forall. intros a Ha.
  apply in_concat in Ha as (l & Hl & Ha). apply in_map_iff in Hl as (i & <- & Hi).
  apply (Permutation_in _ Hperm) in Hi.
  pose proof (started_from_bound (year_links doc)) as Hb. rewrite Forall_forall in Hb.
  destruct (Hall i (Hb i Hi)) as [_ Hok].
  apply started_from_In in Hi as (_ & lk & Hlk & _). rewrite Nat.sub_0_r in Hlk.
  unfold is_ok, res, year_outcome in *. rewrite Hlk in Hok, Ha.
  destruct (link_year lk) as [n|] eqn:Ey; [|discriminate].
  destruct (year n) as [ys|e] eqn:Eys; [|discriminate].
  pose proof (proj1 (Forall_forall _ _) (year_stamped n ys Eys) a Ha) as [Hya Hty].
  split; [|exact Hty]. exists lk. split; [exact (nth_error_In _ _ Hlk) | now rewrite Hya].
Qed.

(** C27: when [all()] resolves, every anime of the result carries as
    [year] the fifth segment of the [href] of one of the index's [h3 a]
    links: the value [parseLinks] passed to [this.year] and [year] stamped
    on each anime of that page (lines 73 and 86). *)
Theorem all_resolves_years (v : list Anime) :
  all_settles (Normal v) ->
  exists doc, all_start = Normal doc /\
    Forall (fun a => exists l, In l (year_links doc) /\ link_year l = Some (Anime.year a)) v.
Proof.
  intros Hs. destruct (all_resolves_stamped v Hs) as (doc & Hdoc & Hf).
  exists doc. split; [exact Hdoc|]. exact (Forall_impl _ (fun a H => proj1 H) Hf).
Qed.

(** C32: [all()] rejects with [e] exactly when the index request fails
    with [e] or its response has no [content_html], which makes [getHTML]
    throw the TypeError of reading [replace] of [undefined]; nothing that
    happens to a year task rejects it (compare C2: those leave it
    pending). *)
Theorem all_rejects_iff (e : js_error) :
  all_settles (Throw e) <->
  http_get {| url := "https://reddit.com/r/AnimeThemes/wiki/year_index.json";
              headers := user_agent |} = Throw e \/
  exists resp, http_get {| url := "https://reddit.com/r/AnimeThemes/wiki/year_index.json";
                           headers := user_agent |} = Normal resp /\
               content_html resp = None /\ e = undefined_replace.
Proof.
  split.
  - inversion 1 as [e' Hs|]; subst. unfold all_start in Hs.
    destruct (http_get _) as [resp|e'] eqn:Eg; cbn [cbind] in Hs; [|left; congruence].
    right. exists resp. destruct (content_html resp); [discriminate|]. split; [reflexivity|].
    split; [reflexivity | congruence].
  - intros Hx. apply all_rejects. unfold all_start.
    destruct Hx as [Eg|(resp & Eg & Hc & ->)]; rewrite Eg; cbn [cbind]; [reflexivity|].
    now rewrite Hc.
Qed.
End AllProps.

(** The settlement orders of the two fixture tasks. *)
Lemma orders_of_two (ord : list nat) :
  NoDup ord -> incl ord [0; 1] -> 2 <= length ord -> ord = [0; 1] \/ ord = [1; 0].
Proof.
  intros Hnd Hincl Hlen.
  pose proof (NoDup_incl_length Hnd Hincl) as Hle. simpl in Hle.
  destruct ord as [|a [|b [|c ord]]]; simpl in Hlen, Hle; try lia.
  assert (Ha : In a [0; 1]) by (apply Hincl; now left).
  assert (Hb : In b [0; 1]) by (apply Hincl; right; now left).
  inversion Hnd as [|? ? Hab _]; subst. simpl in Hab.
  destruct Ha as [<-|[<-|[]]], Hb as [<-|[<-|[]]]; tauto.
Qed.

Lemma fx_all_start : @all_start fx_http fx_loader = Normal fx_index_doc.
Proof. vm_compute. reflexivity. Qed.

Lemma parseLinks_complete_witness :
  animes fx_init = [] /\ finl fx_init = 0 /\ resolved fx_init = None /\
  NoDup (pending fx_init) /\ Forall (fun i => i < total fx_init) (pending fx_init) /\
  reachable fx_outcome fx_init (run fx_outcome fx_init [1; 0]) /\
  pending (run fx_outcome fx_init [1; 0]) = [] /\
  resolved (run fx_outcome fx_init [1; 0]) = Some (animes (run fx_outcome fx_init [1; 0])) /\
  Permutation (animes (run fx_outcome fx_init [1; 0]))
              (concat (map (res fx_outcome) (pending fx_init))).
Proof.
  assert (Hreach : reachable fx_outcome fx_init (run fx_outcome fx_init [1; 0])).
  { unfold run. cbn [fold_left].
    eapply reach_step; [eapply reach_step; [apply reach_init|]|]; constructor; vm_compute; auto. }
  do 5 (split; [first [reflexivity | apply started_from_nodup | apply started_from_bound]|]).
  split; [exact Hreach|]. split; [vm_compute; reflexivity|].
  apply parseLinks_complete; try launch_side;
    try solve [ exact Hreach
              | intros i Hi; vm_compute in Hi |- *; lia
              | intros i Hi; vm_compute in Hi; destruct Hi as [<-|[<-|[]]]; vm_compute;
                reflexivity
              | vm_compute; lia
              | vm_compute; reflexivity ].
Defined.

Lemma parseLinks_resolves_only_if_witness :
  reachable fx_outcome fx_init (run fx_outcome fx_init [0; 1]) /\
  resolved (run fx_outcome fx_init [0; 1]) = Some (animes (run fx_outcome fx_init [0; 1])) /\
  0 < total fx_init /\ (forall i, i < total fx_init -> In i (pending fx_init)) /\
  (forall i, In i (pending fx_init) -> is_ok fx_outcome i = true) /\
  pending (run fx_outcome fx_init [0; 1]) = [] /\
  animes (run fx_outcome fx_init [0; 1]) = animes (run fx_outcome fx_init [0; 1]).
Proof.
  assert (Hreach : reachable fx_outcome fx_init (run fx_outcome fx_init [0; 1])).
  { unfold run. cbn [fold_left].
    eapply reach_step; [eapply reach_step; [apply reach_init|]|]; constructor; vm_compute; auto. }
  assert (Hres : resolved (run fx_outcome fx_init [0; 1]) =
                 Some (animes (run fx_outcome fx_init [0; 1]))) by (vm_compute; reflexivity).
  split; [exact Hreach|]. split; [exact Hres|].
  apply (parseLinks_resolves_only_if fx_outcome fx_init); try launch_side; assumption.
Defined.

(** [all()] on the fixture wiki resolves, with the years settled in link
    order. *)
Lemma fx_all_settles :
  @all_settles fx_http fx_loader (Normal (concat (map (res fx_outcome) [0; 1]))).
Proof.
  apply (all_resolves fx_index_doc (run fx_outcome fx_init [0; 1])); [apply fx_all_start| |].
  - apply reachable_run; try launch_side. exists [0; 1]. split; [|split; [|reflexivity]].
    + repeat constructor; simpl; intuition discriminate.
    + intros x Hx. vm_compute. simpl in Hx. tauto.
  - vm_compute. reflexivity.
Qed.

Lemma all_resolves_length_witness :
  @all_settles fx_http fx_loader (Normal (concat (map (res fx_outcome) [0; 1]))) /\
  exists doc, @all_start fx_http fx_loader = Normal doc /\
    length (concat (map (res fx_outcome) [0; 1])) =
      list_sum (map (fun i => length (res (@year_outcome fx_http fx_loader doc) i))
                    (seq 0 (length (year_links doc)))).
Proof. split; [apply fx_all_settles | apply all_resolves_length, fx_all_settles]. Defined.

Lemma finl_bounded_witness :
  reachable fx_outcome fx_init (run fx_outcome fx_init [0]) /\
  finl (run fx_outcome fx_init [0]) <= length (pending fx_init) /\
  length (pending fx_init) <= total fx_init.
Proof.
  assert (Hreach : reachable fx_outcome fx_init (run fx_outcome fx_init [0])).
  { unfold run. cbn [fold_left].
    eapply reach_step; [apply reach_init | constructor; vm_compute; auto]. }
  split; [exact Hreach|]. apply (finl_bounded fx_outcome fx_init); launch_side.
Defined.

Lemma all_resolves_years_witness :
  @all_settles fx_http fx_loader (Normal (concat (map (res fx_outcome) [0; 1]))) /\
  exists doc, @all_start fx_http fx_loader = Normal doc /\
    Forall (fun a => exists l, In l (year_links doc) /\ link_year l = Some (Anime.year a))
           (concat (map (res fx_outcome) [0; 1])).
Proof. split; [apply fx_all_settles | apply all_resolves_years, fx_all_settles]. Defined.

(** C16: the end-to-end scenario of the specification: with a year index
    listing 1990 and 1991 and a year page for each holding one series with
    the themes [OP1 "x"] and [ED1 "y"], [all()] resolves, and every value
    it can resolve with (for either order of completion) is a list of two
    anime, each with two themes, the first an opening and the second an
    ending. *)
Theorem fixture_end_to_end :
  (exists v, @all_settles fx_http fx_loader (Normal v)) /\
  forall v, @all_settles fx_http fx_loader (Normal v) ->
    length v = 2 /\
    Forall (fun a => exists t1 t2, themes a = Some [t1; t2] /\
                                   type t1 = opening /\ type t2 = ending) v.
Proof.
  split; [eexists; apply fx_all_settles|].
  - intros v Hs. inversion Hs as [|doc st v' Hdoc Hr Hv]; subst.
    rewrite fx_all_start in Hdoc. injection Hdoc as <-. change (launch fx_index_doc) with fx_init in Hr.
    apply reachable_run in Hr as (ord & Hnd & Hincl & ->); try launch_side.
    destruct (launch_run_invariant fx_outcome fx_index_doc ord Hnd Hincl) as [_ Hres].
    unfold fx_outcome, fx_init in *. rewrite Hres in Hv. change (length (year_links fx_index_doc)) with 2 in Hv.
    destruct (Nat.eqb_spec (count_ok (@year_outcome fx_http fx_loader fx_index_doc) ord) 2) as [Hc|];
      [|cbn [andb] in Hv; discriminate].
    pose proof (count_ok_le (@year_outcome fx_http fx_loader fx_index_doc) ord).
    assert (Hincl2 : incl ord [0; 1]) by (intros x Hx; exact (Hincl x Hx)).
    destruct (orders_of_two ord Hnd Hincl2 ltac:(lia)) as [->| ->];
      cbn [andb Nat.ltb Nat.leb] in Hv; injection Hv as <-; vm_compute;
      (split; [reflexivity|]); repeat constructor; do 2 eexists; repeat split.
Qed.
