(* ===== verification/Concurrent.v ===== *)
(** * Overlapping calls of [all] on one [ThemeParser] (src/main.js 36-97)

    [this.animes] and [this.finl] are fields of the parser object, not of
    one call: [all] clears [this.animes] when it is called (line 39),
    [parseLinks] zeroes [this.finl] when the index has loaded (line 83),
    and every task's [.then] callback appends to [this.animes] and
    increments [this.finl] (88-89), comparing the count with the
    [years.length] of its own call and resolving its own call's promise
    (91-92).  [parser] holds the two shared fields and the calls in
    flight; a call's [years.length], pending tasks and promise are its own.
    The callback of a task of call [k] is [Orchestrator.settle] run on the
    [view] that joins the shared fields with call [k]'s own state, written
    back by [absorb].

    The index and year pages are the same for every call (the client is a
    function), so a section fixes the index document [doc]; the events are
    a new call, the index of call [k] loading, and a task of call [k]
    settling, in any order.  [this.animes] and [this.finl] start
    [undefined]; every call sets both before they are read, so they start
    as [[]] and [0] here.

    The theorems: calls in sequence refine the single-call orchestrator
    and are resolved once their events are over; every reachable call is
    well formed; overlapping calls
    interfere and overrun the shared counter. *)

From Stdlib Require Import String List Arith Lia Bool Permutation.
From S2P Require Import Prelude JsString Dom Table Anime Year Orchestrator.
Import ListNotations.

(** ** State *)

(** One call of [all]: [years.length] once its index has loaded, its
    started tasks not yet settled, and the value its promise was resolved
    with. *)
Record call : Type := mkCall {
  c_total : option nat;
  c_pending : list nat;
  c_resolved : option (list Anime)
}.

(** The parser object: [this.animes], [this.finl], and the calls made on
    it so far. *)
Record parser : Type := mkParser {
  p_animes : list Anime;
  p_finl : nat;
  p_calls : list call
}.

Definition fresh_parser : parser := {| p_animes := []; p_finl := 0; p_calls := [] |}.

(** Update the element [k] of a list; nothing happens out of range. *)
Fixpoint upd {A : Type} (l : list A) (k : nat) (f : A -> A) : list A :=
  match l, k with
  | [], _ => []
  | x :: l', O => f x :: l'
  | x :: l', S k' => x :: upd l' k' f
  end.

(** What the callback of a task of call [k] sees: the shared fields and
    call [k]'s own state; [None] before call [k]'s index has loaded. *)
Definition view (p : parser) (k : nat) : option orch :=
  match nth_error (p_calls p) k with
  | Some {| c_total := Some n; c_pending := ps; c_resolved := r |} =>
      Some {| total := n; pending := ps; animes := p_animes p; finl := p_finl p; resolved := r |}
  | _ => None
  end.

(** Write the callback's effects back: shared fields to the parser, the
    rest to call [k]. *)
Definition absorb (p : parser) (k : nat) (o : orch) : parser :=
  {| p_animes := animes o; p_finl := finl o;
     p_calls := upd (p_calls p) k (fun _ => mkCall (Some (total o)) (pending o) (resolved o)) |}.

(** A call whose index has loaded and which has no task left. *)
Definition quiet (c : call) : Prop := c_total c <> None /\ c_pending c = [].

Section Shared.
Context `{HttpClient} `{HtmlLoader}.
Variable doc : list node.

(** [all()] is called: [this.animes = []] (line 39), then the index is
    requested. *)
Definition call_all (p : parser) : parser :=
  {| p_animes := []; p_finl := p_finl p; p_calls := p_calls p ++ [mkCall None [] None] |}.

(** The index of call [k] has loaded and [parseLinks] runs: [this.finl = 0]
    (line 83) and every link with an [href] starts its task (85-86). *)
Definition index_loaded (p : parser) (k : nat) : parser :=
  {| p_animes := p_animes p; p_finl := 0;
     p_calls := upd (p_calls p) k
                  (fun c => mkCall (Some (length (year_links doc)))
                                   (started_from 0 (year_links doc)) (c_resolved c)) |}.

(** Task [i] of call [k] settles and its callback runs (87-94). *)
Definition task_settles (p : parser) (k i : nat) : parser :=
  match view p k with
  | Some o => absorb p k (settle (year_outcome doc) o i)
  | None => p
  end.

Inductive pstep : parser -> parser -> Prop :=
| ps_call p : pstep p (call_all p)
| ps_index p k c : nth_error (p_calls p) k = Some c -> c_total c = None ->
                   pstep p (index_loaded p k)
| ps_settle p k i o : view p k = Some o -> In i (pending o) -> pstep p (task_settles p k i).

(** The states reachable from [p]. *)
Inductive preach (p : parser) : parser -> Prop :=
| preach_refl : preach p p
| preach_step p1 p2 : preach p p1 -> pstep p1 p2 -> preach p p2.
End Shared.

(** ** Fixture: two overlapping calls on the wiki of [Year]

    Both calls are made; the first call's index loads and its 1990 task
    completes; the second call's index loads (zeroing [this.finl]); the
    first call's 1991 task completes; the second call's 1990 task
    completes. *)
Definition fx_overlap : parser :=
  @task_settles fx_http fx_loader fx_index_doc
    (@task_settles fx_http fx_loader fx_index_doc
       (index_loaded fx_index_doc
          (@task_settles fx_http fx_loader fx_index_doc
             (index_loaded fx_index_doc (call_all (call_all fresh_parser)) 0) 0 0) 1) 0 1) 1 0.

(** After [fx_overlap], the second call's 1991 task completes as well:
    [this.finl] reaches 3 with [years.length] 2. *)
Definition fx_overrun : parser := @task_settles fx_http fx_loader fx_index_doc fx_overlap 1 1.

(** Two calls in sequence: the first call runs to the end (both years
    settle), then the second call is made and its 1990 task settles. *)
Definition fx_first_done : parser :=
  @task_settles fx_http fx_loader fx_index_doc
    (@task_settles fx_http fx_loader fx_index_doc
       (index_loaded fx_index_doc (call_all fresh_parser) 0) 0 0) 0 1.

Definition fx_second_step : parser :=
  @task_settles fx_http fx_loader fx_index_doc
    (index_loaded fx_index_doc (call_all fx_first_done) 1) 1 0.

(** ... and its 1991 task settles too: the second call has run to the
    end. *)
Definition fx_second_done : parser :=
  @task_settles fx_http fx_loader fx_index_doc fx_second_step 1 1.

(** ** Measures and invariants of the parser *)

(** A well-formed call: before its index has loaded it has no task and
    an unsettled promise; after, its [years.length] is the number of
    links of the index and its pending tasks are distinct links whose
    task was started. *)
Definition call_ok (doc : list node) (c : call) : Prop :=
  match c_total c with
  | None => c_pending c = [] /\ c_resolved c = None
  | Some t => t = length (year_links doc) /\ NoDup (c_pending c) /\
              incl (c_pending c) (started_from 0 (year_links doc))
  end.

(** ** Lemmas on the call list *)

Lemma nth_error_upd_same {A : Type} (l : list A) (k : nat) (f : A -> A) :
  nth_error (upd l k f) k = option_map f (nth_error l k).
Proof. revert k; induction l as [|x l IH]; intros [|k]; cbn; auto. Qed.

Lemma nth_error_upd_other {A : Type} (l : list A) (j k : nat) (f : A -> A) :
  j <> k -> nth_error (upd l j f) k = nth_error l k.
Proof.
  revert j k; induction l as [|x l IH]; intros [|j] [|k] Hjk; cbn; auto;
    try lia; apply IH; lia.
Qed.

Lemma length_upd {A : Type} (l : list A) (k : nat) (f : A -> A) : length (upd l k f) = length l.
Proof. revert k; induction l as [|x l IH]; intros [|k]; cbn; auto. Qed.

#[export] Hint Rewrite @nth_error_upd_same @length_upd : scraper_rw.

(** The callback's view of the state it wrote back is the state it
    computed. *)
Lemma view_absorb (p : parser) (k : nat) (o : orch) :
  k < length (p_calls p) -> view (absorb p k o) k = Some o.
Proof.
  intros Hk. unfold view, absorb. cbn [p_calls p_animes p_finl]. rewrite nth_error_upd_same.
  destruct (nth_error (p_calls p) k) eqn:E; [|apply nth_error_None in E; lia].
  destruct o; reflexivity.
Qed.

Lemma view_Some (p : parser) (k : nat) (o : orch) :
  view p k = Some o ->
  exists n r, nth_error (p_calls p) k = Some (mkCall (Some n) (pending o) r) /\
              total o = n /\ resolved o = r /\ animes o = p_animes p /\ finl o = p_finl p.
Proof.
  unfold view. destruct (nth_error (p_calls p) k) as [[[n|] ps r]|]; try discriminate.
  intros [= <-]. eauto 10.
Qed.

(** A settlement never changes [years.length]; once [this.finl] is past
    it, the completion check fails and the promise is left as it was. *)
Lemma settle_past_total (outcome : nat -> completion (list Anime)) (o : orch) (i : nat) :
  total o < finl o ->
  total (settle outcome o i) = total o /\ resolved (settle outcome o i) = resolved o /\
  finl o <= finl (settle outcome o i).
Proof.
  intros Hlt. unfold settle. destruct (existsb _ _); [|auto].
  destruct (outcome i) as [a|e]; cbn [on_fulfilled remove_pending total finl resolved]; [|auto].
  rewrite (proj2 (Nat.eqb_neq _ _)) by lia. auto.
Qed.

Lemma map_upd_same {A B : Type} (g : A -> B) (l : list A) (k : nat) (f : A -> A) (x : A) :
  nth_error l k = Some x -> g (f x) = g x -> map g (upd l k f) = map g l.
Proof.
  revert k; induction l as [|y l IH]; intros [|k] Hk Hg; cbn in *; try discriminate.
  - injection Hk as ->. now rewrite Hg.
  - now rewrite (IH k Hk Hg).
Qed.

Lemma Forall_upd {A : Type} (P : A -> Prop) (l : list A) (k : nat) (f : A -> A) :
  Forall P l -> (forall x, P x -> P (f x)) -> Forall P (upd l k f).
Proof.
  intros Hl Hf. revert k; induction Hl as [|y l Hy Hl IH]; intros [|k]; cbn; constructor; auto.
Qed.

Lemma Forall_upd_at {A : Type} (P : A -> Prop) (l : list A) (k : nat) (f : A -> A) :
  Forall P l -> (forall x, nth_error l k = Some x -> P x -> P (f x)) -> Forall P (upd l k f).
Proof.
  intros Hl. revert k; induction Hl as [|y l Hy Hl IH]; intros [|k] Hf; cbn; constructor; auto.
Qed.

Lemma NoDup_remove_nat (i : nat) (l : list nat) : NoDup l -> NoDup (remove Nat.eq_dec i l).
Proof.
  induction 1 as [|x l Hx Hl IH]; cbn; [constructor|].
  destruct (Nat.eq_dec i x); [exact IH|]. constructor; [|exact IH].
  intros Hin. apply in_remove in Hin. tauto.
Qed.

Section Steps.
Context `{HttpClient} `{HtmlLoader}.
Variable doc : list node.

(** Calls are never forgotten. *)
Lemma pstep_length (p p' : parser) :
  pstep doc p p' -> length (p_calls p) <= length (p_calls p').
Proof.
  destruct 1 as [p|p k c _ _|p k i o Hv _]; cbn.
  - rewrite length_app. lia.
  - now rewrite length_upd.
  - unfold task_settles. rewrite Hv. cbn. now rewrite length_upd.
Qed.

(** A call whose index has loaded and whose tasks have all settled is
    never changed again: no event of another call touches it, and it has
    no task left to settle. *)
Lemma settled_call_frozen (p p' : parser) (k : nat) (c : call) :
  preach doc p p' -> nth_error (p_calls p) k = Some c -> c_total c <> None -> c_pending c = [] ->
  nth_error (p_calls p') k = Some c.
Proof.
  intros Hr Hc Ht Hp. induction Hr as [|p1 p2 Hr IH Hs]; [exact Hc|].
  destruct Hs as [p1|p1 j c' Hj Hn|p1 j i o Hv Hi].
  - cbn. rewrite nth_error_app1; [exact IH|]. apply nth_error_Some. congruence.
  - cbn. destruct (Nat.eq_dec j k) as [->|Hjk]; [congruence|]. now rewrite nth_error_upd_other.
  - unfold task_settles. rewrite Hv. cbn. destruct (Nat.eq_dec j k) as [->|Hjk].
    + apply view_Some in Hv as (n & r & E & _). rewrite IH in E. injection E as ->.
      cbn in Hp. rewrite Hp in Hi. destruct Hi.
    + now rewrite nth_error_upd_other.
Qed.
(** Calls are never forgotten along a run. *)
Lemma preach_length (p p' : parser) :
  preach doc p p' -> length (p_calls p) <= length (p_calls p').
Proof.
  induction 1 as [|p1 p2 _ IH Hs]; [lia|]. pose proof (pstep_length _ _ Hs). lia.
Qed.

(** A call made when every earlier call is quiet is, all along, either
    waiting for its index with [this.animes] empty, or in a state whose
    view is a reachable state of the single-call orchestrator. *)
Lemma last_call_inv (base p : parser) :
  Forall quiet (p_calls base) ->
  preach doc (call_all base) p -> length (p_calls p) = S (length (p_calls base)) ->
  (nth_error (p_calls p) (length (p_calls base)) = Some (mkCall None [] None) /\ p_animes p = []) \/
  (exists o, view p (length (p_calls base)) = Some o /\ reachable (year_outcome doc) (launch doc) o).
Proof.
  intros Hq Hr. set (m := length (p_calls base)).
  assert (Hold : forall p1 j, preach doc (call_all base) p1 -> j < m ->
                 exists c, nth_error (p_calls p1) j = Some c /\ quiet c).
  { intros p1 j Hr1 Hj. destruct (nth_error (p_calls base) j) as [c|] eqn:Ec;
      [|apply nth_error_None in Ec; lia].
    pose proof (proj1 (Forall_forall _ _) Hq c (nth_error_In _ _ Ec)) as [Ht Hp].
    exists c. split; [|split; assumption].
    apply (settled_call_frozen _ _ _ _ Hr1); [|assumption..].
    cbn. rewrite nth_error_app1; [exact Ec | exact Hj]. }
  induction Hr as [|p1 p2 Hr IH Hs]; intros Hl.
  - left. cbn. rewrite nth_error_app2, Nat.sub_diag by lia. split; reflexivity.
  - pose proof (pstep_length _ _ Hs) as H12. pose proof (preach_length _ _ Hr) as H1.
    cbn [p_calls call_all] in H1. rewrite length_app in H1. cbn in H1.
    assert (Hl1 : length (p_calls p1) = S m) by lia. clear H1 H12.
    destruct Hs as [p1|p1 k c Hk Hn|p1 k i o' Hv' Hi].
    + cbn in Hl. rewrite length_app in Hl. cbn in Hl. lia.
    + assert (Hkm : k < length (p_calls p1)) by (apply nth_error_Some; congruence).
      destruct (Nat.eq_dec k m) as [->|Hkm'].
      * destruct (IH Hl1) as [(Hc & Ha)|(o & Hv & _)].
        -- right. exists (launch doc). unfold view, index_loaded. cbn [p_calls p_animes p_finl].
           rewrite nth_error_upd_same, Hc, Ha. split; [reflexivity | apply reach_init].
        -- apply view_Some in Hv as (n & r & E & _). rewrite E in Hk. injection Hk as <-.
           discriminate.
      * destruct (Hold p1 k Hr ltac:(lia)) as (c' & E & Ht & _). rewrite E in Hk.
        injection Hk as ->. contradiction.
    + assert (Hk : k < length (p_calls p1))
        by (apply view_Some in Hv' as (n & r & E & _); apply nth_error_Some; congruence).
      destruct (Nat.eq_dec k m) as [->|Hkm].
      * destruct (IH Hl1) as [(Hc & Ha)|(o & Hv & Ho)].
        -- unfold view in Hv'. rewrite Hc in Hv'. discriminate.
        -- rewrite Hv in Hv'. injection Hv' as <-. right.
           exists (settle (year_outcome doc) o i). unfold task_settles. rewrite Hv.
           split; [apply view_absorb; lia|]. eapply reach_step; [exact Ho | constructor; exact Hi].
      * destruct (Hold p1 k Hr ltac:(lia)) as (c' & E & _ & Hp).
        apply view_Some in Hv' as (n & r & E' & _). rewrite E in E'. injection E' as ->.
        cbn in Hp. rewrite Hp in Hi. destruct Hi.
Qed.
(** Once [this.finl] has passed [years.length] with every call's index
    loaded, no event but a new call can happen that resolves a promise:
    every promise keeps its state and the counter stays past the bound. *)
Lemma overrun_no_resolve (p p' : parser) :
  preach doc p p' -> length (p_calls p') = length (p_calls p) ->
  Forall (fun c => c_total c = Some (length (year_links doc))) (p_calls p) ->
  length (year_links doc) < p_finl p ->
  Forall (fun c => c_total c = Some (length (year_links doc))) (p_calls p') /\
  length (year_links doc) < p_finl p' /\ map c_resolved (p_calls p') = map c_resolved (p_calls p).
Proof.
  intros Hr Hl Ht Hf. induction Hr as [|p1 p2 Hr IH Hs]; [auto|].
  pose proof (preach_length _ _ Hr). pose proof (pstep_length _ _ Hs) as H12.
  destruct (IH ltac:(lia)) as (Ht1 & Hf1 & Hres1).
  destruct Hs as [p1|p1 k c Hk Hn|p1 k i o Hv Hi].
  - cbn in Hl, H12. rewrite length_app in Hl. cbn in Hl. lia.
  - apply nth_error_In in Hk. rewrite Forall_forall in Ht1. rewrite (Ht1 c Hk) in Hn. discriminate.
  - unfold task_settles. rewrite Hv. pose proof Hv as Hv'.
    apply view_Some in Hv' as (n & r & E & Htot & Hres & _ & Hfin).
    assert (Hn : n = length (year_links doc)).
    { rewrite Forall_forall in Ht1. pose proof (Ht1 _ (nth_error_In _ _ E)) as Hc.
      cbn in Hc. congruence. }
    destruct (settle_past_total (year_outcome doc) o i) as (Ht' & Hr' & Hf'); [lia|].
    cbn [absorb p_calls p_finl]. split; [|split].
    + apply Forall_upd; [exact Ht1|]. intros _ _. cbn. congruence.
    + lia.
    + rewrite <- Hres1. apply (map_upd_same _ _ _ _ _ E). cbn. congruence.
Qed.

(** C28: in every state of the parser reachable from a new parser, every
    call is well formed ([call_ok]): a call whose index has not loaded has
    no task and an unsettled promise, and a loaded call keeps the number
    of links of the index as [years.length] and has as pending tasks
    distinct links whose task was started, so each task's callback runs
    at most once per call. *)
Theorem parser_invariant (p : parser) :
  preach doc fresh_parser p -> Forall (call_ok doc) (p_calls p).
Proof.
  induction 1 as [|p1 p2 _ IH Hs]; [constructor|].
  destruct Hs as [p1|p1 k c Hk Hn|p1 k i o Hv Hi].
  - cbn. apply Forall_app. split; [exact IH | repeat constructor].
  - cbn. apply Forall_upd; [exact IH|]. intros c' _. unfold call_ok. cbn.
    split; [reflexivity|]. split; [apply started_from_nodup | apply incl_refl].
  - unfold task_settles. rewrite Hv. apply view_Some in Hv as (n & r & E & Ht & _).
    cbn [absorb p_calls]. apply Forall_upd_at; [exact IH|]. intros c' E' Hc.
    rewrite E in E'. injection E' as <-. unfold call_ok in *. cbn in Hc |- *.
    destruct Hc as (Hn & Hnd & Hincl).
    destruct (settle_pending (year_outcome doc) o i Hi) as [-> ->].
    split; [congruence|]. split; [exact (NoDup_remove_nat _ _ Hnd)|].
    intros x Hx. apply in_remove in Hx. apply Hincl, Hx.
Qed.
End Steps.

(** Build a run of the parser event by event, from the last event back. *)
Ltac pstep_tac :=
  first [ apply ps_call
        | eapply ps_index; reflexivity
        | eapply ps_settle; [reflexivity | vm_compute; auto] ].

Ltac preach_chain :=
  first [ apply preach_refl | eapply preach_step; [| pstep_tac]; preach_chain ].

Section Refinement.
Context `{HttpClient} `{HtmlLoader}.
Variable doc : list node.

(** C20: a call of [all] made when every earlier call on the parser has
    no task left (in particular the first call on a new parser) refines
    the single-call orchestrator: in every state reachable by the parser's
    events with no newer call, the view of that call (the shared
    [this.animes] and [this.finl] with the call's own count, tasks and
    promise) is a reachable state of [Orchestrator.step] from [launch], so
    C1-C3 hold for it.  The reset of [this.animes] and [this.finl] is what
    makes calls in sequence independent. *)
Theorem call_after_quiet_refines (base p : parser) (o : orch) :
  Forall quiet (p_calls base) ->
  preach doc (call_all base) p -> length (p_calls p) = S (length (p_calls base)) ->
  view p (length (p_calls base)) = Some o ->
  reachable (year_outcome doc) (launch doc) o.
Proof.
  intros Hq Hr Hl Hv.
  destruct (last_call_inv doc base p Hq Hr Hl) as [(Hc & _)|(o' & Hv' & Ho)].
  - unfold view in Hv. rewrite Hc in Hv. discriminate.
  - rewrite Hv in Hv'. injection Hv' as ->. exact Ho.
Qed.
End Refinement.

Lemma call_after_quiet_refines_witness :
  Forall quiet (p_calls fx_first_done) /\
  @preach fx_http fx_loader fx_index_doc (call_all fx_first_done) fx_second_step /\
  length (p_calls fx_second_step) = S (length (p_calls fx_first_done)) /\
  view fx_second_step (length (p_calls fx_first_done)) = Some (settle fx_outcome fx_init 0) /\
  reachable fx_outcome (launch fx_index_doc) (settle fx_outcome fx_init 0).
Proof.
  assert (Hq : Forall quiet (p_calls fx_first_done))
    by (vm_compute; constructor; [split; [discriminate | reflexivity] | constructor]).
  assert (Hr : @preach fx_http fx_loader fx_index_doc (call_all fx_first_done) fx_second_step)
    by (unfold fx_second_step; preach_chain).
  assert (Hv : view fx_second_step (length (p_calls fx_first_done)) =
                 Some (settle fx_outcome fx_init 0)) by (vm_compute; reflexivity).
  split; [exact Hq|]. split; [exact Hr|]. split; [vm_compute; reflexivity|]. split; [exact Hv|].
  apply (call_after_quiet_refines fx_index_doc fx_first_done fx_second_step _ Hq Hr);
    [vm_compute; reflexivity | exact Hv].
Defined.

Section Liveness.
Context `{HttpClient} `{HtmlLoader}.
Variable doc : list node.

(** C31: a call of [all] made when every earlier call on the parser has
    no task left, on an index with at least one year link whose links
    all have an [href] and whose year pages all load, is resolved in
    every state its events leave with nothing more to happen but a new
    call: its promise holds the shared [this.animes], a permutation of
    the anime of all years. *)
Theorem quiet_call_resolves (base p : parser) :
  Forall quiet (p_calls base) -> year_links doc <> [] ->
  (forall i, i < length (year_links doc) ->
     In i (started_from 0 (year_links doc)) /\ is_ok (year_outcome doc) i = true) ->
  preach doc (call_all base) p -> length (p_calls p) = S (length (p_calls base)) ->
  (forall p', pstep doc p p' -> length (p_calls p) < length (p_calls p')) ->
  exists v, nth_error (p_calls p) (length (p_calls base)) =
              Some (mkCall (Some (length (year_links doc))) [] (Some v)) /\
            v = p_animes p /\
            Permutation v (concat (map (res (year_outcome doc)) (started_from 0 (year_links doc)))).
Proof.
  intros Hq Hne Hall Hr Hl Hterm.
  destruct (last_call_inv doc base p Hq Hr Hl) as [(Hc & _)|(o & Hv & Ho)].
  - assert (Hs : pstep doc p (index_loaded doc p (length (p_calls base)))) by (eapply ps_index; [exact Hc | reflexivity]).
    specialize (Hterm _ Hs). cbn in Hterm. rewrite length_upd in Hterm. lia.
  - destruct (pending o) as [|i ps] eqn:Hp.
    2:{ assert (Hs : pstep doc p (task_settles doc p (length (p_calls base)) i))
          by (eapply ps_settle; [exact Hv | rewrite Hp; now left]).
        specialize (Hterm _ Hs). unfold task_settles in Hterm. rewrite Hv in Hterm.
        cbn in Hterm. rewrite length_upd in Hterm. lia. }
    assert (Ht : total o = total (launch doc)) by (eapply reachable_total; try launch_side).
    assert (Hsr : resolved o = Some (animes o) /\
                  Permutation (animes o) (concat (map (res (year_outcome doc)) (pending (launch doc))))).
    { eapply settled_run_resolves; try launch_side; cbn [total pending launch].
      - intros i Hi. exact (proj1 (Hall i Hi)).
      - intros i Hi. pose proof (started_from_bound (year_links doc)) as Hb.
        rewrite Forall_forall in Hb. exact (proj2 (Hall i (Hb i Hi))).
      - destruct (year_links doc); [contradiction | cbn; lia]. }
    destruct Hsr as [Hres Hperm].
    apply view_Some in Hv as (n & r & E & Htot & Hr' & Ha & _).
    exists (animes o). rewrite E, Hp, <- Htot, <- Hr', Ht, Hres. auto.
Qed.
End Liveness.

(** C21: two overlapping calls of [all] on one parser interfere.  On the
    wiki of [Year] (two years, each page loads), a single call always
    resolves with two anime (C16), but in the interleaving [fx_overlap]
    the second call resolves with three (the 1990 anime twice, the first
    call's results included), and the first call has no task left and an
    unresolved promise in every state reachable from there: it never
    resolves. *)
Theorem overlapping_calls_interfere :
  @preach fx_http fx_loader fx_index_doc fresh_parser fx_overlap /\
  option_map c_resolved (nth_error (p_calls fx_overlap) 1) =
    Some (Some (concat (map (res fx_outcome) [0; 1; 0]))) /\
  forall p', @preach fx_http fx_loader fx_index_doc fx_overlap p' ->
    exists c, nth_error (p_calls p') 0 = Some c /\ c_resolved c = None.
Proof.
  split; [unfold fx_overlap; preach_chain|]. split; [vm_compute; reflexivity|].
  intros p' Hr. exists (mkCall (Some 2) [] None). split; [|reflexivity].
  eapply settled_call_frozen; [exact Hr | vm_compute; reflexivity | discriminate | reflexivity].
Qed.

(** C24: overlapping calls push [this.finl] past [years.length] (compare
    C23 for one call): on the wiki of [Year], after [fx_overrun] the
    counter is 3 with two year links, and from then on, until another
    call of [all] is made, no promise of any call changes state: the
    unresolved first call stays unresolved whatever order the remaining
    events take. *)
Theorem overlapping_calls_overrun_counter :
  @preach fx_http fx_loader fx_index_doc fresh_parser fx_overrun /\
  length (year_links fx_index_doc) < p_finl fx_overrun /\
  forall p', @preach fx_http fx_loader fx_index_doc fx_overrun p' ->
    length (p_calls p') = length (p_calls fx_overrun) ->
    map c_resolved (p_calls p') = map c_resolved (p_calls fx_overrun).
Proof.
  assert (Hf : length (year_links fx_index_doc) < p_finl fx_overrun)
    by (apply Nat.ltb_lt; vm_compute; reflexivity).
  split; [unfold fx_overrun, fx_overlap; preach_chain|]. split; [exact Hf|].
  intros p' Hr Hl.
  apply (overrun_no_resolve fx_index_doc fx_overrun p' Hr Hl); [|exact Hf].
  vm_compute. repeat constructor.
Qed.

Lemma parser_invariant_witness :
  @preach fx_http fx_loader fx_index_doc fresh_parser fx_overlap /\
  Forall (call_ok fx_index_doc) (p_calls fx_overlap).
Proof.
  assert (Hr : @preach fx_http fx_loader fx_index_doc fresh_parser fx_overlap)
    by (unfold fx_overlap; preach_chain).
  split; [exact Hr | exact (@parser_invariant fx_http fx_loader fx_index_doc _ Hr)].
Defined.

Lemma quiet_call_resolves_witness :
  Forall quiet (p_calls fx_first_done) /\ year_links fx_index_doc <> [] /\
  (forall i, i < length (year_links fx_index_doc) ->
     In i (started_from 0 (year_links fx_index_doc)) /\ is_ok fx_outcome i = true) /\
  @preach fx_http fx_loader fx_index_doc (call_all fx_first_done) fx_second_done /\
  length (p_calls fx_second_done) = S (length (p_calls fx_first_done)) /\
  (forall p', @pstep fx_http fx_loader fx_index_doc fx_second_done p' ->
     length (p_calls fx_second_done) < length (p_calls p')) /\
  exists v, nth_error (p_calls fx_second_done) (length (p_calls fx_first_done)) =
              Some (mkCall (Some (length (year_links fx_index_doc))) [] (Some v)) /\
            v = p_animes fx_second_done /\
            Permutation v (concat (map (res fx_outcome) (started_from 0 (year_links fx_index_doc)))).
Proof.
  assert (Hq : Forall quiet (p_calls fx_first_done))
    by (vm_compute; constructor; [split; [discriminate | reflexivity] | constructor]).
  assert (Hne : year_links fx_index_doc <> []) by (vm_compute; discriminate).
  assert (Hall : forall i, i < length (year_links fx_index_doc) ->
                   In i (started_from 0 (year_links fx_index_doc)) /\ is_ok fx_outcome i = true).
  { intros i Hi. vm_compute in Hi. destruct i as [|[|i]]; [vm_compute; auto.. | lia]. }
  assert (Hr : @preach fx_http fx_loader fx_index_doc (call_all fx_first_done) fx_second_done)
    by (unfold fx_second_done, fx_second_step; preach_chain).
  assert (Hl : length (p_calls fx_second_done) = S (length (p_calls fx_first_done)))
    by (vm_compute; reflexivity).
  assert (Hterm : forall p', @pstep fx_http fx_loader fx_index_doc fx_second_done p' ->
                    length (p_calls fx_second_done) < length (p_calls p')).
  { intros p' Hs. inversion Hs as [p0 E|p0 k c Hk Hn E|p0 k i o Hv Hi E]; subst.
    - vm_compute. lia.
    - destruct k as [|[|[|k]]]; vm_compute in Hk; try discriminate; injection Hk as <-; discriminate.
    - destruct k as [|[|[|k]]]; vm_compute in Hv; try discriminate; injection Hv as <-; destruct Hi. }
  do 6 (split; [assumption|]).
  exact (@quiet_call_resolves fx_http fx_loader fx_index_doc _ _ Hq Hne Hall Hr Hl Hterm).
Defined.
