(* ===== verification/Output.v ===== *)
(** * The output writer: the command-line entry (src/main.js 151-159)

    When the module is run as a program, [parser.all()] is called and its
    fulfilment handler writes [JSON.stringify(a)] to [./output.json] with
    [fs.writeFileSync] and logs ["Parsed " + a.length + " anime. Written to
    output.json"].  There is no rejection handler.

    The JavaScript objects serialised are built in three places: the theme
    literal of [parseTable] (main.js 138-144), the anime literal of
    [parseAnime] with the [themes] property added afterwards (108-117) and
    the [year] property added by [year] (73).  Their property order is this
    insertion order, and [JSON.stringify] leaves out the properties whose
    value is [undefined] ([obj]).  The file system and the console are the
    record [world]: [writeFileSync] replaces the content of a path,
    [console.log] appends a line.

    [read_output] is the reader of the written file: the JSON reader of
    [Json] and a decoder of the anime records; the round trip shows that the
    file holds exactly the list [all()] resolved with.  [anime_conforms]
    and [theme_conforms] check a JSON value against the JSDoc typedefs of
    lines 5-23, and [output_conforms] the file against the documented
    return type [Array<Anime>].  The theorems also follow the program from
    the index to the file: what a written file holds, and that an index
    without links writes nothing. *)

From Stdlib Require Import String Ascii List Arith Lia Bool DecimalString DecimalNat.
From S2P Require Import Prelude JsString Dom Table Anime Year Orchestrator Json.
Import ListNotations.
Local Open Scope string_scope.

(** ** From the records to JSON values *)

(** [type: (name.startsWith('OP') ? 'opening' : 'ending')] *)
Definition type_str (t : theme_type) : string :=
  match t with
  | opening => "opening"
  | ending => "ending"
  end.

(** [SerializeJSONObject]: the properties in insertion order, those whose
    value is [undefined] left out. *)
Definition obj (fields : list (string * option json)) : json :=
  JObj (flat_map (fun kv => match snd kv with
                            | Some x => [(fst kv, x)]
                            | None => []
                            end) fields).

(** The theme object literal (main.js 138-144). *)
Definition json_of_theme (t : Theme) : json :=
  obj [("name", Some (JStr (name t)));
       ("link", option_map JStr (link t));
       ("type", Some (JStr (type_str (type t))));
       ("episodes", Some (JStr (episodes t)));
       ("notes", Some (JStr (notes t)))].

(** The anime object: [{id: malId, title}] (108-111), then [themes]
    (114 or 116), then [year] (73). *)
Definition json_of_anime (a : Anime) : json :=
  obj [("id", option_map JStr (id a));
       ("title", Some (JStr (title a)));
       ("themes", option_map (fun ts => JArr (map json_of_theme ts)) (themes a));
       ("year", option_map JStr (Anime.year a))].

(** [JSON.stringify(a)] *)
Definition output_text (a : list Anime) : string := stringify (JArr (map json_of_anime a)).

(** [a.length] converted to a string by [+]: its decimal digits. *)
Definition js_nat (n : nat) : string := NilZero.string_of_uint (Nat.to_uint n).

Definition log_msg (a : list Anime) : string :=
  "Parsed " ++ js_nat (length a) ++ " anime. Written to output.json".

(** ** File system and console *)

Record world : Type := mkWorld {
  files : list (string * string);
  stdout : list string
}.

(** [fs.writeFileSync(path, data)]: the file is created or replaced. *)
Definition write_file (w : world) (path data : string) : world :=
  {| files := (path, data) :: filter (fun p => negb (String.eqb (fst p) path)) (files w);
     stdout := stdout w |}.

(** [console.log(line)] *)
Definition console_log (w : world) (line : string) : world :=
  {| files := files w; stdout := stdout w ++ [line] |}.

Definition read_file (w : world) (path : string) : option string :=
  option_map snd (find (fun p => String.eqb (fst p) path) (files w)).

(** The fulfilment handler (main.js 155-158). *)
Definition on_done (w : world) (a : list Anime) : world :=
  console_log (write_file w "./output.json" (output_text a)) (log_msg a).

Section Main.
Context `{HttpClient} `{HtmlLoader}.

(** The worlds the program can end in.  [is_main] is
    [require.main === module]: imported as a library, the module does
    nothing.  A rejected or never-settled [all()] writes nothing. *)
Inductive main_final (is_main : bool) (w : world) : world -> Prop :=
| final_library : is_main = false -> main_final is_main w w
| final_written v : is_main = true -> all_settles (Normal v) -> main_final is_main w (on_done w v)
| final_rejected e : is_main = true -> all_settles (Throw e) -> main_final is_main w w
| final_pending : is_main = true -> (forall r, ~ all_settles r) -> main_final is_main w w.
End Main.

(** ** Reading the file back *)

Definition lookup_key (k : string) (kvs : list (string * json)) : option json :=
  option_map snd (find (fun p => String.eqb (fst p) k) kvs).

(** A required string property. *)
Definition get_str (k : string) (kvs : list (string * json)) : option string :=
  match lookup_key k kvs with
  | Some (JStr s) => Some s
  | _ => None
  end.

(** A property that may be absent ([undefined]); [None] for a value of
    another shape. *)
Definition get_opt_str (k : string) (kvs : list (string * json)) : option (option string) :=
  match lookup_key k kvs with
  | None => Some None
  | Some (JStr s) => Some (Some s)
  | Some _ => None
  end.

Definition type_of_str (s : string) : option theme_type :=
  if String.eqb s "opening" then Some opening
  else if String.eqb s "ending" then Some ending
  else None.

Definition theme_of_json (j : json) : option Theme :=
  match j with
  | JObj kvs =>
      match get_str "name" kvs, get_opt_str "link" kvs, get_str "type" kvs,
            get_str "episodes" kvs, get_str "notes" kvs with
      | Some n, Some l, Some ty, Some e, Some no =>
          option_map (fun t => {| name := n; link := l; type := t; episodes := e; notes := no |})
                     (type_of_str ty)
      | _, _, _, _, _ => None
      end
  | _ => None
  end.

Fixpoint decode_list {A : Type} (f : json -> option A) (l : list json) : option (list A) :=
  match l with
  | [] => Some []
  | x :: l' =>
      match f x, decode_list f l' with
      | Some a, Some r => Some (a :: r)
      | _, _ => None
      end
  end.

Definition anime_of_json (j : json) : option Anime :=
  match j with
  | JObj kvs =>
      let ths := match lookup_key "themes" kvs with
                 | None => Some None
                 | Some (JArr l) => option_map Some (decode_list theme_of_json l)
                 | Some _ => None
                 end in
      match get_opt_str "id" kvs, get_str "title" kvs, ths, get_opt_str "year" kvs with
      | Some i, Some t, Some th, Some y =>
          Some {| id := i; title := t; themes := th; Anime.year := y |}
      | _, _, _, _ => None
      end
  | _ => None
  end.

(** The content of [output.json] read back as a list of anime. *)
Definition read_output (s : string) : option (list Anime) :=
  match parse_json s with
  | Some (JArr l) => decode_list anime_of_json l
  | _ => None
  end.

(** ** The JSDoc types of the records (main.js 5-23, 34)

    The typedefs declare every property of [Theme] (a string each, [type]
    one of ['opening'] and ['ending']) and of [Anime] (strings and an array
    of [Theme]), and [all] is documented to return [Array<Anime>].  These
    checkers say whether a JSON value has exactly the declared properties
    with the declared types. *)

Definition is_str (j : json) : bool :=
  match j with
  | JStr _ => true
  | _ => false
  end.

(** The object has exactly the properties [ks] (which are distinct). *)
Definition keys_exactly (ks : list string) (kvs : list (string * json)) : bool :=
  Nat.eqb (length kvs) (length ks) && forallb (fun k => existsb (String.eqb k) (map fst kvs)) ks.

(** [@typedef Theme] *)
Definition theme_conforms (j : json) : bool :=
  match j with
  | JObj kvs =>
      keys_exactly ["name"; "link"; "type"; "episodes"; "notes"] kvs &&
      forallb (fun kv => if String.eqb (fst kv) "type"
                         then match snd kv with
                              | JStr t => String.eqb t "opening" || String.eqb t "ending"
                              | _ => false
                              end
                         else is_str (snd kv)) kvs
  | _ => false
  end.

(** [@typedef Anime] *)
Definition anime_conforms (j : json) : bool :=
  match j with
  | JObj kvs =>
      keys_exactly ["id"; "title"; "year"; "themes"] kvs &&
      forallb (fun kv => if String.eqb (fst kv) "themes"
                         then match snd kv with
                              | JArr l => forallb theme_conforms l
                              | _ => false
                              end
                         else is_str (snd kv)) kvs
  | _ => false
  end.

(** [@returns {Promise<Array<Anime>>}]: the text is an array of [Anime]. *)
Definition output_conforms (s : string) : bool :=
  match parse_json s with
  | Some (JArr l) => forallb anime_conforms l
  | _ => false
  end.

(** ** Lemmas *)

Lemma decode_list_map {A : Type} (f : json -> option A) (g : A -> json) (l : list A) :
  (forall x, f (g x) = Some x) -> decode_list f (map g l) = Some l.
Proof. intros Hfg. induction l as [|x l IH]; [reflexivity|]. cbn. now rewrite Hfg, IH. Qed.

(** Every theme object reads back to the theme. *)
Lemma theme_roundtrip (t : Theme) : theme_of_json (json_of_theme t) = Some t.
Proof. destruct t as [n [l|] [|] e no]; reflexivity. Qed.

(** Every anime object reads back to the anime, whichever properties were
    left out as [undefined]. *)
Lemma anime_roundtrip (a : Anime) : anime_of_json (json_of_anime a) = Some a.
Proof.
  destruct a as [[i|] t [ts|] [y|]]; cbn -[decode_list json_of_theme];
    rewrite ?(decode_list_map theme_of_json json_of_theme ts theme_roundtrip); reflexivity.
Qed.

Lemma read_write_same (w : world) (p d : string) : read_file (write_file w p d) p = Some d.
Proof. unfold read_file, write_file. cbn. now rewrite String.eqb_refl. Qed.

Lemma find_filter_other {A : Type} (f g : A -> bool) (l : list A) :
  (forall x, f x = true -> g x = true) -> find f (filter g l) = find f l.
Proof.
  intros Hfg. induction l as [|x l IH]; [reflexivity|]. cbn.
  destruct (g x) eqn:Eg; cbn; destruct (f x) eqn:Ef; auto.
  rewrite (Hfg x Ef) in Eg. discriminate.
Qed.

Lemma read_write_other (w : world) (p q d : string) :
  q <> p -> read_file (write_file w p d) q = read_file w q.
Proof.
  intros Hqp. unfold read_file, write_file. cbn [files find fst].
  rewrite (proj2 (String.eqb_neq p q)) by congruence.
  rewrite find_filter_other; [reflexivity|].
  intros [k v] Hk. cbn in *. apply String.eqb_eq in Hk. subst k.
  apply negb_true_iff, String.eqb_neq. exact Hqp.
Qed.

(** The decimal digits of a count read back to the count. *)
Lemma js_nat_roundtrip (n : nat) :
  option_map Nat.of_uint (NilZero.uint_of_string (js_nat n)) = Some n.
Proof.
  unfold js_nat. assert (Hn : Nat.to_uint n <> Decimal.Nil).
  { rewrite <- (DecimalNat.Unsigned.of_to n) at 1. rewrite DecimalNat.Unsigned.to_of.
    unfold Decimal.unorm. destruct (Decimal.nzhead _); discriminate. }
  rewrite (NilZero.usu _ Hn). cbn. now rewrite DecimalNat.Unsigned.of_to.
Qed.

Lemma all_settles_exclusive `{HttpClient} `{HtmlLoader} (e : js_error) (v : list Anime) :
  all_settles (Throw e) -> ~ all_settles (Normal v).
Proof.
  intros He Hv. inversion He as [e' Hs|]; subst. inversion Hv as [|doc st v' Hd _ _]; subst.
  congruence.
Qed.

Lemma read_output_text (a : list Anime) : read_output (output_text a) = Some a.
Proof.
  unfold read_output, output_text. rewrite parse_json_stringify.
  apply decode_list_map, anime_roundtrip.
Qed.

(** C17: [output.json] is lossless: the text [JSON.stringify] writes for a
    list of anime reads back (as JSON, then as anime records) to that very
    list, properties left out as [undefined] included, so two different
    results never give the same file. *)
Theorem output_roundtrip (a b : list Anime) :
  read_output (output_text a) = Some a /\ (output_text a = output_text b -> a = b).
Proof.
  split; [apply read_output_text|]. intros E.
  pose proof (read_output_text b) as Hb. rewrite <- E, read_output_text in Hb.
  now injection Hb.
Qed.

(** C18: run as a program, the module ends either with [./output.json]
    holding the text of a list [v] that [all()] resolved with, every other
    file unchanged and one more console line ["Parsed N anime. Written to
    output.json"] whose [N] reads back to the number of anime in [v]; or,
    when [all()] cannot resolve (rejected or pending forever), with the
    file system and the console unchanged. *)
Theorem main_final_output `{HttpClient} `{HtmlLoader} (w w' : world) :
  main_final true w w' ->
  (exists v ds, all_settles (Normal v) /\
     option_map read_output (read_file w' "./output.json") = Some (Some v) /\
     (forall p, p <> "./output.json" -> read_file w' p = read_file w p) /\
     stdout w' = (stdout w ++ [("Parsed " ++ ds ++ " anime. Written to output.json")%string])%list /\
     option_map Nat.of_uint (NilZero.uint_of_string ds) = Some (length v))
  \/ (w' = w /\ forall v, ~ all_settles (Normal v)).
Proof.
  intros Hm. inversion Hm as [Hf|v Ht Hs|e Ht Hs|Ht Hn]; subst; [discriminate| | |].
  - left. exists v, (js_nat (length v)). split; [exact Hs|].
    unfold on_done, read_file at 1. change (files (console_log ?w ?l)) with (files w).
    fold (read_file (write_file w "./output.json" (output_text v)) "./output.json").
    rewrite read_write_same. cbn [option_map]. rewrite read_output_text.
    split; [reflexivity|]. split; [|split; [reflexivity | apply js_nat_roundtrip]].
    intros p Hp. apply read_write_other, Hp.
  - right. split; [reflexivity|]. intros v. exact (all_settles_exclusive e v Hs).
  - right. split; [reflexivity|]. intros v. apply Hn.
Qed.

(** C34: end to end, from the wiki to the file: when the program has
    changed the world, [./output.json] reads back to a list of anime every
    one of which carries as [year] the fifth segment of the [href] of one
    of the index's [h3 a] links, and has typed themes (an opening exactly
    when its name starts with [OP]). *)
Theorem written_output_from_index `{HttpClient} `{HtmlLoader} (w w' : world) :
  main_final true w w' -> w' <> w ->
  exists doc v, all_start = Normal doc /\
    option_map read_output (read_file w' "./output.json") = Some (Some v) /\
    Forall (fun a => (exists l, In l (year_links doc) /\ link_year l = Some (Anime.year a)) /\
                     themes_typed a) v.
Proof.
  intros Hm Hne. inversion Hm as [Hf|v Ht Hs|e Ht Hs|Ht Hn]; subst; [discriminate| | congruence..].
  destruct (all_resolves_stamped v Hs) as (doc & Hdoc & Hf).
  exists doc, v. split; [exact Hdoc|]. split; [|exact Hf].
  unfold on_done, read_file. change (files (console_log ?w ?l)) with (files w).
  fold (read_file (write_file w "./output.json" (output_text v)) "./output.json").
  rewrite read_write_same. cbn [option_map]. now rewrite read_output_text.
Qed.

(** C35: an index page without any [h3 a] link (an empty or reshaped
    wiki) makes the program end with nothing written and nothing logged:
    no callback ever runs, so [all()] neither resolves (not even with an
    empty list) nor rejects. *)
Theorem empty_index_writes_nothing `{HttpClient} `{HtmlLoader} (doc : list node) (w w' : world) :
  all_start = Normal doc -> year_links doc = [] -> main_final true w w' -> w' = w.
Proof.
  intros Hd He Hm. inversion Hm as [Hf|v Ht Hs|e Ht Hs|Ht Hn]; subst; try reflexivity.
  exfalso. destruct (all_resolves_inv v Hs) as (doc' & Hd' & Hne & _).
  rewrite Hd in Hd'. injection Hd' as <-. contradiction.
Qed.

(** A wiki whose index page has no year link. *)
Definition fx_http_empty : HttpClient := fun _ => Normal {| content_html := Some "&lt;p&gt;&lt;/p&gt;" |}.
Definition fx_loader_empty : HtmlLoader := fun _ => [Element "p" [] []].

Definition fx_world : world := {| files := [("README.md", "animethemes")]; stdout := [] |}.

Lemma main_final_output_witness :
  @main_final fx_http fx_loader true fx_world
    (on_done fx_world (concat (map (res fx_outcome) [0; 1]))) /\
  ((exists v ds, @all_settles fx_http fx_loader (Normal v) /\
     option_map read_output (read_file (on_done fx_world (concat (map (res fx_outcome) [0; 1])))
                                       "./output.json") = Some (Some v) /\
     (forall p, p <> "./output.json" ->
        read_file (on_done fx_world (concat (map (res fx_outcome) [0; 1]))) p = read_file fx_world p) /\
     stdout (on_done fx_world (concat (map (res fx_outcome) [0; 1]))) =
       (stdout fx_world ++ [("Parsed " ++ ds ++ " anime. Written to output.json")%string])%list /\
     option_map Nat.of_uint (NilZero.uint_of_string ds) = Some (length v))
  \/ (on_done fx_world (concat (map (res fx_outcome) [0; 1])) = fx_world /\
      forall v, ~ @all_settles fx_http fx_loader (Normal v))).
Proof.
  assert (Hm : @main_final fx_http fx_loader true fx_world
                 (on_done fx_world (concat (map (res fx_outcome) [0; 1]))))
    by (apply final_written; [reflexivity | apply fx_all_settles]).
  split; [exact Hm | apply main_final_output; exact Hm].
Defined.

(** A series whose link has fewer than five segments has an [undefined]
    id, so its object in [output.json] has no [id] property at all (not an
    empty one). *)
Example output_omits_undefined_id :
  match parse_json (output_text [{| id := segment4 "/anime/31181"; title := "Owarimonogatari";
                                    themes := None; Anime.year := Some "2015" |}]) with
  | Some (JArr [JObj kvs]) => map fst kvs
  | _ => []
  end = ["title"; "year"].
Proof. vm_compute. reflexivity. Qed.

Lemma theme_conforms_json (t : Theme) : theme_conforms (json_of_theme t) = true <-> link t <> None.
Proof.
  destruct t as [n [l|] [|] e no]; cbn [link]; split; intros H;
    solve [reflexivity | discriminate | congruence | contradiction].
Qed.

Lemma anime_conforms_json (x : Anime) :
  anime_conforms (json_of_anime x) =
    match id x, Anime.year x, themes x with
    | Some _, Some _, Some ts => forallb theme_conforms (map json_of_theme ts)
    | _, _, _ => false
    end.
Proof.
  destruct x as [[i|] t [ts|] [y|]]; cbn -[theme_conforms json_of_theme];
    rewrite ?andb_true_r; reflexivity.
Qed.

(** C25: [output.json] has the documented type [Array<Anime>] exactly
    when every anime has an id, a year and a themes table, and every theme
    a link: a heading without a five-segment link, a year link without a
    fifth segment, a heading not followed by a table, or a theme cell
    without a first child with an [href] each leave a property out of the
    file, where the typedefs declare it. *)
Theorem output_conforms_iff (a : list Anime) :
  output_conforms (output_text a) = true <->
  Forall (fun x => id x <> None /\ Anime.year x <> None /\
                   exists ts, themes x = Some ts /\ Forall (fun t => link t <> None) ts) a.
Proof.
  unfold output_conforms, output_text. rewrite parse_json_stringify.
  rewrite forallb_forall, Forall_forall. split.
  - intros H x Hx. specialize (H _ (in_map _ _ _ Hx)). rewrite anime_conforms_json in H.
    destruct (id x), (Anime.year x), (themes x) as [ts|]; try discriminate.
    split; [discriminate|]. split; [discriminate|]. exists ts. split; [reflexivity|].
    rewrite forallb_forall in H. apply Forall_forall. intros t Ht.
    apply theme_conforms_json, H, in_map, Ht.
  - intros H j Hj. apply in_map_iff in Hj as (x & <- & Hx).
    destruct (H x Hx) as (Hi & Hy & ts & Hts & Hl). rewrite anime_conforms_json, Hts.
    destruct (id x); [|contradiction]. destruct (Anime.year x); [|contradiction].
    apply forallb_forall. intros j Hj. apply in_map_iff in Hj as (t & <- & Ht).
    apply theme_conforms_json. rewrite Forall_forall in Hl. exact (Hl t Ht).
Qed.

Lemma written_output_from_index_witness :
  @main_final fx_http fx_loader true fx_world
    (on_done fx_world (concat (map (res fx_outcome) [0; 1]))) /\
  on_done fx_world (concat (map (res fx_outcome) [0; 1])) <> fx_world /\
  exists doc v, @all_start fx_http fx_loader = Normal doc /\
    option_map read_output (read_file (on_done fx_world (concat (map (res fx_outcome) [0; 1])))
                                      "./output.json") = Some (Some v) /\
    Forall (fun a => (exists l, In l (year_links doc) /\ link_year l = Some (Anime.year a)) /\
                     themes_typed a) v.
Proof.
  assert (Hm : @main_final fx_http fx_loader true fx_world
                 (on_done fx_world (concat (map (res fx_outcome) [0; 1]))))
    by (apply final_written; [reflexivity | apply fx_all_settles]).
  assert (Hne : on_done fx_world (concat (map (res fx_outcome) [0; 1])) <> fx_world)
    by (intros E; apply (f_equal stdout) in E; vm_compute in E; discriminate).
  split; [exact Hm|]. split; [exact Hne|].
  exact (written_output_from_index _ _ Hm Hne).
Defined.

Lemma empty_index_writes_nothing_witness :
  @all_start fx_http_empty fx_loader_empty = Normal [Element "p" [] []] /\
  year_links [Element "p" [] []] = [] /\
  @main_final fx_http_empty fx_loader_empty true fx_world fx_world /\ fx_world = fx_world.
Proof.
  assert (Hd : @all_start fx_http_empty fx_loader_empty = Normal [Element "p" [] []])
    by reflexivity.
  assert (He : year_links [Element "p" [] []] = []) by reflexivity.
  assert (Hm : @main_final fx_http_empty fx_loader_empty true fx_world fx_world).
  { apply final_pending; [reflexivity|]. intros r Hs. inversion Hs as [e Hs'|doc st v Hd' Hr Hv]; subst.
    - rewrite Hd in Hs'. discriminate.
    - destruct (@all_resolves_inv fx_http_empty fx_loader_empty v Hs) as (doc' & Hd'' & Hne & _).
      rewrite Hd in Hd''. injection Hd'' as <-. contradiction. }
  split; [exact Hd|]. split; [exact He|]. split; [exact Hm|].
  exact (empty_index_writes_nothing _ _ _ Hd He Hm).
Defined.
